(** * LeadSight sales agent: the crawl orchestrator, embedded and verified

    The development follows the three source files of the repository:
    [app.py] (the command-line crawler and the shared [scrape_company]),
    [server.py] (the Flask job server and its own [scrape_company_async]),
    and [llm_utils.py] (the enrichment call).

    Python [str] values are modelled by [string]; one [ascii] stands for
    one code point below 256, where [str.lower], [str.isspace], the regex
    classes [\s] and [\d] and case-insensitive matching are all
    character-wise.  Python [int] scores are sums of 2 and 3 and are
    modelled by [nat].  The browser, the network, the JSON codec and
    [urllib.parse] are collaborators of the program: they are the fields
    of an interface ([Env]) that the crawl is written against. *)

From Stdlib Require Import Ascii String NArith ZArith Lia Bool.
From Stdlib Require Import Sorting.Sorted Sorting.Permutation.
From stdpp Require Import base option list strings gmap.

Set Warnings "-register-all".

(** ** Python text primitives *)

Module Py.

Definition ord (c : ascii) : N := N_of_ascii c.

Definition between (lo hi : N) (c : ascii) : bool :=
  ((lo <=? ord c) && (ord c <=? hi))%N.

(** [str.isspace] on one code point, which is also the regex class [\s]:
    TAB..CR, FS..US, SPACE, NEL and NBSP. *)
Definition isspace (c : ascii) : bool :=
  between 9 13 c || between 28 32 c
  || (ord c =? 133)%N || (ord c =? 160)%N.

(** The regex class [\d] (decimal digits below 256). *)
Definition isdigit (c : ascii) : bool := between 48 57 c.

(** [str.lower] on one code point: A-Z and the Latin-1 capitals. *)
Definition isupper (c : ascii) : bool :=
  between 65 90 c || (between 192 222 c && negb (ord c =? 215)%N).

Definition lower_char (c : ascii) : ascii :=
  if isupper c then ascii_of_N (ord c + 32) else c.

Fixpoint lower (s : string) : string :=
  match s with
  | EmptyString => EmptyString
  | String c s' => String (lower_char c) (lower s')
  end.

Fixpoint lstrip (s : string) : string :=
  match s with
  | EmptyString => EmptyString
  | String c s' => if isspace c then lstrip s' else s
  end.

Fixpoint rstrip (s : string) : string :=
  match s with
  | EmptyString => EmptyString
  | String c s' =>
      match rstrip s' with
      | EmptyString => if isspace c then EmptyString else String c EmptyString
      | r => String c r
      end
  end.

(** [s.strip()] *)
Definition strip (s : string) : string := rstrip (lstrip s).

(** [s.startswith(p)] *)
Fixpoint startswith (p s : string) : bool :=
  match p, s with
  | EmptyString, _ => true
  | String _ _, EmptyString => false
  | String a p', String b s' => Ascii.eqb a b && startswith p' s'
  end.

(** [s.endswith(p)] *)
Definition endswith (p s : string) : bool :=
  startswith (String.rev p) (String.rev s).

(** [kw in s] on strings: substring test. *)
Fixpoint contains (kw s : string) : bool :=
  startswith kw s
  || match s with
     | EmptyString => false
     | String _ s' => contains kw s'
     end.

(** [s.replace(old, new)] for a non-empty [old]: occurrences are found
    left to right and do not overlap; [skip] counts the characters of the
    occurrence just replaced that are still to be passed over. *)
Fixpoint replace_go (old new : string) (skip : nat) (s : string) : string :=
  match s with
  | EmptyString => EmptyString
  | String c s' =>
      match skip with
      | S n => replace_go old new n s'
      | O =>
          if startswith old s
          then new +:+ replace_go old new (String.length old - 1) s'
          else String c (replace_go old new 0 s')
      end
  end.

Definition replace (old new s : string) : string := replace_go old new 0 s.

(** Every character of [s] satisfies [p]. *)
Fixpoint all_chars (p : ascii -> bool) (s : string) : bool :=
  match s with
  | EmptyString => true
  | String c s' => p c && all_chars p s'
  end.


(** Truthiness of a [str]: [not s] holds for the empty string only. *)
Definition truthy (s : string) : bool :=
  match s with EmptyString => false | _ => true end.

(** [re.sub(r"\s+", " ", s)]: every maximal run of whitespace becomes
    one space. *)
Fixpoint collapse_ws (s : string) : string :=
  match s with
  | EmptyString => EmptyString
  | String c s' =>
      if isspace c then String " " (collapse_ws_skip s')
      else String c (collapse_ws s')
  end
with collapse_ws_skip (s : string) : string :=
  match s with
  | EmptyString => EmptyString
  | String c s' =>
      if isspace c then collapse_ws_skip s' else String c (collapse_ws s')
  end.

End Py.

(** ** The fragment of [re] used by the extractors

    A backtracking matcher in the style of CPython's [sre]: alternatives
    are tried in priority order (greedy repetition first), the first
    success wins, and [re.search] scans start positions left to right.
    The continuation receives the input that is left and returns the text
    matched by the rest of the pattern, so a result is [match.group(0)]. *)

Module Re.

Inductive regex : Type :=
| Lit (a : ascii)                 (* one literal character *)
| Cls (p : ascii -> bool)         (* one character of a class *)
| Seq (r1 r2 : regex)
| Opt (r : regex)                 (* (r)?  greedy *)
| StarCls (p : ascii -> bool)     (* [class]*  greedy *)
| PlusCls (p : ascii -> bool).    (* [class]+  greedy *)

(** A literal string, character by character. *)
Fixpoint lits (s : string) (rest : regex) : regex :=
  match s with
  | EmptyString => rest
  | String a s' => Seq (Lit a) (lits s' rest)
  end.

(** Literal comparison; [ic] is [re.IGNORECASE]. *)
Definition lit_eq (ic : bool) (a c : ascii) : bool :=
  if ic then Ascii.eqb (Py.lower_char a) (Py.lower_char c) else Ascii.eqb a c.

Definition cont : Type := string -> option string.

Definition one (ok : ascii -> bool) (s : string) (k : cont) : option string :=
  match s with
  | EmptyString => None
  | String c s' => if ok c then String c <$> k s' else None
  end.

Fixpoint star (p : ascii -> bool) (s : string) (k : cont) : option string :=
  match s with
  | EmptyString => k EmptyString
  | String c s' =>
      if p c then
        match star p s' k with
        | Some m => Some (String c m)
        | None => k s
        end
      else k s
  end.

Fixpoint run (ic : bool) (r : regex) (s : string) (k : cont) : option string :=
  match r with
  | Lit a => one (lit_eq ic a) s k
  | Cls p => one p s k
  | Seq r1 r2 => run ic r1 s (fun s' => run ic r2 s' k)
  | Opt r1 =>
      match run ic r1 s k with
      | Some m => Some m
      | None => k s
      end
  | StarCls p => star p s k
  | PlusCls p => one p s (fun s' => star p s' k)
  end.

Definition accept : cont := fun _ => Some EmptyString.

(** [re.match(r, s)]: a match anchored at the start of [s]. *)
Definition match_here (ic : bool) (r : regex) (s : string) : option string :=
  run ic r s accept.

(** [re.search(r, s)] followed by [.group(0)]. *)
Fixpoint search (ic : bool) (r : regex) (s : string) : option string :=
  match match_here ic r s with
  | Some m => Some m
  | None =>
      match s with
      | EmptyString => None
      | String _ s' => search ic r s'
      end
  end.

(** The language of a pattern, independent of the matching strategy. *)
Inductive matches (ic : bool) : regex -> string -> Prop :=
| m_lit a c : lit_eq ic a c = true -> matches ic (Lit a) (String c EmptyString)
| m_cls (p : ascii -> bool) c :
    p c = true -> matches ic (Cls p) (String c EmptyString)
| m_seq r1 r2 s1 s2 :
    matches ic r1 s1 -> matches ic r2 s2 -> matches ic (Seq r1 r2) (s1 +:+ s2)
| m_opt_none r : matches ic (Opt r) EmptyString
| m_opt_some r s : matches ic r s -> matches ic (Opt r) s
| m_star_nil p : matches ic (StarCls p) EmptyString
| m_star_cons (p : ascii -> bool) c s :
    p c = true -> matches ic (StarCls p) s -> matches ic (StarCls p) (String c s)
| m_plus (p : ascii -> bool) c s :
    p c = true -> matches ic (StarCls p) s -> matches ic (PlusCls p) (String c s).

(** [s] has an occurrence of the pattern starting after the prefix [a]. *)
Definition occurs_at (ic : bool) (r : regex) (s a m : string) : Prop :=
  exists b, s = a +:+ m +:+ b /\ matches ic r m.

Definition occurs (ic : bool) (r : regex) (s : string) : Prop :=
  exists a m, occurs_at ic r s a m.

End Re.

(** ** Fact extractors ([extract_founded], [extract_email],
       [extract_sentence_near_keyword]); [app.py] and [server.py] carry
       the same three functions, word for word. *)

Module Extract.

Import Re.

Definition ws_plus : regex -> regex := Seq (PlusCls Py.isspace).

Definition year : regex :=
  Seq (Cls Py.isdigit) (Seq (Cls Py.isdigit)
    (Seq (Cls Py.isdigit) (Cls Py.isdigit))).

(** [Founded\s+(in\s+)?(\d{4})] *)
Definition pat_founded : regex :=
  lits "Founded" (ws_plus (Seq (Opt (lits "in" (PlusCls Py.isspace))) year)).

(** [Established\s+(in\s+)?(\d{4})] *)
Definition pat_established : regex :=
  lits "Established"
       (ws_plus (Seq (Opt (lits "in" (PlusCls Py.isspace))) year)).

(** [Since\s+(\d{4})] *)
Definition pat_since : regex := lits "Since" (ws_plus year).

Definition patterns : list regex := [pat_founded; pat_established; pat_since].

(** The [for pattern in patterns] loop with its early [return]. *)
Fixpoint first_search (ps : list regex) (text : string) : option string :=
  match ps with
  | [] => None
  | p :: ps' =>
      match search true p text with
      | Some m => Some m
      | None => first_search ps' text
      end
  end.

Definition extract_founded (text : string) : option string :=
  first_search patterns text.

Definition alnum (c : ascii) : bool :=
  Py.between 97 122 c || Py.between 65 90 c || Py.between 48 57 c.

Definition one_of (set : string) (c : ascii) : bool :=
  Py.contains (String c EmptyString) set.

(** [[a-zA-Z0-9._%+-]+@[a-zA-Z0-9.-]+\.[a-zA-Z]+], case-sensitive *)
Definition pat_email : regex :=
  Seq (PlusCls (fun c => alnum c || one_of "._%+-" c))
   (Seq (Lit "@")
    (Seq (PlusCls (fun c => alnum c || one_of ".-" c))
     (Seq (Lit ".")
      (PlusCls (fun c => Py.between 97 122 c || Py.between 65 90 c))))).

Definition extract_email (text : string) : option string :=
  search false pat_email text.

Definition not_dot (c : ascii) : bool := negb (Ascii.eqb c ".").

(** A greedy run of non-dot characters, the keyword, a greedy run of
    non-dot characters, with [re.IGNORECASE]; the keyword is spliced
    into the pattern as literal text, which is what the only call site
    (keyword ["about us"]) does. *)
Definition pat_sentence (keyword : string) : regex :=
  Seq (StarCls not_dot) (lits keyword (StarCls not_dot)).

Definition extract_sentence_near_keyword (text keyword : string)
  : option string :=
  Py.strip <$> search true (pat_sentence keyword) text.

End Extract.

(** ** Values, exceptions and effects

    A Python value as far as the program looks at it: what [json.loads]
    returns and what a result row holds.  A [dict] keeps its insertion
    order, so it is an association list read by [dict_get]. *)

Module Rt.

Inductive pyval : Type :=
| VNone
| VBool (b : bool)
| VInt (z : Z)
| VFloat (repr : string)
| VStr (s : string)
| VList (items : list pyval)
| VDict (entries : list (string * pyval)).

(** [d.get(key)] on the entries of a dict *)
Fixpoint dict_get (key : string) (d : list (string * pyval)) : option pyval :=
  match d with
  | [] => None
  | (k, v) :: d' => if String.eqb k key then Some v else dict_get key d'
  end.

(** [s if s is not None else None] for an optional string *)
Definition of_opt_str (o : option string) : pyval :=
  match o with Some s => VStr s | None => VNone end.

(** [isinstance(v, (dict, list))] *)
Definition is_nested (v : pyval) : bool :=
  match v with VList _ | VDict _ => true | _ => false end.

(** The two exception classes the handlers tell apart: the inner handler
    of the enrichment block names [json.JSONDecodeError], every other
    handler takes [Exception]. *)
Inductive exn_class : Type := JSONDecodeError | OtherException.

Record exn : Type := Exn { exn_cls : exn_class; exn_msg : string }.

Inductive res (A : Type) : Type :=
| Ok (a : A)
| Raise (e : exn).
Arguments Ok {A} a.
Arguments Raise {A} e.

(** Lines written by [print], by format and arguments. *)
Inductive line : Type :=
| LStarting (company : string)
| LCookie
| LCrawling (url : string)
| LCouldNotCrawl (url : string) (e : exn)
| LJsonParse (company : string) (e : exn)
| LLlmError (company : string) (e : exn)
| LError (company : string) (e : exn)
| LLlmSkipped
| LLlmFailed (e : exn).

(** Observable actions, in the order they happen. *)
Inductive io : Type :=
| IoNewPage
| IoGoto (url : string)
| IoClose
| IoPost (url : string)
| IoPrint (l : line)
| IoThread (input_path : string).

(** A computation over a state [S] that returns or raises. *)
Definition M (S A : Type) : Type := S -> S * res A.

Definition ret {S A} (a : A) : M S A := fun s => (s, Ok a).

Definition raise {S A} (e : exn) : M S A := fun s => (s, Raise e).

Definition bind {S A B} (m : M S A) (k : A -> M S B) : M S B :=
  fun s => match m s with
           | (s', Ok a) => k a s'
           | (s', Raise e) => (s', Raise e)
           end.

(** [try: m] with the outcome handed to the code after the handler. *)
Definition attempt {S A} (m : M S A) : M S (res A) :=
  fun s => match m s with (s', r) => (s', Ok r) end.

(** [try: m / finally: fin], for a [fin] that swallows its own errors. *)
Definition finally {S A} (m : M S A) (fin : M S unit) : M S A :=
  fun s => match m s with
           | (s', r) => match fin s' with (s'', _) => (s'', r) end
           end.

Definition get {S} : M S S := fun s => (s, Ok s).
Definition modify {S} (f : S -> S) : M S unit := fun s => (f s, Ok tt).

(** Runs a computation on a component of the state. *)
Definition zoom {S T A} (proj : T -> S) (upd : S -> T -> T) (m : M S A)
  : M T A :=
  fun t => match m (proj t) with (s', r) => (upd s' t, r) end.

Definition of_res {S A} (r : res A) : M S A := fun s => (s, r).

(** *** The job record and its event queue ([server.py])

    An event is the dict [{"type": .., "data": .., "ts": ..}]; the type
    is determined by the shape of the data, so one constructor per type
    carries the data.  The text of a step is kept by format and
    arguments. *)

Inductive status : Type := Idle | Running | Done | Failed.

Definition status_name (s : status) : string :=
  match s with
  | Idle => "idle" | Running => "running" | Done => "done" | Failed => "error"
  end.

Inductive step : Type :=
| StOpening (website : string)
| StDiscovering
| StCrawling (url : string)
| StError (message : string).

Inductive payload : Type :=
| EvStart (total : nat)
| EvCompanyStart (index total : nat) (company website : string)
| EvStep (company : string) (st : step)
| EvCompanyDone (index total : nat) (company : string)
                (result : gmap string pyval)
| EvDone (total : nat) (output_file : string)
| EvError (message : string).

Definition event_type (p : payload) : string :=
  match p with
  | EvStart _ => "start"
  | EvCompanyStart _ _ _ _ => "company_start"
  | EvStep _ _ => "step"
  | EvCompanyDone _ _ _ _ => "company_done"
  | EvDone _ _ => "done"
  | EvError _ => "error"
  end.

Record event : Type := Event { ev_data : payload; ev_ts : Z }.

Record job : Type := Job {
  j_id : option string;
  j_status : status;
  j_total : nat;
  j_current : nat;
  j_current_company : string;
  j_current_step : string;
  j_results : list (gmap string pyval);
  j_events : list event;
  j_error : option string
}.

(** The module-level [job] as the server starts. *)
Definition job_initial : job :=
  Job None Idle 0 0 "" "" [] [] None.

End Rt.

Notation "'let*' x := c 'in' k" := (Rt.bind c (fun x => k))
  (at level 10, x name, c at level 100, k at level 200, only parsing).
Notation "'let*' ' p := c 'in' k" :=
  (Rt.bind c (fun x => match x with p => k end))
  (at level 10, p pattern, c at level 100, k at level 200, only parsing).

(** ** The collaborators: browser, [urllib.parse], HTTP, JSON, files

    Each field stands for a call the program makes into a library or the
    outside world.  A call takes the world as it is and returns the world
    after it, with a value or an exception. *)

Module Env.

Import Rt.

Record chat_request : Type := ChatRequest {
  rq_url : string;
  rq_authorization : string;
  rq_model : string;
  rq_system : string;
  rq_user : string;
  rq_temperature : string
}.

Record response : Type := Response {
  raise_for_status : res unit;
  resp_json : res pyval
}.

(** A [pandas.DataFrame] as the program reads it: column labels and rows
    in index order, a row being a map from column label to cell text. *)
Record dataframe : Type := DataFrame {
  df_columns : list string;
  df_rows : list (gmap string string)
}.

Class Sig (World : Type) : Type := {
  (* playwright *)
  launch : World -> World * res unit;
  browser_close : World -> World * res unit;
  new_page : World -> World * res unit;
  page_goto : string -> World -> World * res unit;
  locator_count : string -> World -> World * res nat;
  locator_click_first : string -> World -> World * res unit;
  page_inner_text : World -> World * res string;
  links_count : World -> World * res nat;
  link_get_attribute : nat -> World -> World * res (option string);
  link_inner_text : nat -> World -> World * res string;
  page_close : World -> World * res unit;
  (* urllib.parse *)
  urljoin : string -> string -> res string;
  urlparse_netloc : string -> res string;
  (* httpx, json *)
  client_post : chat_request -> World -> World * res response;
  json_loads : string -> res pyval;
  json_dumps : pyval -> string;
  (* os, uuid, time, pandas, werkzeug *)
  groq_api_key : option string;
  groq_model_name : option string;
  user_prompt_template : string;
  uuid4_8 : World -> World * string;
  time_time : World -> World * Z;
  file_save : string -> World -> World * res unit;
  read_excel : string -> World -> World * res dataframe;
  read_csv : string -> World -> World * res dataframe;
  to_excel : list (gmap string pyval) -> World -> World * res unit
}.

(** The machine: the world, what has been observed so far, and the
    module-level [job] of the server. *)
Record sys (World : Type) : Type := Sys {
  world : World;
  trace : list io;
  job_state : Rt.job
}.
Arguments Sys {World} _ _ _.
Arguments world {World} _.
Arguments trace {World} _.
Arguments job_state {World} _.

Section Calls.
Context {World : Type} `{Sig World}.

(** Records an action. *)
Definition emit (a : io) : M (sys World) unit :=
  fun s => (Sys (world s) (trace s ++ [a]) (job_state s), Ok tt).

(** Calls a collaborator. *)
Definition call {A} (f : World -> World * res A) : M (sys World) A :=
  fun s => match f (world s) with (w', r) => (Sys w' (trace s) (job_state s), r) end.

Definition print (l : line) : M (sys World) unit := emit (IoPrint l).

Definition set_job (f : job -> job) : M (sys World) unit :=
  fun s => (Sys (world s) (trace s) (f (job_state s)), Ok tt).

Definition set_events (evs : list event) (j : job) : job :=
  Job (j_id j) (j_status j) (j_total j) (j_current j) (j_current_company j)
      (j_current_step j) (j_results j) evs (j_error j).

(** [push_event]: appends to [job["events"]], stamped with [time.time()]. *)
Definition push_event (p : payload) : M (sys World) unit :=
  fun s => match time_time (world s) with
           | (w', ts) =>
               (Sys w' (trace s)
                    (set_events (j_events (job_state s) ++ [Event p ts]) (job_state s)),
                Ok tt)
           end.

End Calls.

End Env.

(** ** [llm_utils.py]: the enrichment call *)

Module LlmUtils.

Import Rt Env.

Definition system_prompt : string :=
  "You are a senior business analyst, market intelligence expert, and " +:+
  "AI strategy consultant. You generate concise, structured company " +:+
  "intelligence reports from limited web data.".

Definition endpoint : string :=
  "https://api.groq.com/openai/v1/chat/completions".

Definition attribute_error : exn := Exn OtherException "AttributeError".
Definition index_error : exn := Exn OtherException "IndexError".
Definition type_error : exn := Exn OtherException "TypeError".
Definition key_error : exn := Exn OtherException "KeyError".

(** [v.get(key, default)]: only a dict has [get]. *)
Definition get_or (key : string) (dflt : pyval) (v : pyval) : res pyval :=
  match v with
  | VDict d => Ok (default dflt (dict_get key d))
  | _ => Raise attribute_error
  end.

(** [v[0]] on what [json] can produce.  A list gives its first item; an
    empty list, an empty string and a dict (whose keys are strings) raise;
    so do the scalars.  A non-empty string gives its first character. *)
Definition item0 (v : pyval) : res pyval :=
  match v with
  | VList (x :: _) => Ok x
  | VList [] => Raise index_error
  | VStr (String c _) => Ok (VStr (String c EmptyString))
  | VStr EmptyString => Raise index_error
  | VDict _ => Raise key_error
  | _ => Raise type_error
  end.

Definition res_bind {A B} (r : res A) (k : A -> res B) : res B :=
  match r with Ok a => k a | Raise e => Raise e end.

(** [data.get("choices", [{}])[0].get("message", {}).get("content", "")
      .strip()] *)
Definition content_of (data : pyval) : res string :=
  res_bind (get_or "choices" (VList [VDict []]) data) (fun choices =>
  res_bind (item0 choices) (fun first =>
  res_bind (get_or "message" (VDict []) first) (fun message =>
  res_bind (get_or "content" (VStr "") message) (fun content =>
  match content with
  | VStr s => Ok (Py.strip s)
  | _ => Raise attribute_error
  end)))).

Section Llm.
Context {World : Type} `{Sig World}.

(** The guard of the call: an unset or empty key or model name, or one
    that still holds the placeholder. *)
Definition unconfigured : bool :=
  match groq_api_key, groq_model_name with
  | Some key, Some model =>
      negb (Py.truthy key) || negb (Py.truthy model)
      || Py.contains "YOUR_GROQ" key || Py.contains "YOUR_GROQ" model
  | _, _ => true
  end.

Definition user_prompt (company_name company_website about_text : string)
  : string :=
  Py.replace "<<ABOUT_TEXT>>" about_text
    (Py.replace "<<COMPANY_WEBSITE>>" company_website
       (Py.replace "<<COMPANY_NAME>>" company_name user_prompt_template)).

Definition request (company_name company_website about_text : string)
  : chat_request :=
  ChatRequest endpoint
    ("Bearer " +:+ default "" groq_api_key)
    (default "" groq_model_name)
    system_prompt
    (user_prompt company_name company_website about_text)
    "0.2".

(** The body of the [try]: post, [raise_for_status], decode, pick the
    content. *)
Definition ask (company_name company_website about_text : string)
  : M (sys World) (option string) :=
  let* _ := emit (IoPost endpoint) in
  let* resp := call (client_post
                       (request company_name company_website about_text)) in
  let* _ := of_res (raise_for_status resp) in
  let* data := of_res (resp_json resp) in
  let* content := of_res (content_of data) in
  ret (if Py.truthy content then Some content else None).

Definition preprocess_about_with_llm
    (company_name company_website about_text : string)
  : M (sys World) (option string) :=
  if unconfigured then
    let* _ := print LLlmSkipped in ret None
  else
    let* r := attempt (ask company_name company_website about_text) in
    match r with
    | Ok content => ret content
    | Raise e => let* _ := print (LLlmFailed e) in ret None
    end.

End Llm.

End LlmUtils.

(** ** The per-company crawl

    [scrape_company] of [app.py] and [scrape_company_async] of
    [server.py] are the same function line for line, except for what
    they report and where ([print] against [push_event]), the way the
    score is summed, the keys of the result row, and the enrichment
    block that only [app.py] has.  These differences are the fields of a
    [style]; [Crawl.scrape] is the common text. *)

Module Crawl.

Import Rt Env.

(** [IMPORTANT_KEYWORDS] and [COOKIE_KEYWORDS], identical in both files *)
Definition IMPORTANT_KEYWORDS : list string :=
  ["about"; "company"; "corporate"; "group";
   "leadership"; "management"; "investor";
   "who"; "overview"; "profile"].

Definition COOKIE_KEYWORDS : list string := ["accept"; "agree"; "allow all"].

(** *** Scoring *)

(** [app.py]: the loop [for keyword in IMPORTANT_KEYWORDS] over a running
    [score]. *)
Fixpoint score_loop (keywords : list string) (link_text full_url : string)
         (score : nat) : nat :=
  match keywords with
  | [] => score
  | keyword :: rest =>
      let score := if Py.contains keyword link_text then score + 2 else score in
      let score :=
        if Py.contains keyword (Py.lower full_url) then score + 3 else score in
      score_loop rest link_text full_url score
  end.

Definition score_app (keywords : list string) (link_text full_url : string)
  : nat :=
  score_loop keywords link_text full_url 0.

(** [server.py]: [sum(2 * (kw in link_text) + 3 * (kw in full_url.lower())
    for kw in IMPORTANT_KEYWORDS)], a [bool] counting as 0 or 1. *)
Definition score_server (keywords : list string) (link_text full_url : string)
  : nat :=
  sum_list
    ((fun kw => 2 * Nat.b2n (Py.contains kw link_text)
                + 3 * Nat.b2n (Py.contains kw (Py.lower full_url)))
       <$> keywords).

(** [sorted(candidate_links, key=lambda x: x[1], reverse=True)]: a stable
    sort, also with [reverse=True]; here by insertion, an element going
    in front of the first one whose score is not greater. *)
Fixpoint insert_desc (x : string * nat) (l : list (string * nat))
  : list (string * nat) :=
  match l with
  | [] => [x]
  | y :: l' => if x.2 <? y.2 then y :: insert_desc x l' else x :: l
  end.

Fixpoint sorted_desc (l : list (string * nat)) : list (string * nat) :=
  match l with
  | [] => []
  | x :: l' => insert_desc x (sorted_desc l')
  end.

(** *** What the two functions report *)

Inductive note : Type :=
| NPrint (l : line)
| NStep (company : string) (st : step)
| NSilent.

Record style : Type := Style {
  s_start : string -> note;
  s_opening : string -> string -> note;
  s_cookie : note;
  s_discovering : string -> note;
  s_crawling : string -> string -> note;
  s_crawl_failed : string -> exn -> note;
  s_error : string -> exn -> note;
  s_score : list string -> string -> string -> nat;
  s_initial : string -> string -> gmap string pyval;
  s_enrich : bool
}.

(** The nine keys of the enrichment report, in the order of the loop. *)
Definition ENRICH_KEYS : list string :=
  ["company_overview"; "business_model"; "products_services";
   "operational_footprint"; "ai_ml_opportunity_map"; "leadership";
   "strategic_developments"; "strategic_outlook"; "executive_brief"].

(** The locals of the function that outlive an exception: the page
    handle ([None] or open) and the [result] dict. *)
Record frame (World : Type) : Type := Frame {
  f_sys : sys World;
  f_page : bool;
  f_result : gmap string pyval
}.
Arguments Frame {World} _ _ _.
Arguments f_sys {World} _.
Arguments f_page {World} _.
Arguments f_result {World} _.

Section Scrape.
Context {World : Type} `{Sig World}.
Variable st : style.

Definition say (n : note) : M (sys World) unit :=
  match n with
  | NPrint l => print l
  | NStep company s => push_event (EvStep company s)
  | NSilent => ret tt
  end.

(** Cookie pop-ups: the first keyword with a match is clicked and ends
    the loop; an exception is passed over. *)
Fixpoint cookie_loop (keywords : list string) : M (sys World) unit :=
  match keywords with
  | [] => ret tt
  | keyword :: rest =>
      let* r := attempt
        (let* n := call (locator_count ("text=" +:+ keyword)) in
         if 0 <? n then
           let* _ := call (locator_click_first ("text=" +:+ keyword)) in
           let* _ := say (s_cookie st) in
           ret true
         else ret false) in
      match r with
      | Ok true => ret tt
      | _ => cookie_loop rest
      end
  end.

(** One anchor, once its [href] and text are read: [None] is [continue]. *)
Definition candidate (website domain : string)
           (href : option string) (inner_text : string)
  : res (option (string * nat)) :=
  let link_text := Py.strip (Py.lower inner_text) in
  match href with
  | None => Ok None
  | Some href =>
      if negb (Py.truthy href) then Ok None
      else
        LlmUtils.res_bind (urljoin website href) (fun full_url =>
        if negb (Py.contains domain full_url) then Ok None
        else
          let score := s_score st IMPORTANT_KEYWORDS link_text full_url in
          if 0 <? score then Ok (Some (full_url, score)) else Ok None)
  end.

Definition read_anchor (website domain : string) (i : nat)
  : M (sys World) (option (string * nat)) :=
  let* href := call (link_get_attribute i) in
  let* inner_text := call (link_inner_text i) in
  of_res (candidate website domain href inner_text).

(** [for i in range(link_count)] with its [try] / [except: continue] *)
Fixpoint discover (website domain : string) (indices : list nat)
         (candidate_links : list (string * nat))
  : M (sys World) (list (string * nat)) :=
  match indices with
  | [] => ret candidate_links
  | i :: rest =>
      let* r := attempt (read_anchor website domain i) in
      match r with
      | Ok (Some c) => discover website domain rest (candidate_links ++ [c])
      | _ => discover website domain rest candidate_links
      end
  end.

(** One sub-page: announce, navigate, read the text. *)
Definition visit (company_name url : string) : M (sys World) string :=
  let* _ := say (s_crawling st company_name url) in
  let* _ := emit (IoGoto url) in
  let* _ := call (page_goto url) in
  call page_inner_text.

(** [for url, _ in candidate_links[:3]], over the slice *)
Fixpoint traverse (company_name : string) (links : list (string * nat))
         (visited : gset string) (all_text : string)
  : M (sys World) (gset string * string) :=
  match links with
  | [] => ret (visited, all_text)
  | (url, _) :: rest =>
      if decide (url ∈ visited) then
        traverse company_name rest visited all_text
      else
        let visited := {[url]} ∪ visited in
        let* r := attempt (visit company_name url) in
        match r with
        | Ok sub_text =>
            traverse company_name rest visited (all_text +:+ " " +:+ sub_text)
        | Raise e =>
            let* _ := say (s_crawl_failed st url e) in
            traverse company_name rest visited all_text
        end
  end.

(** The traversal as the body runs it: the slice [candidate_links[:3]]
    against [visited = set()]. *)
Definition crawl_top3 (company_name : string)
           (candidate_links : list (string * nat)) (all_text : string)
  : M (sys World) (gset string * string) :=
  traverse company_name (take 3 candidate_links) ∅ all_text.

(** The state of the function body. *)
Definition sysM {A} (m : M (sys World) A) : M (frame World) A :=
  zoom f_sys (fun s f => Frame s (f_page f) (f_result f)) m.

Definition set_page (b : bool) : M (frame World) unit :=
  modify (fun f => Frame (f_sys f) b (f_result f)).

(** [result[key] = v] *)
Definition set_result (key : string) (v : pyval) : M (frame World) unit :=
  modify (fun f => Frame (f_sys f) (f_page f) (<[key := v]> (f_result f))).

(** One key of the report: absent or null gives [None], a dict or list
    is dumped to a string, anything else is stored as it is. *)
Definition report_value (value : option pyval) : pyval :=
  match value with
  | None | Some VNone => VNone
  | Some v => if is_nested v then VStr (json_dumps v) else v
  end.

Fixpoint store_report (parsed : list (string * pyval)) (keys : list string)
  : M (frame World) unit :=
  match keys with
  | [] => ret tt
  | key :: rest =>
      let* _ := set_result key (report_value (dict_get key parsed)) in
      store_report parsed rest
  end.

(** An argument of the prompt: [x or ""] and then [str.replace], which
    takes a [str] only. *)
Definition prompt_arg (v : option pyval) : res string :=
  match v with
  | Some (VStr s) => Ok s
  | Some VNone => Ok EmptyString
  | Some _ => Raise LlmUtils.type_error
  | None => Raise LlmUtils.key_error
  end.

(** [json.loads] under the inner handler, which takes
    [json.JSONDecodeError] only and leaves [parsed = None]. *)
Definition parse_report (company_name raw_json : string)
  : M (frame World) pyval :=
  let* r := attempt (of_res (json_loads raw_json)) in
  match r with
  | Ok parsed => ret parsed
  | Raise e =>
      match exn_cls e with
      | JSONDecodeError =>
          let* _ := sysM (print (LJsonParse company_name e)) in ret VNone
      | OtherException => raise e
      end
  end.

Definition enrich_body (company_name : string) : M (frame World) unit :=
  let* f := get in
  let* website := of_res (prompt_arg (f_result f !! "Website")) in
  let* about := of_res (prompt_arg (f_result f !! "About Us")) in
  let* raw_json :=
    sysM (LlmUtils.preprocess_about_with_llm company_name website about) in
  match raw_json with
  | None => ret tt
  | Some raw_json =>
      if Py.truthy raw_json then
        let* parsed := parse_report company_name raw_json in
        match parsed with
        | VDict d => store_report d ENRICH_KEYS
        | _ => ret tt
        end
      else ret tt
  end.

(** The enrichment block with its [except Exception] handler. *)
Definition enrich (company_name : string) : M (frame World) unit :=
  let* r := attempt (enrich_body company_name) in
  match r with
  | Ok _ => ret tt
  | Raise e => sysM (print (LLlmError company_name e))
  end.

(** The body of the outer [try], first part: open a page, load the
    home page, pass the cookie pop-up, read the text of the body. *)
Definition open_home (company_name website : string)
  : M (frame World) string :=
  let* _ := sysM (emit IoNewPage) in
  let* _ := sysM (call new_page) in
  let* _ := set_page true in
  let* _ := sysM (say (s_opening st company_name website)) in
  let* _ := sysM (emit (IoGoto website)) in
  let* _ := sysM (call (page_goto website)) in
  let* _ := sysM (cookie_loop COOKIE_KEYWORDS) in
  sysM (call page_inner_text).

(** Second part: the anchors of the home page, scored and sorted. *)
Definition rank_links (company_name website : string)
  : M (frame World) (list (string * nat)) :=
  let* _ := sysM (say (s_discovering st company_name)) in
  let* domain := of_res (urlparse_netloc website) in
  let* link_count := sysM (call links_count) in
  let* candidate_links :=
    sysM (discover website domain (seq 0 link_count) []) in
  ret (sorted_desc candidate_links).

(** Third part: the extractors on the cleaned text. *)
Definition extract_facts (all_text : string) : M (frame World) unit :=
  let all_text := Py.collapse_ws all_text in
  let* _ := set_result "Founded Info"
              (of_opt_str (Extract.extract_founded all_text)) in
  let* _ := set_result "About Us"
              (of_opt_str
                 (Extract.extract_sentence_near_keyword all_text "about us")) in
  set_result "Email" (of_opt_str (Extract.extract_email all_text)).

Definition body (company_name website : string) : M (frame World) unit :=
  let* all_text := open_home company_name website in
  let* candidate_links := rank_links company_name website in
  let* '(_, all_text) :=
    sysM (crawl_top3 company_name candidate_links all_text) in
  let* _ := extract_facts all_text in
  if s_enrich st then enrich company_name else ret tt.

(** The [finally] clause: close the page if there is one, whatever
    closing does. *)
Definition close_page : M (frame World) unit :=
  let* f := get in
  if f_page f then
    let* _ := attempt (sysM (let* _ := emit IoClose in call page_close)) in
    ret tt
  else ret tt.

(** [try: body / except Exception as e: report / finally: close]. *)
Definition guarded (company_name website : string) : M (frame World) unit :=
  finally
    (let* r := attempt (body company_name website) in
     match r with
     | Ok _ => ret tt
     | Raise e => sysM (say (s_error st company_name e))
     end)
    close_page.

Definition scrape (company_name website : string)
  : M (sys World) (gmap string pyval) :=
  let* _ := say (s_start st company_name) in
  fun s =>
    match (let* _ := guarded company_name website in
           let* f := get in
           ret (f_result f))
            (Frame s false (s_initial st company_name website)) with
    | (f, r) => (f_sys f, r)
    end.

End Scrape.

End Crawl.

(** ** [app.py] *)

Module App.

Import Rt Env Crawl.

Definition OUTPUT_COLUMNS : list string :=
  ["Company Name"; "Website"; "Founded Info"; "About Us";
   "company_overview"; "business_model"; "products_services";
   "operational_footprint"; "ai_ml_opportunity_map"; "leadership";
   "strategic_developments"; "strategic_outlook"; "executive_brief";
   "Email"].

(** The [result] dict as the function creates it. *)
Definition initial_result (company_name website : string)
  : gmap string pyval :=
  list_to_map
    [("Company Name", VStr company_name); ("Website", VStr website);
     ("Founded Info", VNone); ("About Us", VNone);
     ("company_overview", VNone); ("business_model", VNone);
     ("products_services", VNone); ("operational_footprint", VNone);
     ("ai_ml_opportunity_map", VNone); ("leadership", VNone);
     ("strategic_developments", VNone); ("strategic_outlook", VNone);
     ("executive_brief", VNone); ("Email", VNone)].

Definition style : Crawl.style := {|
  s_start := fun company => NPrint (LStarting company);
  s_opening := fun _ _ => NSilent;
  s_cookie := NPrint LCookie;
  s_discovering := fun _ => NSilent;
  s_crawling := fun _ url => NPrint (LCrawling url);
  s_crawl_failed := fun url e => NPrint (LCouldNotCrawl url e);
  s_error := fun company e => NPrint (LError company e);
  s_score := score_app;
  s_initial := initial_result;
  s_enrich := true
|}.

Definition scrape_company {World : Type} `{Sig World}
           (company_name website : string)
  : M (sys World) (gmap string pyval) :=
  Crawl.scrape style company_name website.

End App.

(** ** [server.py] *)

Module Server.

Import Rt Env Crawl.

Definition UPLOAD_FOLDER : string := "uploads".
Definition OUTPUT_FILE : string := "output.xlsx".

(** The [result] dict of [scrape_company_async]: five keys. *)
Definition initial_result (company_name website : string)
  : gmap string pyval :=
  list_to_map
    [("Company Name", VStr company_name); ("Website", VStr website);
     ("Founded Info", VNone); ("About Us", VNone); ("Email", VNone)].

Definition style : Crawl.style := {|
  s_start := fun _ => NSilent;
  s_opening := fun company website => NStep company (StOpening website);
  s_cookie := NSilent;
  s_discovering := fun company => NStep company StDiscovering;
  s_crawling := fun company url => NStep company (StCrawling url);
  s_crawl_failed := fun _ _ => NSilent;
  s_error := fun company e => NStep company (StError (exn_msg e));
  s_score := score_server;
  s_initial := initial_result;
  s_enrich := false
|}.

(** Replies of the upload route, by status code and message. *)
Inductive reply : Type :=
| Conflict                              (* 409, a job is already running *)
| NoFile                                (* 400 *)
| BadExtension                          (* 400 *)
| MissingColumns (found : list string)  (* 400 *)
| Unreadable (e : exn)                  (* 400 *)
| Started (job_id : string).            (* 200 *)

Definition status_code (r : reply) : nat :=
  match r with
  | Conflict => 409
  | Started _ => 200
  | _ => 400
  end.

Definition set_status (st : status) (j : job) : job :=
  Job (j_id j) st (j_total j) (j_current j) (j_current_company j)
      (j_current_step j) (j_results j) (j_events j) (j_error j).

Definition set_error (e : option string) (j : job) : job :=
  Job (j_id j) (j_status j) (j_total j) (j_current j) (j_current_company j)
      (j_current_step j) (j_results j) (j_events j) e.

Definition set_total (n : nat) (j : job) : job :=
  Job (j_id j) (j_status j) n (j_current j) (j_current_company j)
      (j_current_step j) (j_results j) (j_events j) (j_error j).

Definition set_results (rs : list (gmap string pyval)) (j : job) : job :=
  Job (j_id j) (j_status j) (j_total j) (j_current j) (j_current_company j)
      (j_current_step j) rs (j_events j) (j_error j).

Definition set_current (n : nat) (company : string) (j : job) : job :=
  Job (j_id j) (j_status j) (j_total j) n company
      (j_current_step j) (j_results j) (j_events j) (j_error j).

Section Server.
Context {World : Type} `{Sig World}.

Definition scrape_company_async (company_name website : string)
  : M (sys World) (gmap string pyval) :=
  Crawl.scrape style company_name website.

(** [row[column]]: a missing column is a [KeyError]. *)
Definition cell (row : gmap string string) (column : string) : res string :=
  match row !! column with
  | Some v => Ok v
  | None => Raise LlmUtils.key_error
  end.

(** The body of [for idx, row in df.iterrows()], for the row at position
    [idx] of a frame with the default index. *)
Definition run_row (total idx : nat) (row : gmap string string)
  : M (sys World) unit :=
  let* company_name := of_res (cell row "company_name") in
  let* website := of_res (cell row "website") in
  let* _ := set_job (set_current (idx + 1) company_name) in
  let* _ := push_event (EvCompanyStart (idx + 1) total company_name website) in
  let* result := App.scrape_company company_name website in
  let* _ := set_job (fun j => set_results (j_results j ++ [result]) j) in
  let* s := get in
  let* _ := attempt (call (to_excel (j_results (job_state s)))) in
  push_event (EvCompanyDone (idx + 1) total company_name result).

Fixpoint run_rows (total idx : nat) (rows : list (gmap string string))
  : M (sys World) unit :=
  match rows with
  | [] => ret tt
  | row :: rest =>
      let* _ := run_row total idx row in
      run_rows total (S idx) rest
  end.

Definition run_scraper_async (input_file : string) : M (sys World) unit :=
  let* df := call (read_excel input_file) in
  let total := length (df_rows df) in
  let* _ := set_job (set_total total) in
  let* _ := set_job (set_results []) in
  let* _ := push_event (EvStart total) in
  let* _ := call launch in
  let* _ := run_rows total 0 (df_rows df) in
  let* _ := call browser_close in
  let* _ := push_event (EvDone total OUTPUT_FILE) in
  set_job (set_status Done).

Definition run_scraper_thread (input_file : string) : M (sys World) unit :=
  let* r := attempt (run_scraper_async input_file) in
  match r with
  | Ok _ => ret tt
  | Raise e =>
      let* _ := set_job (set_status Failed) in
      let* _ := set_job (set_error (Some (exn_msg e))) in
      push_event (EvError (exn_msg e))
  end.

(** [f.filename.endswith((".xlsx", ".xls", ".csv"))] *)
Definition allowed_name (filename : string) : bool :=
  Py.endswith ".xlsx" filename || Py.endswith ".xls" filename
  || Py.endswith ".csv" filename.

(** [required.issubset(set(df.columns))] *)
Definition has_required (columns : list string) : bool :=
  bool_decide ("company_name" ∈ columns) && bool_decide ("website" ∈ columns).

(** The [/upload] route.  [file] is [request.files.get("file")] by its
    file name.  An exception that leaves this function is answered by
    Flask with status 500. *)
Definition upload (file : option string) : M (sys World) reply :=
  let* s := get in
  match j_status (job_state s) with
  | Running => ret Conflict
  | _ =>
      match file with
      | None => ret NoFile
      | Some filename =>
          if negb (allowed_name filename) then ret BadExtension
          else
            let* job_id := call (fun w => let (w', u) := uuid4_8 w in
                                          (w', Ok u)) in
            let input_path :=
              UPLOAD_FOLDER +:+ "/" +:+ job_id +:+ "_" +:+ filename in
            let* _ := call (file_save input_path) in
            let* r := attempt
              (if Py.endswith ".csv" input_path
               then call (read_csv input_path)
               else call (read_excel input_path)) in
            match r with
            | Raise e => ret (Unreadable e)
            | Ok df =>
                if negb (has_required (df_columns df))
                then ret (MissingColumns (df_columns df))
                else
                  let* _ := set_job (fun _ =>
                    Job (Some job_id) Running 0 0 "" "" [] [] None) in
                  let* _ := emit (IoThread input_path) in
                  ret (Started job_id)
            end
      end
  end.

(** [status] and [results]: read-only views of the job. *)
Definition status_view (s : sys World)
  : status * nat * nat * string * option string :=
  let j := job_state s in
  (j_status j, j_total j, j_current j, j_current_company j, j_error j).

Definition results_view (s : sys World) : list (gmap string pyval) :=
  j_results (job_state s).

End Server.

End Server.

(** ** A model of [urllib.parse]

    [urlsplit] and [urljoin] after CPython's [Lib/urllib/parse.py], for
    URLs as they occur in [href] attributes.  Left out: the stripping of
    control characters and of tab and newline, the split of [;parameters]
    from the last path segment, and the checks on bracketed hosts beyond
    the pairing of the brackets.  The crawl itself is stated against the
    interface ([Env.Sig]); this model is used where a concrete run is
    evaluated. *)

Module UrlLib.

Import Rt.

Definition value_error : exn := Exn OtherException "ValueError".

Definition uses_relative : list string :=
  [""; "ftp"; "http"; "gopher"; "nntp"; "imap"; "wais"; "file"; "https";
   "shttp"; "mms"; "prospero"; "rtsp"; "rtspu"; "sftp"; "svn"; "svn+ssh";
   "ws"; "wss"].

Definition uses_netloc : list string :=
  [""; "ftp"; "http"; "gopher"; "nntp"; "telnet"; "imap"; "wais"; "file";
   "mms"; "https"; "shttp"; "snews"; "prospero"; "rtsp"; "rtspu"; "rsync";
   "svn"; "svn+ssh"; "sftp"; "nfs"; "git"; "git+ssh"; "ws"; "wss"].

Definition is_alpha (c : ascii) : bool :=
  Py.between 97 122 c || Py.between 65 90 c.

Definition is_scheme_char (c : ascii) : bool :=
  is_alpha c || Py.between 48 57 c || Extract.one_of "+-." c.

(** The longest prefix without a character of [p], and what follows. *)
Fixpoint break (p : ascii -> bool) (s : string) : string * string :=
  match s with
  | EmptyString => (EmptyString, EmptyString)
  | String c s' =>
      if p c then (EmptyString, s)
      else let (a, b) := break p s' in (String c a, b)
  end.

(** [s.split(c, 1)], as the part before the first [c] and the part after
    it; no [c], no second part. *)
Definition cut (c : ascii) (s : string) : string * string :=
  match break (Ascii.eqb c) s with
  | (a, String _ b) => (a, b)
  | (a, EmptyString) => (a, EmptyString)
  end.

Definition tail2 (s : string) : string :=
  match s with
  | String _ (String _ s') => s'
  | _ => EmptyString
  end.

Record parts : Type := Parts {
  scheme : string;
  netloc : string;
  path : string;
  query : string;
  fragment : string
}.

(** The scheme of [url], or [default], and the rest. *)
Definition split_scheme (default url : string) : string * string :=
  match break (Ascii.eqb ":") url with
  | (String c0 pre, String _ rest) =>
      if is_alpha c0 && Py.all_chars is_scheme_char (String c0 pre)
      then (Py.lower (String c0 pre), rest)
      else (default, url)
  | _ => (default, url)
  end.

Definition urlsplit (url default : string) : res parts :=
  let (scheme, url) := split_scheme default url in
  let (netloc, url) :=
    if Py.startswith "//" url
    then break (Extract.one_of "/?#") (tail2 url)
    else (EmptyString, url) in
  if xorb (Py.contains "[" netloc) (Py.contains "]" netloc)
  then Raise value_error
  else
    let (url, fragment) := cut "#" url in
    let (url, query) := cut "?" url in
    Ok (Parts scheme netloc url query fragment).

Definition urlunsplit (p : parts) : string :=
  let url := path p in
  let url :=
    if Py.truthy (netloc p)
       || (Py.truthy (scheme p) && bool_decide (scheme p ∈ uses_netloc)
           && negb (Py.startswith "//" url))
    then
      let url :=
        if Py.truthy url && negb (Py.startswith "/" url)
        then "/" +:+ url else url in
      "//" +:+ netloc p +:+ url
    else url in
  let url := if Py.truthy (scheme p) then scheme p +:+ ":" +:+ url else url in
  let url := if Py.truthy (query p) then url +:+ "?" +:+ query p else url in
  if Py.truthy (fragment p) then url +:+ "#" +:+ fragment p else url.

(** [s.split("/")] *)
Fixpoint split_slash (s : string) : list string :=
  match s with
  | EmptyString => [EmptyString]
  | String c s' =>
      match split_slash s' with
      | seg :: segs =>
          if Ascii.eqb c "/" then EmptyString :: seg :: segs
          else String c seg :: segs
      | [] => [String c EmptyString]
      end
  end.

(** ["/".join(segs)] *)
Fixpoint join_slash (segs : list string) : string :=
  match segs with
  | [] => EmptyString
  | [seg] => seg
  | seg :: rest => seg +:+ "/" +:+ join_slash rest
  end.

(** All but the last element. *)
Definition init {A} (l : list A) : list A := take (length l - 1) l.

(** [segments[1:-1] = filter(None, segments[1:-1])] *)
Definition drop_empty_inner (segs : list string) : list string :=
  match segs with
  | first :: (_ :: _) as rest =>
      first :: filter (fun s => Py.truthy s = true) (init rest)
            ++ option_list (last rest)
  | _ => segs
  end.

(** The loop over the segments that resolves [.] and [..]. *)
Fixpoint resolve (segs resolved : list string) : list string :=
  match segs with
  | [] => resolved
  | seg :: rest =>
      if String.eqb seg ".." then resolve rest (init resolved)
      else if String.eqb seg "." then resolve rest resolved
      else resolve rest (resolved ++ [seg])
  end.

Definition urljoin (base url : string) : res string :=
  if negb (Py.truthy base) then Ok url
  else if negb (Py.truthy url) then Ok base
  else
    LlmUtils.res_bind (urlsplit base EmptyString) (fun b =>
    LlmUtils.res_bind (urlsplit url (scheme b)) (fun u =>
    if negb (String.eqb (scheme u) (scheme b))
       || negb (bool_decide (scheme u ∈ uses_relative))
    then Ok url
    else if bool_decide (scheme u ∈ uses_netloc) && Py.truthy (netloc u)
    then Ok (urlunsplit u)
    else
      let nl := if bool_decide (scheme u ∈ uses_netloc)
                then netloc b else netloc u in
      if negb (Py.truthy (path u)) then
        Ok (urlunsplit
              (Parts (scheme u) nl (path b)
                     (if Py.truthy (query u) then query u else query b)
                     (fragment u)))
      else
        let base_parts := split_slash (path b) in
        let base_parts :=
          if bool_decide (last base_parts = Some EmptyString)
          then base_parts else init base_parts in
        let segments :=
          if Py.startswith "/" (path u) then split_slash (path u)
          else drop_empty_inner (base_parts ++ split_slash (path u)) in
        let resolved := resolve segments [] in
        let resolved :=
          if bool_decide (last segments = Some "." \/ last segments = Some "..")
          then resolved ++ [EmptyString] else resolved in
        let joined := join_slash resolved in
        Ok (urlunsplit
              (Parts (scheme u) nl
                     (if Py.truthy joined then joined else "/")
                     (query u) (fragment u))))).

(** [urlparse(url).netloc] *)
Definition urlparse_netloc (url : string) : res string :=
  LlmUtils.res_bind (urlsplit url EmptyString) (fun p => Ok (netloc p)).

End UrlLib.

(** ** A scripted world

    A concrete instance of the interface, for runs that are evaluated: a
    site is a table from URL to page, a page has a body text and
    anchors, and any read can be scripted to fail. *)

Module Script.

Import Rt Env.

Definition timeout : exn := Exn OtherException "Timeout 90000ms exceeded".
Definition detached : exn := Exn OtherException "Element is not attached".
Definition decode_error : exn := Exn JSONDecodeError "Expecting value".

Record anchor : Type := Anchor {
  a_href : res (option string);
  a_text : res string
}.

Record page : Type := Page {
  p_text : res string;
  p_anchors : res (list anchor)
}.

Record script : Type := Script {
  sc_new_page : res unit;
  sc_site : list (string * page);
  sc_key : option string;
  sc_model : option string;
  sc_reply : res response;
  sc_loads : string -> res pyval;
  sc_table : res dataframe
}.

Record world : Type := World {
  w_page : option page;
  w_clock : Z;
  w_posts : nat
}.

Definition start : world := World None 0 0.

Fixpoint lookup_page (url : string) (site : list (string * page))
  : option page :=
  match site with
  | [] => None
  | (u, p) :: site' => if String.eqb u url then Some p else lookup_page url site'
  end.

Definition goto (sc : script) (url : string) (w : world) : world * res unit :=
  match lookup_page url (sc_site sc) with
  | Some p => (World (Some p) (w_clock w) (w_posts w), Ok tt)
  | None => (w, Raise timeout)
  end.

Definition on_page {A} (f : page -> res A) (w : world) : world * res A :=
  match w_page w with
  | Some p => (w, f p)
  | None => (w, Raise detached)
  end.

Definition nth_anchor {A} (i : nat) (f : anchor -> res A) (p : page) : res A :=
  match p_anchors p with
  | Ok l => match l !! i with Some a => f a | None => Raise detached end
  | Raise e => Raise e
  end.

Definition quote : string := String (ascii_of_nat 34) EmptyString.

(** A plain serializer for the report values of a scripted run. *)
Fixpoint dumps (v : pyval) : string :=
  match v with
  | VNone => "null"
  | VBool true => "true"
  | VBool false => "false"
  | VInt z => if (z =? 0)%Z then "0" else "int"
  | VFloat r => r
  | VStr s => quote +:+ s +:+ quote
  | VList l =>
      "[" +:+ (fix go (l : list pyval) : string :=
                 match l with
                 | [] => EmptyString
                 | [x] => dumps x
                 | x :: r => dumps x +:+ ", " +:+ go r
                 end) l +:+ "]"
  | VDict d =>
      "{" +:+ (fix go (d : list (string * pyval)) : string :=
                 match d with
                 | [] => EmptyString
                 | [(k, x)] => quote +:+ k +:+ quote +:+ ": " +:+ dumps x
                 | (k, x) :: r =>
                     quote +:+ k +:+ quote +:+ ": " +:+ dumps x +:+ ", " +:+ go r
                 end) d +:+ "}"
  end.

#[export] Instance sig (sc : script) : Sig world := {|
  launch := fun w => (w, Ok tt);
  browser_close := fun w => (w, Ok tt);
  new_page := fun w => (w, sc_new_page sc);
  page_goto := goto sc;
  locator_count := fun _ w => (w, Ok 0);
  locator_click_first := fun _ w => (w, Ok tt);
  page_inner_text := on_page p_text;
  links_count := on_page (fun p => match p_anchors p with
                                   | Ok l => Ok (length l)
                                   | Raise e => Raise e
                                   end);
  link_get_attribute := fun i => on_page (nth_anchor i a_href);
  link_inner_text := fun i => on_page (nth_anchor i a_text);
  page_close := fun w => (w, Ok tt);
  urljoin := UrlLib.urljoin;
  urlparse_netloc := UrlLib.urlparse_netloc;
  client_post := fun _ w =>
    (World (w_page w) (w_clock w) (S (w_posts w)), sc_reply sc);
  json_loads := sc_loads sc;
  json_dumps := dumps;
  groq_api_key := sc_key sc;
  groq_model_name := sc_model sc;
  user_prompt_template := "Company Name: <<COMPANY_NAME>>";
  uuid4_8 := fun w => (w, "1b9d6bcd");
  time_time := fun w => (World (w_page w) (w_clock w + 1) (w_posts w), w_clock w);
  file_save := fun _ w => (w, Ok tt);
  read_excel := fun _ w => (w, sc_table sc);
  read_csv := fun _ w => (w, sc_table sc);
  to_excel := fun _ w => (w, Ok tt)
|}.

Definition boot (w : world) : sys world := Sys w [] job_initial.

(** A home page with one anchor per pair (href, text), every read
    succeeding. *)
Definition home (text : string) (links : list (string * string)) : page :=
  Page (Ok text)
       (Ok ((fun l => Anchor (Ok (Some l.1)) (Ok l.2)) <$> links)).

Definition leaf (text : string) : page := Page (Ok text) (Ok []).

Definition plain (site : list (string * page)) : script :=
  Script (Ok tt) site None None (Raise timeout)
         (fun _ => Raise decode_error)
         (Ok (DataFrame [] [])).

End Script.

(** ** Vocabulary of the statements *)

Module Spec.

Import Rt Env Crawl.

(** The two crawls of the repository. *)
Definition known (st : style) : Prop := st = App.style \/ st = Server.style.

(** The number of keywords that occur in a text. *)
Definition keyword_hits (keywords : list string) (text : string) : nat :=
  length (filter (fun kw => Py.contains kw text = true) keywords).


(** The score the crawl computes for an anchor from its visible text
    and its resolved URL, over any keyword list. *)
Definition computed_score (st : style) (keywords : list string)
           (visible_text url : string) : nat :=
  s_score st keywords (Py.strip (Py.lower visible_text)) url.

(** [a] occurs inside [b]: [b] extends [a] by text on either side. *)
Definition extends (b a : string) : Prop :=
  exists pre post, b = pre +:+ a +:+ post.

(** The navigations of a trace, in order. *)
Definition gotos (t : list io) : list string :=
  omap (fun a => match a with IoGoto u => Some u | _ => None end) t.

(** The network calls of a trace. *)
Definition posts (t : list io) : list string :=
  omap (fun a => match a with IoPost u => Some u | _ => None end) t.

(** The URLs of a list in order, without those already visited and
    without repetition. *)
Fixpoint fresh (urls : list string) (visited : gset string) : list string :=
  match urls with
  | [] => []
  | u :: rest =>
      if decide (u ∈ visited) then fresh rest visited
      else u :: fresh rest ({[u]} ∪ visited)
  end.

(** What a note adds to the trace. *)
Definition note_trace (n : note) : list io :=
  match n with NPrint l => [IoPrint l] | _ => [] end.

(** The outcome of every visit the traversal attempts, in order: the URL
    with the text read or the exception raised.  The visits run against
    the machine as the traversal leaves it from one to the next. *)
Fixpoint outcomes {World : Type} `{Sig World} (st : style)
         (company_name : string) (links : list (string * nat))
         (visited : gset string) (s : sys World)
  : list (string * res string) :=
  match links with
  | [] => []
  | (url, _) :: rest =>
      if decide (url ∈ visited) then outcomes st company_name rest visited s
      else
        match visit st company_name url s with
        | (s1, Ok t) =>
            (url, Ok t)
              :: outcomes st company_name rest ({[url]} ∪ visited) s1
        | (s1, Raise e) =>
            (url, Raise e)
              :: outcomes st company_name rest ({[url]} ∪ visited)
                   (say (s_crawl_failed st url e) s1).1
        end
  end.

(** The texts of the visits that returned. *)
Definition successes (outs : list (string * res string)) : list string :=
  omap (fun o => match o.2 with Ok t => Some t | Raise _ => None end) outs.

(** [all_text += " " + sub_text], for each text in turn. *)
Fixpoint joined (texts : list string) : string :=
  match texts with
  | [] => EmptyString
  | t :: rest => " " +:+ t +:+ joined rest
  end.

(** The trace only gains actions that satisfy [P]. *)
Definition adds_only {World : Type} (P : io -> Prop) (s s' : sys World)
  : Prop :=
  exists new, trace s' = trace s ++ new /\ Forall P new.

Definition is_goto (a : io) : Prop := exists u, a = IoGoto u.
Definition is_post (a : io) : Prop := exists u, a = IoPost u.

(** The trace gains no navigation. *)
Definition not_goto (a : io) : Prop := ~ is_goto a.

Definition quiet {World : Type} : sys World -> sys World -> Prop :=
  adds_only not_goto.

(** The navigations between two machines are exactly [l]. *)
Definition navs {World : Type} (l : list string) (s s' : sys World) : Prop :=
  exists new, trace s' = trace s ++ new /\ gotos new = l.

(** One company: no navigation, or the home page and then the distinct
    URLs among the top three of some candidate list. *)
Definition shape {World : Type} (website : string) (s s' : sys World) : Prop :=
  navs [] s s'
  \/ exists cands : list (string * nat),
       navs (website :: fresh (take 3 cands).*1 ∅) s s'.

(** The job is left as it is. *)
Definition same_job {World : Type} (s s' : sys World) : Prop :=
  job_state s' = job_state s.

(** Trace and event queue are only appended to. *)
Definition grows {World : Type} (s s' : sys World) : Prop :=
  trace s `prefix_of` trace s'
  /\ j_events (job_state s) `prefix_of` j_events (job_state s').

(** A relation between frames that looks at the machine only. *)
Definition on_sys {World : Type} (I : sys World -> sys World -> Prop)
           (f f' : frame World) : Prop :=
  I (f_sys f) (f_sys f').

(** The row and the page handle are left as they are. *)
Definition same_row {World : Type} (f f' : frame World) : Prop :=
  f_result f' = f_result f.

(** The identity fields of the row are left as they are. *)
Definition keeps_identity {World : Type} (f f' : frame World) : Prop :=
  f_result f' !! "Company Name" = f_result f !! "Company Name"
  /\ f_result f' !! "Website" = f_result f !! "Website".

Definition not_identity (key : string) : Prop :=
  key <> "Company Name" /\ key <> "Website".

(** The keys the function assigns after the row is created. *)
Definition written_keys : list string :=
  ["Founded Info"; "About Us"; "Email"] ++ ENRICH_KEYS.

(** Any two machines. *)
Definition any_sys {World : Type} (s s' : sys World) : Prop := True.

(** The notes a style can produce all satisfy [ok]. *)
Record uses_only (st : style) (ok : note -> Prop) : Prop := UsesOnly {
  uo_start : forall c, ok (s_start st c);
  uo_opening : forall c w, ok (s_opening st c w);
  uo_cookie : ok (s_cookie st);
  uo_discovering : forall c, ok (s_discovering st c);
  uo_crawling : forall c u, ok (s_crawling st c u);
  uo_crawl_failed : forall u e, ok (s_crawl_failed st u e);
  uo_error : forall c e, ok (s_error st c e)
}.

(** A note that does not touch the job. *)
Definition silent_note (n : note) : Prop :=
  match n with NStep _ _ => False | _ => True end.

(** The navigations of one company: none, or the home page followed by
    at most three sub-pages, no two the same. *)
Definition nav_shape (website : string) (navs : list string) : Prop :=
  navs = []
  \/ exists subs, navs = website :: subs /\ length subs <= 3 /\ NoDup subs.

(** Descending by score. *)
Definition by_score_desc (a b : string * nat) : Prop := b.2 <= a.2.


(** [s.split()]: the maximal runs of non-whitespace characters.  A
    character that is not whitespace opens a word or joins the word that
    starts right after it. *)
Definition starts_word (s : string) : bool :=
  match s with
  | EmptyString => false
  | String c _ => negb (Py.isspace c)
  end.

Definition push_char (c : ascii) (joins : bool) (ws : list string)
  : list string :=
  match joins, ws with
  | true, w :: rest => String c w :: rest
  | _, _ => String c EmptyString :: ws
  end.

Fixpoint words (s : string) : list string :=
  match s with
  | EmptyString => []
  | String c s' =>
      if Py.isspace c then words s'
      else push_char c (starts_word s') (words s')
  end.

(** A note has been made: its line is in the trace, or its step event
    is in the queue. *)
Definition noted {World : Type} (n : note) (s : sys World) : Prop :=
  match n with
  | NPrint l => IoPrint l ∈ trace s
  | NStep company p =>
      exists ts, Event (EvStep company p) ts ∈ j_events (job_state s)
  | NSilent => True
  end.

(** A result row that belongs to a row of the input table. *)
Definition row_done (row : gmap string string) (r : gmap string pyval)
  : Prop :=
  exists name website,
    row !! "company_name" = Some name /\ row !! "website" = Some website
    /\ r !! "Company Name" = Some (VStr name)
    /\ r !! "Website" = Some (VStr website).

(** The null row of a style: identity set, everything else [None]. *)
Definition null_row (r : gmap string pyval) (company_name website : string)
  : Prop :=
  r !! "Company Name" = Some (VStr company_name)
  /\ r !! "Website" = Some (VStr website)
  /\ forall key, key <> "Company Name" -> key <> "Website" ->
       r !! key = Some VNone \/ r !! key = None.

(** Writing the report of a dict into a row, key by key. *)
Definition stored {World : Type} `{Sig World}
           (d : list (string * pyval)) (r : gmap string pyval)
  : gmap string pyval :=
  foldl (fun r key => <[key := report_value (dict_get key d)]> r) r ENRICH_KEYS.

End Spec.

(** ** Inputs of the evaluated runs *)

Module Demo.

Import Rt Env Script.

Definition acme : string := "https://acme.test".

(** A site where nothing can be reached. *)
Definition nowhere : script := plain [].

Definition idle : sys world := boot start.

Definition busy : sys world :=
  Sys start [] (Server.set_status Running job_initial).

(** An anchor to another host that names the target's host in its query
    string. *)
Definition foreign : string := "https://evil.example/about?ref=acme.test".

Definition lure : script := plain [(acme, home "Acme" [(foreign, "About")])].

(** Four candidates, the first of them twice. *)
Definition repeated : list (string * nat) :=
  [("https://acme.test/about", 8); ("https://acme.test/about", 5);
   ("https://acme.test/team", 3); ("https://acme.test/who", 2)].

(** Three candidates over a site that lacks the second. *)
Definition ranked : list (string * nat) :=
  [("https://acme.test/about", 8); ("https://acme.test/company", 5);
   ("https://acme.test/team", 3)].

Definition gap : script :=
  plain [("https://acme.test/about", leaf "We build rockets.");
         ("https://acme.test/team", leaf "Our leadership")].

(** An uploaded table with the required columns and the given rows. *)
Definition table (rows : list (gmap string string)) : script :=
  Script (Ok tt) [] None None (Raise timeout)
         (fun _ => Raise decode_error)
         (Ok (DataFrame ["company_name"; "website"] rows)).

Definition acme_row : gmap string string :=
  {[ "company_name" := "Acme"; "website" := acme ]}.

(** The machine after the run over the table with the one row. *)
Definition after_run : sys world :=
  (Server.run_scraper_thread (H := sig (table [acme_row]))
     "uploads/1b9d6bcd_leads.xlsx" idle).1.

(** A frame in the middle of a crawl. *)
Definition midway : Crawl.frame world :=
  Crawl.Frame idle true (App.initial_result "Acme" acme).

(** A configured service that answers with a report of three keys. *)
Definition report : pyval :=
  VDict [("company_overview", VDict [("summary", VStr "Rockets")]);
         ("executive_brief", VStr "Acme builds rockets.");
         ("leadership", VNone)].

Definition answer : pyval :=
  VDict [("choices",
          VList [VDict [("message",
                         VDict [("content", VStr " {report} ")])]])].

Definition enriched : script :=
  Script (Ok tt) [(acme, leaf "Acme. About us: rockets.")]
         (Some "gsk_key") (Some "llama")
         (Ok (Response (Ok tt) (Ok answer)))
         (fun raw => if String.eqb raw "{report}" then Ok report
                     else Raise decode_error)
         (Ok (DataFrame [] [])).

End Demo.

(** ** Vocabulary for what the extractors return *)

Module Shape.

Import Extract.






(** The character classes of the e-mail pattern. *)
Definition local_char (c : ascii) : bool := alnum c || one_of "._%+-" c.
Definition domain_char (c : ascii) : bool := alnum c || one_of ".-" c.
Definition letter (c : ascii) : bool :=
  Py.between 97 122 c || Py.between 65 90 c.

(** [local@domain.tld] with the three parts non-empty. *)
Definition email_text (m : string) : Prop :=
  exists l d t,
    m = l +:+ "@" +:+ d +:+ "." +:+ t
    /\ l <> "" /\ d <> "" /\ t <> ""
    /\ Py.all_chars local_char l = true
    /\ Py.all_chars domain_char d = true
    /\ Py.all_chars letter t = true.

(** [keyword] occurs in [text] when case is ignored. *)
Definition mentions (keyword text : string) : bool :=
  Py.contains (Py.lower keyword) (Py.lower text).




(** No two whitespace characters in a row, and every one a space. *)
Definition starts_blank (s : string) : bool :=
  match s with
  | EmptyString => false
  | String c _ => Py.isspace c
  end.

Fixpoint single_spaced (s : string) : bool :=
  match s with
  | EmptyString => true
  | String c s' =>
      (if Py.isspace c then Ascii.eqb c " " && negb (starts_blank s') else true)
      && single_spaced s'
  end.

(** The sentence stored under [About Us]: no full stop, the keyword in
    it, no whitespace but single spaces. *)
Definition about_text (r : string) : Prop :=
  Py.all_chars not_dot r = true
  /\ mentions "about us" r = true
  /\ single_spaced r = true.


End Shape.

(** ** Vocabulary for the effects of one crawl *)

Module Life.

Import Rt Env Crawl.

(** Neither the opening nor the closing of a page. *)
Definition no_page_event (a : io) : Prop :=
  match a with IoNewPage | IoClose => False | _ => True end.

(** What is done to the page: opening, navigating, closing. *)
Definition page_action (a : io) : Prop :=
  match a with IoNewPage | IoGoto _ | IoClose => True | _ => False end.

(** Not a request to the enrichment service. *)
Definition not_post (a : io) : Prop :=
  match a with IoPost _ => False | _ => True end.

(** No request, or one request to the endpoint of the service. *)
Definition one_request (new : list io) : Prop :=
  Spec.posts new = [] \/ Spec.posts new = [LlmUtils.endpoint].

(** A note that is not printed. *)
Definition unprinted (n : note) : Prop :=
  match n with NPrint _ => False | _ => True end.

(** An event of type [step]. *)
Definition is_step (ev : event) : Prop :=
  exists company st, ev_data ev = EvStep company st.

(** The trace gains page actions only: nothing is printed, nothing is
    requested; and the job changes by step events appended to its
    queue, if at all. *)
Definition steps_only {World : Type} (s s' : sys World) : Prop :=
  Spec.adds_only page_action s s'
  /\ exists evs,
       job_state s' = set_events (j_events (job_state s) ++ evs) (job_state s)
       /\ Forall is_step evs.

(** The trace and the job are left as they are. *)
Definition unseen {World : Type} (s s' : sys World) : Prop :=
  trace s' = trace s /\ job_state s' = job_state s.

(** A row with the keys [D] keeps them, no more and no less. *)
Definition keeps_columns {World : Type} (D : gset string)
           (f f' : frame World) : Prop :=
  dom (f_result f) = D -> dom (f_result f') = D.

(** The page handle is left as it is. *)
Definition same_page {World : Type} (f f' : frame World) : Prop :=
  f_page f' = f_page f.

(** A relation on machines, for a frame whose page handle and row are
    left as they are. *)
Definition framed {World : Type} (I : sys World -> sys World -> Prop)
           (f f' : frame World) : Prop :=
  I (f_sys f) (f_sys f') /\ f_page f' = f_page f
  /\ f_result f' = f_result f.

(** A candidate that passed the filter of the discovery loop. *)
Definition accepted (domain : string) (c : string * nat) : Prop :=
  Py.contains domain c.1 = true /\ 0 < c.2.

(** What the [finally] clause adds to the trace. *)
Definition closing (opened : bool) : list io :=
  if opened then [IoClose] else [].

Definition returned {A} (r : res A) : bool :=
  match r with Ok _ => true | Raise _ => false end.

End Life.

(** ** The worker and the progress stream of [server.py] *)

Module Flow.

Import Rt Env.

(** [job["status"] in ("done", "error")] *)
Definition finished (st : status) : bool :=
  match st with Done | Failed => true | _ => false end.

(** Every row has the two cells the worker reads. *)
Definition readable (rows : list (gmap string string)) : Prop :=
  Forall (fun row => is_Some (row !! "company_name")
                     /\ is_Some (row !! "website")) rows.

(** The data of the events of the rows of a run, given the result of
    each: a [company_start] and a [company_done] per row, numbered from
    [idx + 1]. *)
Fixpoint row_events (total idx : nat) (rows : list (gmap string string))
         (results : list (gmap string pyval)) : list payload :=
  match rows, results with
  | row :: rows', r :: results' =>
      EvCompanyStart (idx + 1) total (default "" (row !! "company_name"))
                     (default "" (row !! "website"))
      :: EvCompanyDone (idx + 1) total (default "" (row !! "company_name")) r
      :: row_events total (S idx) rows' results'
  | _, _ => []
  end.

(** The data of the events of a whole run. *)
Definition run_events (rows : list (gmap string string))
           (results : list (gmap string pyval)) : list payload :=
  EvStart (length rows)
  :: row_events (length rows) 0 rows results
  ++ [EvDone (length rows) Server.OUTPUT_FILE].

(** The fields of the job that a run does not assign before it ends. *)
Definition same_owner (j j' : job) : Prop :=
  j_id j' = j_id j /\ j_current_step j' = j_current_step j
  /\ j_error j' = j_error j.

(** The fields of the job that the rows of a run do not assign. *)
Definition same_header (j j' : job) : Prop :=
  j_status j' = j_status j /\ j_total j' = j_total j
  /\ same_owner j j'.

(** What a run may do to the machine before it ends: append to the
    trace and to the queue, and leave the owner fields alone. *)
Definition advances {World : Type} (s s' : sys World) : Prop :=
  Spec.grows s s' /\ same_owner (job_state s) (job_state s').

(** The total of the job is left as it is. *)
Definition same_total {World : Type} (s s' : sys World) : Prop :=
  j_total (job_state s') = j_total (job_state s).

(** The job after a failed run. *)
Definition failed_job (j : job) (message : string) (ts : Z) : job :=
  set_events (j_events j ++ [Event (EvError message) ts])
    (Server.set_error (Some message) (Server.set_status Failed j)).

End Flow.

(** *** The generator of the [/progress] route

    The generator runs beside the worker, so what it reads of the job
    can change between two reads.  A pass of its loop reads the job
    three times: the queue when it takes the slice, the status and the
    length of the queue when it tests for the end.  The generator is
    given the passes it gets to make; a frame is the type and the data
    of an event, which is what is serialized. *)

Module Progress.

Import Rt Env.

Record pass : Type := Pass {
  at_slice : job;
  at_status : job;
  at_length : job
}.

(** One pass: the frames, the new [last_idx], and whether the loop
    breaks. *)
Definition one_pass (last_idx : nat) (p : pass) : list payload * nat * bool :=
  let current_events := j_events (at_slice p) in
  let new_events := drop last_idx current_events in
  let last_idx := last_idx + length new_events in
  (ev_data <$> new_events, last_idx,
   Flow.finished (j_status (at_status p))
   && (length (j_events (at_length p)) <=? last_idx)).

(** The frames yielded over the given passes, and whether the generator
    has returned. *)
Fixpoint generate (last_idx : nat) (passes : list pass)
  : list payload * bool :=
  match passes with
  | [] => ([], false)
  | p :: rest =>
      match one_pass last_idx p with
      | (frames, _, true) => (frames, true)
      | (frames, last_idx, false) =>
          match generate last_idx rest with
          | (more, stopped) => (frames ++ more, stopped)
          end
      end
  end.

(** The queues a pass reads, in the order it reads them. *)
Definition views (p : pass) : list (list event) :=
  [j_events (at_slice p); j_events (at_length p)].

(** The queues the generator reads over its passes. *)
Definition reads (passes : list pass) : list (list event) :=
  concat (views <$> passes).

(** Each queue extends the one before. *)
Fixpoint chain (queues : list (list event)) : Prop :=
  match queues with
  | a :: (b :: _) as rest => a `prefix_of` b /\ chain rest
  | _ => True
  end.

(** The queue at the last slice, [before] if there was none. *)
Definition last_slice (before : list event) (passes : list pass)
  : list event :=
  match last passes with
  | Some p => j_events (at_slice p)
  | None => before
  end.

(** A pass that reads the same job three times. *)
Definition still (j : job) : pass := Pass j j j.

End Progress.

(** ** Texts for the evaluated extractions *)

Module DemoText.

Definition contact : string := "Write to sales@acme.test. Thanks".
Definition no_address : string := "Call us on 555 0100".

End DemoText.

(** ** A home page with five anchors *)

Module DemoSite.

Import Rt Env Script.

Definition portal : page :=
  home "Acme"
       [("/about", "About us"); ("/contact", "Contact");
        ("/company/leadership", "Leadership"); ("/investor", "Investors");
        ("/who-we-are", "Who we are"); ("/team", "Management")].

(** A crawl that has the home page open. *)
Definition at_portal : Crawl.frame world :=
  Crawl.Frame (Sys (World (Some portal) 0 0) [] job_initial) true
              (App.initial_result "Acme" Demo.acme).


(** Its candidates, as the discovery ranks them. *)
Definition ranking : list (string * nat) :=
  [("https://acme.test/company/leadership", 8);
   ("https://acme.test/about", 5); ("https://acme.test/investor", 5);
   ("https://acme.test/who-we-are", 5); ("https://acme.test/team", 2)].

End DemoSite.

(** ** A job seen twice by a progress stream *)

Module DemoFlow.

Import Rt Env.

Definition started : event := Event (EvStart 0) 10.
Definition ended : event := Event (EvDone 0 Server.OUTPUT_FILE) 11.

(** The job while it runs and after it is done. *)
Definition early : job :=
  Job (Some "1b9d6bcd") Running 0 0 "" "" [] [started] None.

Definition late : job :=
  Job (Some "1b9d6bcd") Done 0 0 "" "" [] [started; ended] None.

Definition two_passes : list Progress.pass :=
  [Progress.still early; Progress.still late].

(** An upload that cannot be read as a workbook. *)
Definition not_a_workbook : exn :=
  Exn OtherException "Excel file format cannot be determined".

Definition broken : Script.script :=
  Script.Script (Ok tt) [] None None (Raise Script.timeout)
                (fun _ => Raise Script.decode_error)
                (Raise not_a_workbook).

End DemoFlow.

(** ** [main] of [app.py]

    The command-line run prints its own lines around the crawls.  They
    are kept by format and arguments, in a list of their own beside the
    machine. *)

Module Main.

Import Rt Env.

Inductive banner : Type :=
| BStarting
| BRuleAfterBlank
| BRule
| BProcessing (index total : nat)
| BSaved (company : string)
| BTotalRows (n : nat)
| BColumns (columns : list string)
| BSaveError (e : exn)
| BTraceback
| BCompleted
| BFinal.

Definition INPUT_FILE : string := "companies.xlsx".

Record run (World : Type) : Type := Run {
  r_sys : sys World;
  r_out : list banner
}.
Arguments Run {World} _ _.
Arguments r_sys {World} _.
Arguments r_out {World} _.

(** What is printed once a workbook has been written, or has not. *)
Definition saved_banners (company : string) (rows_saved : nat)
           (outcome : res unit) : list banner :=
  match outcome with
  | Ok _ => [BSaved company; BTotalRows rows_saved; BColumns App.OUTPUT_COLUMNS]
  | Raise e => [BSaveError e; BTraceback]
  end.

Section Main.
Context {World : Type} `{Sig World}.

Definition sysR {A} (m : M (sys World) A) : M (run World) A :=
  zoom r_sys (fun s r => Run s (r_out r)) m.

Definition show (b : banner) : M (run World) unit :=
  modify (fun r => Run (r_sys r) (r_out r ++ [b])).

Fixpoint show_all (bs : list banner) : M (run World) unit :=
  match bs with
  | [] => ret tt
  | b :: rest => let* _ := show b in show_all rest
  end.

(** [row[column]]: a missing column is a [KeyError]. *)
Definition cell (row : gmap string string) (column : string) : res string :=
  match row !! column with
  | Some v => Ok v
  | None => Raise LlmUtils.key_error
  end.

(** The body of [for idx, row in df.iterrows()]; [results] is the list
    before the row and the value is the list after it. *)
Definition main_row (total idx : nat) (row : gmap string string)
           (results : list (gmap string pyval))
  : M (run World) (list (gmap string pyval)) :=
  let* _ := show_all [BRuleAfterBlank; BProcessing (idx + 1) total; BRule] in
  let* company_name := of_res (cell row "company_name") in
  let* website := of_res (cell row "website") in
  let* result := sysR (App.scrape_company company_name website) in
  let results := results ++ [result] in
  let* saved := attempt (sysR (call (to_excel results))) in
  let* _ := show_all (saved_banners company_name (length results) saved) in
  ret results.

Fixpoint main_rows (total idx : nat) (rows : list (gmap string string))
         (results : list (gmap string pyval))
  : M (run World) (list (gmap string pyval)) :=
  match rows with
  | [] => ret results
  | row :: rest =>
      let* results := main_row total idx row results in
      main_rows total (S idx) rest results
  end.

(** [launch] stands for entering [async_playwright()] and launching the
    browser, here with a window. *)
Definition main : M (run World) unit :=
  let* _ := show BStarting in
  let* df := sysR (call (read_excel INPUT_FILE)) in
  let* _ := sysR (call launch) in
  let* _ := main_rows (length (df_rows df)) 0 (df_rows df) [] in
  let* _ := sysR (call browser_close) in
  show_all [BCompleted; BFinal].

End Main.

(** The lines of the rows of a run, given the outcome of each save. *)
Fixpoint rows_banners (total idx : nat) (rows : list (gmap string string))
         (outcomes : list (res unit)) : list banner :=
  match rows, outcomes with
  | row :: rows', o :: outcomes' =>
      [BRuleAfterBlank; BProcessing (idx + 1) total; BRule]
      ++ saved_banners (default "" (row !! "company_name")) (idx + 1) o
      ++ rows_banners total (S idx) rows' outcomes'
  | _, _ => []
  end.

End Main.

(** ** A command-line run before its first line *)

Module DemoMain.

Definition fresh : Main.run Script.world := Main.Run Demo.idle [].

End DemoMain.

(** ** What the discovery loop meets, and what the service answers

    Two readings of the world that do not go through the crawl: the
    anchors of the page taken one after the other, and the answer of the
    enrichment service followed down to the report. *)

Module Found.

Import Rt Env Crawl.

Section Found.
Context {World : Type} `{Sig World}.



(** The text of the answer to one request at a given world: the post,
    the status check, the decoding and the path to the content, the
    first failure being the outcome. *)
Definition reply_text (name website about : string) (w : World)
  : res string :=
  match client_post (LlmUtils.request name website about) w with
  | (_, Ok resp) =>
      LlmUtils.res_bind (raise_for_status resp) (fun _ =>
      LlmUtils.res_bind (resp_json resp) LlmUtils.content_of)
  | (_, Raise e) => Raise e
  end.

(** The report that the enrichment block gets to store for a frame, if
    any: the service is configured, the two fields of the row can go
    into the prompt, the answer has a text, the text is not empty, and
    [json.loads] makes a dict of it. *)
Definition report_of (name : string) (f : frame World)
  : option (list (string * pyval)) :=
  if LlmUtils.unconfigured then None
  else
    match prompt_arg (f_result f !! "Website"),
          prompt_arg (f_result f !! "About Us") with
    | Ok website, Ok about =>
        match reply_text name website about (world (f_sys f)) with
        | Ok raw =>
            if Py.truthy raw then
              match json_loads raw with
              | Ok (VDict d) => Some d
              | _ => None
              end
            else None
        | Raise _ => None
        end
    | _, _ => None
    end.

End Found.

End Found.

(** * Proofs *)

(** ** Strings *)

Module PyFacts.

Import Py.

Lemma sapp_nil_l (s : string) : "" +:+ s = s.
Proof. reflexivity. Qed.

Lemma sapp_cons (c : ascii) (s t : string) :
  String c s +:+ t = String c (s +:+ t).
Proof. reflexivity. Qed.

Lemma sapp_nil_r (s : string) : s +:+ "" = s.
Proof. induction s as [|c s IH]; [done|]. by rewrite sapp_cons, IH. Qed.

Lemma sapp_assoc (a b c : string) : (a +:+ b) +:+ c = a +:+ b +:+ c.
Proof.
  induction a as [|x a IH]; [done|]. by rewrite !sapp_cons, IH.
Qed.

Lemma sapp_eq_nil (a b : string) : a +:+ b = "" -> a = "" /\ b = "".
Proof. destruct a; [by rewrite sapp_nil_l|by rewrite sapp_cons]. Qed.


Lemma lower_app (a b : string) : lower (a +:+ b) = lower a +:+ lower b.
Proof.
  induction a as [|x a IH]; [done|].
  rewrite sapp_cons. simpl. by rewrite IH, sapp_cons.
Qed.

(** *** Prefixes and occurrences *)

Lemma startswith_app (p s : string) : startswith p (p +:+ s) = true.
Proof.
  induction p as [|x p IH]; [by destruct s|].
  rewrite sapp_cons. simpl. by rewrite Ascii.eqb_refl, IH.
Qed.

Lemma startswith_spec (p s : string) :
  startswith p s = true <-> exists t, s = p +:+ t.
Proof.
  split.
  - revert s. induction p as [|x p IH]; intros s Hs.
    + by exists s.
    + destruct s as [|y s]; [done|]. simpl in Hs.
      apply andb_prop in Hs as [Hxy Hp].
      apply Ascii.eqb_eq in Hxy as ->.
      destruct (IH _ Hp) as [t ->]. by exists t.
  - intros [t ->]. apply startswith_app.
Qed.

Lemma contains_cons (kw : string) (c : ascii) (s : string) :
  contains kw (String c s) = startswith kw (String c s) || contains kw s.
Proof. reflexivity. Qed.

Lemma contains_spec (kw s : string) :
  contains kw s = true <-> exists a b, s = a +:+ kw +:+ b.
Proof.
  split.
  - induction s as [|c s IH].
    + simpl. rewrite orb_false_r. intros [t Ht]%startswith_spec.
      by exists "", t.
    + rewrite contains_cons. intros [Hp|Hc]%orb_prop.
      * apply startswith_spec in Hp as [t Ht]. by exists "", t.
      * destruct (IH Hc) as (a & b & ->). by exists (String c a), b.
  - intros (a & b & ->). induction a as [|c a IH].
    + rewrite sapp_nil_l.
      destruct (kw +:+ b) eqn:E; simpl; rewrite <- E, startswith_app; done.
    + rewrite sapp_cons, contains_cons, IH. apply orb_true_r.
Qed.

Lemma contains_extend (kw s pre post : string) :
  contains kw s = true -> contains kw (pre +:+ s +:+ post) = true.
Proof.
  rewrite !contains_spec. intros (a & b & ->).
  exists (pre +:+ a), (b +:+ post). by rewrite !sapp_assoc.
Qed.

(** *** [strip] *)

Lemma lstrip_suffix (s : string) : exists l, s = l +:+ lstrip s.
Proof.
  induction s as [|c s [l IH]]; [by exists ""|]. simpl.
  destruct (isspace c).
  - exists (String c l). by rewrite sapp_cons, <- IH.
  - by exists "".
Qed.

Lemma lstrip_app_keep (x b : string) :
  lstrip x <> "" -> lstrip (x +:+ b) = lstrip x +:+ b.
Proof.
  induction x as [|c x IH]; [done|]. rewrite sapp_cons. simpl.
  destruct (isspace c); [done|]. by rewrite sapp_cons.
Qed.

Lemma lstrip_app_prefix (p z : string) :
  exists p', lstrip (p +:+ z) = p' +:+ lstrip z.
Proof.
  induction p as [|c p [p' IH]]; [by exists ""|]. rewrite sapp_cons. simpl.
  destruct (isspace c); [by exists p'|].
  destruct (lstrip_suffix z) as [l Hl].
  exists (String c (p +:+ l)). by rewrite sapp_cons, sapp_assoc, <- Hl.
Qed.

Lemma rstrip_cons (c : ascii) (s : string) :
  rstrip s <> "" -> rstrip (String c s) = String c (rstrip s).
Proof. simpl. by destruct (rstrip s). Qed.

Lemma rstrip_app_keep (p z : string) :
  rstrip z <> "" -> rstrip (p +:+ z) = p +:+ rstrip z.
Proof.
  intros Hz. induction p as [|c p IH]; [done|].
  rewrite !sapp_cons, rstrip_cons; [by rewrite IH|].
  rewrite IH. by intros [_ ?]%sapp_eq_nil.
Qed.

Lemma rstrip_app_suffix (z b : string) :
  exists q, rstrip (z +:+ b) = rstrip z +:+ q.
Proof.
  induction z as [|c z [q IH]]; [by exists (rstrip b)|].
  rewrite sapp_cons. simpl. rewrite IH.
  destruct (rstrip z) as [|r0 r] eqn:Ez.
  - rewrite sapp_nil_l. destruct (isspace c).
    + by eexists.
    + destruct q; [by exists ""|]. by eexists.
  - rewrite sapp_cons. by exists q.
Qed.

(** The stripped text survives, in place, any extension of the text. *)
Lemma strip_extend (x pre post : string) :
  exists p q, strip (pre +:+ x +:+ post) = p +:+ strip x +:+ q.
Proof.
  destruct (decide (strip x = "")) as [E|NE].
  { rewrite E. exists (strip (pre +:+ x +:+ post)), "".
    by rewrite sapp_nil_l, sapp_nil_r. }
  assert (lstrip x <> "") as Hl.
  { intros E. apply NE. unfold strip. by rewrite E. }
  unfold strip in *.
  destruct (lstrip_app_prefix pre (x +:+ post)) as [p' ->].
  rewrite (lstrip_app_keep x post Hl).
  destruct (rstrip_app_suffix (lstrip x) post) as [q Hq].
  exists p', q. rewrite rstrip_app_keep; rewrite Hq; [done|].
  by intros [? _]%sapp_eq_nil.
Qed.

(** Keywords without whitespace: stripping the text changes nothing. *)





End PyFacts.

(** ** The link scorer *)

Module ScorerFacts.

Import Rt Env Crawl Spec PyFacts.

Lemma hits_cons (kw : string) (kws : list string) (text : string) :
  keyword_hits (kw :: kws) text
  = Nat.b2n (Py.contains kw text) + keyword_hits kws text.
Proof.
  unfold keyword_hits. rewrite filter_cons.
  destruct (Py.contains kw text); by case_decide.
Qed.

Lemma score_server_cons (kw : string) (kws : list string) (t u : string) :
  score_server (kw :: kws) t u
  = 2 * Nat.b2n (Py.contains kw t) + 3 * Nat.b2n (Py.contains kw (Py.lower u))
    + score_server kws t u.
Proof. reflexivity. Qed.

Lemma score_loop_acc (kws : list string) (t u : string) (acc : nat) :
  score_loop kws t u acc = acc + score_server kws t u.
Proof.
  revert acc. induction kws as [|kw kws IH]; intros acc.
  - simpl. unfold score_server. simpl. lia.
  - simpl score_loop. rewrite IH, score_server_cons.
    destruct (Py.contains kw t), (Py.contains kw (Py.lower u)); simpl; lia.
Qed.

(** The loop of [app.py] and the sum of [server.py] agree. *)
Lemma score_app_server (kws : list string) (t u : string) :
  score_app kws t u = score_server kws t u.
Proof. unfold score_app. by rewrite score_loop_acc. Qed.

Lemma score_server_hits (kws : list string) (t u : string) :
  score_server kws t u
  = 2 * keyword_hits kws t + 3 * keyword_hits kws (Py.lower u).
Proof.
  induction kws as [|kw kws IH]; [done|].
  rewrite score_server_cons, !hits_cons, IH. lia.
Qed.

Lemma known_score (st : style) (kws : list string) (t u : string) :
  known st -> s_score st kws t u = score_server kws t u.
Proof. intros [-> | ->]; simpl; [apply score_app_server|done]. Qed.




(** *** Monotonicity *)

Lemma contains_strip_lower_extend (kw text text' : string) :
  extends text' text ->
  Py.contains kw (Py.strip (Py.lower text)) = true ->
  Py.contains kw (Py.strip (Py.lower text')) = true.
Proof.
  intros (pre & post & ->) Hc. rewrite !lower_app.
  destruct (strip_extend (Py.lower text) (Py.lower pre) (Py.lower post))
    as (p & q & ->).
  by apply contains_extend.
Qed.

Lemma contains_lower_extend (kw url url' : string) :
  extends url' url ->
  Py.contains kw (Py.lower url) = true ->
  Py.contains kw (Py.lower url') = true.
Proof.
  intros (pre & post & ->) Hc. rewrite !lower_app. by apply contains_extend.
Qed.

Lemma b2n_mono (b b' : bool) :
  (b = true -> b' = true) -> Nat.b2n b <= Nat.b2n b'.
Proof. destruct b, b'; simpl; intros Hb; try lia. Qed.

Lemma score_server_mono (kws : list string) (text text' url url' : string) :
  extends text' text -> extends url' url ->
  score_server kws (Py.strip (Py.lower text)) url
  <= score_server kws (Py.strip (Py.lower text')) url'.
Proof.
  intros Ht Hu. induction kws as [|kw kws IH]; [done|].
  rewrite !score_server_cons.
  pose proof (b2n_mono _ _ (contains_strip_lower_extend kw _ _ Ht)).
  pose proof (b2n_mono _ _ (contains_lower_extend kw _ _ Hu)).
  lia.
Qed.

(** *** The stable descending sort *)

Lemma insert_desc_perm (x : string * nat) (l : list (string * nat)) :
  Permutation (insert_desc x l) (x :: l).
Proof.
  induction l as [|y l IH]; [done|]. simpl.
  destruct (x.2 <? y.2); [|done].
  rewrite IH. apply perm_swap.
Qed.

Lemma sorted_desc_perm (l : list (string * nat)) :
  Permutation (sorted_desc l) l.
Proof.
  induction l as [|x l IH]; [done|]. simpl.
  by rewrite insert_desc_perm, IH.
Qed.

Lemma insert_desc_sorted (x : string * nat) (l : list (string * nat)) :
  StronglySorted by_score_desc l ->
  StronglySorted by_score_desc (insert_desc x l).
Proof.
  induction 1 as [|y l Hl IH Hy]; simpl.
  - repeat constructor.
  - destruct (Nat.ltb_spec x.2 y.2) as [Hlt|Hge].
    + constructor; [done|].
      rewrite insert_desc_perm.
      constructor; [unfold by_score_desc; lia|done].
    + constructor; [by constructor|].
      constructor; [done|].
      eapply Forall_impl; [exact Hy|]. unfold by_score_desc. intros; simpl in *. lia.
Qed.

Lemma sorted_desc_sorted (l : list (string * nat)) :
  StronglySorted by_score_desc (sorted_desc l).
Proof.
  induction l as [|x l IH]; simpl; [constructor|].
  by apply insert_desc_sorted.
Qed.



End ScorerFacts.

(** ** Reasoning about computations

    Two notions carry most proofs: a computation [preserves] a relation
    between the state before and the state after, and a computation is
    [total] when it returns whatever the state. *)

Module RtFacts.

Import Rt.

Definition preserves {S A} (I : S -> S -> Prop) (m : M S A) : Prop :=
  forall s, I s (m s).1.

Definition total {S A} (m : M S A) : Prop :=
  forall s, exists a, (m s).2 = Ok a.

Lemma bind_inv {S A B} (m : M S A) (k : A -> M S B) s s' r :
  bind m k s = (s', r) ->
  (exists s1 a, m s = (s1, Ok a) /\ k a s1 = (s', r))
  \/ (exists e, m s = (s', Raise e) /\ r = Raise e).
Proof.
  unfold bind. destruct (m s) as [s1 [a|e]]; intros Hk.
  - left. by exists s1, a.
  - right. exists e. by inversion Hk.
Qed.

Lemma bind_ok {S A B} (m : M S A) (k : A -> M S B) s s1 a :
  m s = (s1, Ok a) -> bind m k s = k a s1.
Proof. unfold bind. by intros ->. Qed.

Lemma bind_raise {S A B} (m : M S A) (k : A -> M S B) s s1 e :
  m s = (s1, Raise e) -> bind m k s = (s1, Raise e).
Proof. unfold bind. by intros ->. Qed.

Lemma preserves_inv {S A} (I : S -> S -> Prop) (m : M S A) s s' r :
  preserves I m -> m s = (s', r) -> I s s'.
Proof. intros Hm E. specialize (Hm s). by rewrite E in Hm. Qed.

Lemma total_inv {S A} (m : M S A) s s' r :
  total m -> m s = (s', r) -> exists a, r = Ok a.
Proof. intros Hm E. destruct (Hm s) as [a Ha]. rewrite E in Ha. by exists a. Qed.

Section Preserves.
Context {S : Type} (I : S -> S -> Prop) `{!PreOrder I}.

Lemma preserves_ret {A} (a : A) : preserves I (ret a).
Proof. intros s. reflexivity. Qed.

Lemma preserves_raise {A} (e : exn) : preserves I (@raise S A e).
Proof. intros s. reflexivity. Qed.

Lemma preserves_of_res {A} (r : res A) : preserves I (of_res r).
Proof. intros s. reflexivity. Qed.

Lemma preserves_get : preserves I get.
Proof. intros s. reflexivity. Qed.

Lemma preserves_bind {A B} (m : M S A) (k : A -> M S B) :
  preserves I m -> (forall a, preserves I (k a)) -> preserves I (bind m k).
Proof.
  intros Hm Hk s. specialize (Hm s). unfold bind.
  destruct (m s) as [s1 [a|e]]; simpl in *; [|done].
  etrans; [exact Hm|apply Hk].
Qed.

Lemma preserves_attempt {A} (m : M S A) :
  preserves I m -> preserves I (attempt m).
Proof. intros Hm s. specialize (Hm s). unfold attempt. by destruct (m s). Qed.

Lemma preserves_finally {A} (m : M S A) (fin : M S unit) :
  preserves I m -> preserves I fin -> preserves I (finally m fin).
Proof.
  intros Hm Hf s. specialize (Hm s). unfold finally.
  destruct (m s) as [s1 r]. specialize (Hf s1).
  destruct (fin s1) as [s2 ?]. simpl in *. by etrans.
Qed.

End Preserves.

Lemma preserves_zoom {S T A} (I : S -> S -> Prop) (J : T -> T -> Prop)
      (proj : T -> S) (upd : S -> T -> T) (m : M S A) :
  (forall t s', I (proj t) s' -> J t (upd s' t)) ->
  preserves I m -> preserves J (zoom proj upd m).
Proof.
  intros HJ Hm t. specialize (Hm (proj t)). unfold zoom.
  destruct (m (proj t)) as [s' r]. by apply HJ.
Qed.

Lemma total_ret {S A} (a : A) : total (@ret S A a).
Proof. intros s. by exists a. Qed.

Lemma total_get {S} : total (@get S).
Proof. intros s. by exists s. Qed.

Lemma total_modify {S} (f : S -> S) : total (modify f).
Proof. intros s. by exists tt. Qed.

Lemma total_attempt {S A} (m : M S A) : total (attempt m).
Proof. intros s. unfold attempt. destruct (m s) as [s' r]. by exists r. Qed.

Lemma total_bind {S A B} (m : M S A) (k : A -> M S B) :
  total m -> (forall a, total (k a)) -> total (bind m k).
Proof.
  intros Hm Hk s. destruct (Hm s) as [a Ha]. unfold bind.
  destruct (m s) as [s1 r]. simpl in Ha. subst r. apply Hk.
Qed.

Lemma total_finally {S A} (m : M S A) (fin : M S unit) :
  total m -> total (finally m fin).
Proof.
  intros Hm s. destruct (Hm s) as [a Ha]. unfold finally.
  destruct (m s) as [s1 r]. destruct (fin s1). by exists a.
Qed.

Lemma total_zoom {S T A} (proj : T -> S) (upd : S -> T -> T) (m : M S A) :
  total m -> total (zoom proj upd m).
Proof.
  intros Hm t. destruct (Hm (proj t)) as [a Ha]. unfold zoom.
  destruct (m (proj t)). by exists a.
Qed.

End RtFacts.

(** ** The traversal *)

Module TraverseFacts.

Import Rt Env Crawl Spec PyFacts RtFacts.

Lemma gotos_app (a b : list io) : gotos (a ++ b) = gotos a ++ gotos b.
Proof. unfold gotos. apply omap_app. Qed.

Lemma gotos_note (n : note) : gotos (note_trace n) = [].
Proof. by destruct n. Qed.

(** *** [fresh] *)

Lemma fresh_length (urls : list string) (visited : gset string) :
  length (fresh urls visited) <= length urls.
Proof.
  revert visited. induction urls as [|u urls IH]; intros visited; [done|].
  simpl. case_decide; simpl; [specialize (IH visited)|
                              specialize (IH ({[u]} ∪ visited))]; lia.
Qed.

Lemma fresh_elem (urls : list string) (visited : gset string) (u : string) :
  u ∈ fresh urls visited -> u ∈ urls /\ u ∉ visited.
Proof.
  revert visited. induction urls as [|v urls IH]; intros visited; simpl.
  - by intros ?%elem_of_nil.
  - case_decide.
    + intros Hu. destruct (IH _ Hu). split; [by right|done].
    + intros Hu. apply elem_of_cons in Hu as [Hu|Hu].
      * subst. split; [by left|done].
      * pose proof (IH _ Hu) as [? Hn]. split; [by right|].
        intros ?. apply Hn, elem_of_union. by right.
Qed.

Lemma fresh_nodup (urls : list string) (visited : gset string) :
  NoDup (fresh urls visited).
Proof.
  revert visited. induction urls as [|v urls IH]; intros visited; simpl.
  - constructor.
  - case_decide; [done|]. constructor; [|done].
    intros [_ ?]%fresh_elem. set_solver.
Qed.

Lemma fresh_drop (urls : list string) (visited : gset string) (v : string) :
  v ∈ visited -> v ∈ urls -> length (fresh urls visited) < length urls.
Proof.
  revert visited. induction urls as [|w urls IH]; intros g Hg Hin.
  - by apply elem_of_nil in Hin.
  - simpl. apply elem_of_cons in Hin as [<-|Hin].
    + rewrite decide_True by done.
      pose proof (fresh_length urls g). lia.
    + case_decide; simpl.
      * specialize (IH g Hg Hin). lia.
      * assert (v ∈ {[w]} ∪ g) as Hg' by set_solver.
        specialize (IH _ Hg' Hin). lia.
Qed.

(** Nothing is lost only if nothing repeats. *)
Lemma fresh_full (urls : list string) (visited : gset string) :
  length (fresh urls visited) = length urls -> NoDup urls.
Proof.
  revert visited. induction urls as [|v urls IH]; intros visited; simpl.
  - constructor.
  - case_decide; simpl; intros Hlen.
    + pose proof (fresh_length urls visited). lia.
    + constructor; [|apply (IH ({[v]} ∪ visited)); lia].
      intros Hin.
      assert (v ∈ {[v]} ∪ visited) as Hv by set_solver.
      pose proof (fresh_drop urls _ v Hv Hin). lia.
Qed.

Lemma fresh_short (urls : list string) (visited : gset string) :
  ~ NoDup urls -> length (fresh urls visited) < length urls.
Proof.
  intros Hnd. pose proof (fresh_length urls visited) as Hle.
  destruct (decide (length (fresh urls visited) = length urls)) as [E|NE];
    [|lia].
  by apply fresh_full in E.
Qed.

(** *** What a visit and the loop leave in the trace *)

Section Traverse.
Context {World : Type} `{Sig World}.
Variable st : style.

Lemma say_run (n : note) (s : sys World) :
  (say n s).2 = Ok tt
  /\ trace (say n s).1 = trace s ++ note_trace n.
Proof.
  destruct n as [l|c p|]; simpl.
  - done.
  - unfold push_event. destruct (time_time (world s)). simpl.
    by rewrite app_nil_r.
  - by rewrite app_nil_r.
Qed.

Lemma say_eq (n : note) (s : sys World) : say n s = ((say n s).1, Ok tt).
Proof.
  destruct (say_run n s) as [E _]. destruct (say n s). simpl in *. by subst.
Qed.

Lemma visit_trace (company url : string) (s : sys World) :
  trace (visit st company url s).1
  = trace s ++ note_trace (s_crawling st company url) ++ [IoGoto url].
Proof.
  unfold visit.
  rewrite (bind_ok _ _ _ _ _ (say_eq _ s)).
  destruct (say_run (s_crawling st company url) s) as [_ Ht].
  set (s1 := (say (s_crawling st company url) s).1) in *.
  unfold bind, emit, call. simpl.
  destruct (page_goto url (world s1)) as [w2 [[]|e]]; simpl.
  - destruct (page_inner_text w2) as [w3 r]; simpl.
    by rewrite Ht, <- app_assoc.
  - by rewrite Ht, <- app_assoc.
Qed.

Lemma traverse_run (company : string) (links : list (string * nat))
      (visited : gset string) (text : string) (s : sys World) :
  exists s' visited' new,
    traverse st company links visited text s
    = (s', Ok (visited',
               text +:+ joined (successes (outcomes st company links visited s))))
    /\ trace s' = trace s ++ new
    /\ gotos new = fresh links.*1 visited
    /\ (outcomes st company links visited s).*1 = fresh links.*1 visited.
Proof.
  revert visited text s.
  induction links as [|[url sc] links IH]; intros visited text s.
  - exists s, visited, []. simpl. by rewrite !sapp_nil_r, app_nil_r.
  - simpl. case_decide as Hin.
    + apply IH.
    + unfold bind at 1. unfold attempt at 1.
      pose proof (visit_trace company url s) as Hv.
      destruct (visit st company url s) as [s1 [t|e]] eqn:Ev; simpl in Hv.
      * destruct (IH ({[url]} ∪ visited) (text +:+ " " +:+ t) s1)
          as (s' & v' & new & Ht & Htr & Hg & Ho).
        exists s', v', (note_trace (s_crawling st company url)
                          ++ [IoGoto url] ++ new).
        split; [|split; [|split]].
        -- rewrite Ht. unfold successes. simpl.
           by rewrite !sapp_assoc.
        -- rewrite Htr, Hv. by rewrite <- !app_assoc.
        -- rewrite !gotos_app, gotos_note, Hg. done.
        -- rewrite fmap_cons. simpl. f_equal. exact Ho.
      * rewrite (bind_ok _ _ _ _ _ (say_eq _ s1)).
        destruct (say_run (s_crawl_failed st url e) s1) as [_ Hs].
        set (s2 := (say (s_crawl_failed st url e) s1).1) in *.
        destruct (IH ({[url]} ∪ visited) text s2)
          as (s' & v' & new & Ht & Htr & Hg & Ho).
        exists s', v', (note_trace (s_crawling st company url)
                          ++ [IoGoto url]
                          ++ note_trace (s_crawl_failed st url e) ++ new).
        split; [|split; [|split]].
        -- rewrite Ht. done.
        -- rewrite Htr, Hs, Hv. by rewrite <- !app_assoc.
        -- rewrite !gotos_app, !gotos_note, Hg. done.
        -- rewrite fmap_cons. simpl. f_equal. exact Ho.
Qed.

End Traverse.

(** *** Words of the aggregate text *)

Lemma starts_word_collapse (s : string) :
  starts_word (Py.collapse_ws s) = starts_word s.
Proof.
  destruct s as [|c s]; [done|]. simpl.
  destruct (Py.isspace c) eqn:E; simpl; [done|by rewrite E].
Qed.

Lemma words_collapse (s : string) :
  words (Py.collapse_ws s) = words s /\ words (Py.collapse_ws_skip s) = words s.
Proof.
  induction s as [|c s [IH1 IH2]]; [done|]. simpl.
  destruct (Py.isspace c) eqn:E; simpl.
  - by rewrite IH2.
  - by rewrite E, starts_word_collapse, IH1.
Qed.

Lemma words_nonempty (s : string) : starts_word s = true -> words s <> [].
Proof.
  destruct s as [|c s]; [done|]. simpl. intros Hc.
  destruct (Py.isspace c); [done|].
  by destruct (starts_word s), (words s).
Qed.

Lemma starts_word_app_space (a b : string) :
  starts_word (a +:+ " " +:+ b) = starts_word a.
Proof. by destruct a. Qed.

Lemma words_app_space (a b : string) :
  words (a +:+ " " +:+ b) = words a ++ words b.
Proof.
  induction a as [|c a IH]; [done|]. rewrite sapp_cons. simpl.
  destruct (Py.isspace c); [done|].
  rewrite starts_word_app_space, IH.
  destruct (starts_word a) eqn:Ea; [|done].
  apply words_nonempty in Ea. by destruct (words a).
Qed.

Lemma words_joined (text : string) (texts : list string) :
  words (text +:+ joined texts) = words text ++ concat (words <$> texts).
Proof.
  revert text. induction texts as [|t texts IH]; intros text; simpl.
  - by rewrite sapp_nil_r, app_nil_r.
  - by rewrite words_app_space, IH.
Qed.

End TraverseFacts.

(** ** Invariants of the crawl *)

Module CrawlFacts.

Import Rt Env Crawl Spec RtFacts.

#[export] Instance adds_only_preorder {World : Type} (P : io -> Prop) :
  PreOrder (@adds_only World P).
Proof.
  split.
  - intros s. exists []. by rewrite app_nil_r.
  - intros s1 s2 s3 (n1 & E1 & F1) (n2 & E2 & F2). exists (n1 ++ n2).
    split; [by rewrite E2, E1, app_assoc|by apply Forall_app].
Qed.

#[export] Instance same_job_preorder {World : Type} :
  PreOrder (@same_job World).
Proof.
  split; [done|]. unfold same_job. intros s1 s2 s3 E1 E2. by rewrite E2.
Qed.

#[export] Instance grows_preorder {World : Type} : PreOrder (@grows World).
Proof.
  split; [done|]. intros s1 s2 s3 [? ?] [? ?]. split; by etrans.
Qed.

#[export] Instance on_sys_preorder {World : Type}
    (I : sys World -> sys World -> Prop) `{!PreOrder I} :
  PreOrder (on_sys I).
Proof.
  split; [intros f; unfold on_sys; reflexivity|].
  intros f1 f2 f3. unfold on_sys. apply transitivity.
Qed.

#[export] Instance same_row_preorder {World : Type} :
  PreOrder (@same_row World).
Proof.
  split; [done|]. unfold same_row. intros f1 f2 f3 E1 E2. by rewrite E2.
Qed.

(** A relation on machines that the crawl can be shown to preserve: it
    survives every call into the world, the notes in [okN] and the
    actions in [okA]. *)
Record closed {World : Type} `{Sig World}
       (I : sys World -> sys World -> Prop)
       (okN : note -> Prop) (okA : io -> Prop) : Prop := Closed {
  cl_pre : PreOrder I;
  cl_call : forall A (f : World -> World * res A), preserves I (call f);
  cl_say : forall n, okN n -> preserves I (say n);
  cl_emit : forall a, okA a -> preserves I (emit a)
}.

(** A relation on frames that follows a relation on machines and
    survives the assignments to the keys in [okK]. *)
Record lifted {World : Type} `{Sig World}
       (I : sys World -> sys World -> Prop)
       (J : frame World -> frame World -> Prop)
       (okK : string -> Prop) : Prop := Lifted {
  lf_pre : PreOrder J;
  lf_sys : forall A (m : M (sys World) A), preserves I m -> preserves J (sysM m);
  lf_page : forall b, preserves J (set_page b);
  lf_result : forall key v, okK key -> preserves J (set_result key v)
}.

Create HintDb pres discriminated.

Ltac pres_step :=
  first
    [ solve [auto 4 with pres nocore]
    | match goal with |- PreOrder _ => apply _ end
    | apply preserves_ret | apply preserves_raise | apply preserves_of_res
    | apply preserves_get
    | apply preserves_attempt
    | apply preserves_finally
    | apply preserves_bind; [..|intros ?]
    | match goal with
      | |- preserves _ (match ?x with _ => _ end) => destruct x
      | |- preserves _ (if ?x then _ else _) => destruct x
      end ].

Section Closed.
Context {World : Type} `{Sig World}.
Variable I : sys World -> sys World -> Prop.
Variables (okN : note -> Prop) (okA : io -> Prop).
Hypothesis HI : closed I okN okA.
Variable J : frame World -> frame World -> Prop.
Variable okK : string -> Prop.
Hypothesis HJ : lifted I J okK.
Hypothesis HK : forall key, key ∈ written_keys -> okK key.
Variable st : style.
Hypothesis Hst : uses_only st okN.

#[local] Instance closed_pre : PreOrder I := cl_pre _ _ _ HI.
#[local] Instance lifted_pre : PreOrder J := lf_pre _ _ _ HJ.

Lemma call_pres {A} (f : World -> World * res A) : preserves I (call f).
Proof. apply (cl_call _ _ _ HI). Qed.

Lemma emit_pres (a : io) : okA a -> preserves I (emit a).
Proof. apply (cl_emit _ _ _ HI). Qed.

Lemma print_pres (l : line) : okA (IoPrint l) -> preserves I (print l).
Proof. apply emit_pres. Qed.

Lemma say_pres (n : note) : okN n -> preserves I (say n).
Proof. apply (cl_say _ _ _ HI). Qed.

Lemma sysM_pres {A} (m : M (sys World) A) :
  preserves I m -> preserves J (sysM m).
Proof. apply (lf_sys _ _ _ HJ). Qed.

Lemma set_page_pres (b : bool) : preserves J (set_page b).
Proof. apply (lf_page _ _ _ HJ). Qed.

Lemma set_result_pres (key : string) (v : pyval) :
  key ∈ written_keys -> preserves J (set_result key v).
Proof. intros Hk. apply (lf_result _ _ _ HJ), HK, Hk. Qed.

Lemma ok_start c : okN (s_start st c).
Proof. apply Hst. Qed.
Lemma ok_opening c w : okN (s_opening st c w).
Proof. apply Hst. Qed.
Lemma ok_cookie : okN (s_cookie st).
Proof. apply Hst. Qed.
Lemma ok_discovering c : okN (s_discovering st c).
Proof. apply Hst. Qed.
Lemma ok_crawling c u : okN (s_crawling st c u).
Proof. apply Hst. Qed.
Lemma ok_crawl_failed u e : okN (s_crawl_failed st u e).
Proof. apply Hst. Qed.
Lemma ok_error c e : okN (s_error st c e).
Proof. apply Hst. Qed.

#[local] Hint Resolve call_pres emit_pres print_pres say_pres sysM_pres
  set_page_pres set_result_pres ok_start ok_opening ok_cookie ok_discovering
  ok_crawling ok_crawl_failed ok_error : pres.

Ltac pres := repeat pres_step.

Lemma cookie_loop_pres (kws : list string) : preserves I (cookie_loop st kws).
Proof. induction kws as [|kw kws IH]; simpl; pres. Qed.
#[local] Hint Resolve cookie_loop_pres : pres.

Lemma discover_pres (website domain : string) (idx : list nat)
      (acc : list (string * nat)) :
  preserves I (discover st website domain idx acc).
Proof.
  revert acc. induction idx as [|i idx IH]; intros acc; simpl;
    unfold read_anchor; pres.
Qed.
#[local] Hint Resolve discover_pres : pres.

Lemma rank_links_pres (company website : string) :
  preserves J (rank_links st company website).
Proof. unfold rank_links. pres. Qed.
#[local] Hint Resolve rank_links_pres : pres.

Lemma extract_facts_pres (text : string) :
  preserves J (@extract_facts World text).
Proof.
  unfold extract_facts.
  pres; apply set_result_pres;
    repeat first [apply list_elem_of_here | apply list_elem_of_further].
Qed.
#[local] Hint Resolve extract_facts_pres : pres.

Lemma store_report_pres (d : list (string * pyval)) (keys : list string) :
  keys ⊆ written_keys -> preserves J (@store_report World _ d keys).
Proof.
  induction keys as [|k keys IH]; intros Hk; simpl; pres.
  - apply set_result_pres, Hk. by left.
  - apply IH. intros x Hx. apply Hk. by right.
Qed.

Lemma store_enrich_pres (d : list (string * pyval)) :
  preserves J (@store_report World _ d ENRICH_KEYS).
Proof.
  apply store_report_pres. intros k Hk. unfold written_keys.
  apply elem_of_app. by right.
Qed.
#[local] Hint Resolve store_enrich_pres : pres.

Hypothesis Hprint : forall l, okA (IoPrint l).
Hypothesis Hpost : forall u, okA (IoPost u).
Hypothesis Hclose : okA IoClose.
#[local] Hint Resolve Hprint Hpost Hclose : pres.

Lemma preprocess_pres (name website about : string) :
  preserves I (LlmUtils.preprocess_about_with_llm name website about).
Proof. unfold LlmUtils.preprocess_about_with_llm, LlmUtils.ask. pres. Qed.
#[local] Hint Resolve preprocess_pres : pres.

Lemma enrich_pres (name : string) : preserves J (enrich name).
Proof.
  unfold enrich, enrich_body, parse_report. pres.
Qed.
#[local] Hint Resolve enrich_pres : pres.

Lemma finish_pres (name text : string) :
  preserves J
    (bind (extract_facts text)
          (fun _ => if s_enrich st then enrich name else ret tt)).
Proof. pres. Qed.

Lemma close_page_pres : preserves J close_page.
Proof. unfold close_page. pres. apply sysM_pres. pres. Qed.
#[local] Hint Resolve close_page_pres : pres.

(** With navigation among the allowed actions, the whole function. *)
Hypothesis Hgoto : forall u, okA (IoGoto u).
Hypothesis Hnew : okA IoNewPage.
#[local] Hint Resolve Hgoto Hnew : pres.

Lemma visit_pres (company url : string) : preserves I (visit st company url).
Proof. unfold visit. pres. Qed.
#[local] Hint Resolve visit_pres : pres.

Lemma traverse_pres (company : string) (links : list (string * nat))
      (visited : gset string) (text : string) :
  preserves I (traverse st company links visited text).
Proof.
  revert visited text. induction links as [|[url sc] links IH];
    intros visited text; simpl; pres.
Qed.
#[local] Hint Resolve traverse_pres : pres.

Lemma crawl_top3_pres (company : string) (links : list (string * nat))
      (text : string) :
  preserves I (crawl_top3 st company links text).
Proof. apply traverse_pres. Qed.
#[local] Hint Resolve crawl_top3_pres : pres.

Lemma open_home_pres (company website : string) :
  preserves J (open_home st company website).
Proof. unfold open_home. pres. Qed.
#[local] Hint Resolve open_home_pres : pres.

Lemma body_pres (company website : string) :
  preserves J (body st company website).
Proof.
  unfold body. pres.
Qed.
#[local] Hint Resolve body_pres : pres.

Lemma guarded_pres (company website : string) :
  preserves J (guarded st company website).
Proof. unfold guarded. pres. Qed.
#[local] Hint Resolve guarded_pres : pres.

Lemma scrape_pres (company website : string) :
  (forall f f', J f f' -> I (f_sys f) (f_sys f')) ->
  preserves I (scrape st company website).
Proof.
  intros HJI. unfold scrape. apply preserves_bind; [apply _|pres|].
  intros _ s.
  assert (preserves J
            (bind (guarded st company website)
                  (fun _ => bind get (fun f => ret (f_result f))))) as Hp.
  { pres. }
  specialize (Hp (Frame s false (s_initial st company website))).
  apply HJI in Hp. simpl in Hp.
  by destruct (bind _ _ _).
Qed.

End Closed.

(** *** The three relations are closed *)

Section Instances.
Context {World : Type} `{Sig World}.

Lemma adds_only_closed (P : io -> Prop) :
  (forall l, P (IoPrint l)) ->
  closed (adds_only (World := World) P) (fun _ => True) P.
Proof.
  intros HP. split.
  - apply _.
  - intros A f s. unfold call. destruct (f (world s)). exists [].
    simpl. by rewrite app_nil_r.
  - intros n _ s. destruct (TraverseFacts.say_run n s) as [_ Ht].
    exists (note_trace n). split; [done|].
    destruct n; simpl; auto.
  - intros a Ha s. exists [a]. simpl. auto.
Qed.

Lemma same_job_closed :
  closed (same_job (World := World)) silent_note (fun _ => True).
Proof.
  split.
  - apply _.
  - intros A f s. unfold call. by destruct (f (world s)).
  - intros [l|c p|] Hn s; done.
  - done.
Qed.

Lemma grows_closed :
  closed (grows (World := World)) (fun _ => True) (fun _ => True).
Proof.
  split.
  - apply _.
  - intros A f s. unfold call. by destruct (f (world s)).
  - intros [l|c p|] _ s; simpl.
    + split; [by apply prefix_app_r|done].
    + unfold push_event. destruct (time_time (world s)). simpl.
      split; [done|by apply prefix_app_r].
    + done.
  - intros a _ s. split; [by apply prefix_app_r|done].
Qed.

Lemma on_sys_lifted (I : sys World -> sys World -> Prop) `{!PreOrder I} :
  lifted I (on_sys I) (fun _ => True).
Proof.
  split.
  - apply _.
  - intros A m. apply preserves_zoom. by intros t s'.
  - intros b f. unfold on_sys. simpl. reflexivity.
  - intros key v _ f. unfold on_sys. simpl. reflexivity.
Qed.

Lemma any_sys_closed (okN : note -> Prop) (okA : io -> Prop) :
  closed (any_sys (World := World)) okN okA.
Proof. by split. Qed.

#[export] Instance keeps_identity_preorder :
  PreOrder (@keeps_identity World).
Proof.
  split; [done|]. unfold keeps_identity.
  intros f1 f2 f3 [E1 E2] [E3 E4]. by rewrite E3, E4.
Qed.

Lemma keeps_identity_lifted :
  lifted (any_sys (World := World)) keeps_identity not_identity.
Proof.
  split.
  - apply _.
  - intros A m _ f. unfold sysM, zoom. by destruct (m (f_sys f)).
  - done.
  - intros key v [Hc Hw] f. unfold keeps_identity. simpl.
    by rewrite !lookup_insert_ne.
Qed.

Lemma written_not_identity (key : string) :
  key ∈ written_keys -> not_identity key.
Proof.
  assert (Forall not_identity written_keys) as Hall
    by (repeat constructor; done).
  intros Hk. by eapply Forall_forall in Hall.
Qed.

Lemma same_row_lifted (I : sys World -> sys World -> Prop) :
  lifted I (same_row (World := World)) (fun _ => False).
Proof.
  split.
  - apply _.
  - intros A m _ f. unfold sysM, zoom. by destruct (m (f_sys f)).
  - done.
  - done.
Qed.

Lemma uses_any (st : style) : uses_only st (fun _ => True).
Proof. by split. Qed.

Lemma app_silent : uses_only App.style silent_note.
Proof. by split. Qed.

End Instances.

End CrawlFacts.

(** ** Navigation of one company *)

Module NavFacts.

Import Rt Env Crawl Spec RtFacts TraverseFacts CrawlFacts.

Lemma not_goto_gotos (new : list io) : Forall not_goto new -> gotos new = [].
Proof.
  induction 1 as [|a new Ha _ IH]; [done|].
  destruct a; simpl; try done. destruct Ha. by eexists.
Qed.

Section Nav.
Context {World : Type} `{Sig World}.
Variable st : style.

Lemma quiet_closed : closed (quiet (World := World)) (fun _ => True) not_goto.
Proof. apply adds_only_closed. intros l [u Hu]. done. Qed.

Ltac quiet_side :=
  first [ apply quiet_closed | apply uses_any | apply on_sys_lifted; apply _
        | done | by intros ? [? ?] | by intros [? ?] ].

Lemma quiet_gotos (s s' : sys World) :
  quiet s s' -> exists new, trace s' = trace s ++ new /\ gotos new = [].
Proof. intros (new & E & F). exists new. eauto using not_goto_gotos. Qed.

Lemma navs_refl (s : sys World) : navs [] s s.
Proof. exists []. by rewrite app_nil_r. Qed.

Lemma navs_trans (l1 l2 : list string) (s1 s2 s3 : sys World) :
  navs l1 s1 s2 -> navs l2 s2 s3 -> navs (l1 ++ l2) s1 s3.
Proof.
  intros (n1 & E1 & G1) (n2 & E2 & G2). exists (n1 ++ n2).
  by rewrite E2, E1, app_assoc, gotos_app, G1, G2.
Qed.

Lemma quiet_navs (s s' : sys World) : quiet s s' -> navs [] s s'.
Proof. apply quiet_gotos. Qed.

Lemma navs_quiet_r (l : list string) (s1 s2 s3 : sys World) :
  navs l s1 s2 -> quiet s2 s3 -> navs l s1 s3.
Proof.
  intros H1 H2%quiet_navs. rewrite <- (app_nil_r l). by eapply navs_trans.
Qed.

Lemma navs_quiet_l (l : list string) (s1 s2 s3 : sys World) :
  quiet s1 s2 -> navs l s2 s3 -> navs l s1 s3.
Proof. intros H1%quiet_navs H2. by eapply (navs_trans []). Qed.

(** A computation on the machine, run inside a frame. *)
Lemma sysM_inv {A} (I : sys World -> sys World -> Prop)
      (m : M (sys World) A) (f f1 : frame World) (r : res A) :
  preserves I m -> sysM m f = (f1, r) ->
  I (f_sys f) (f_sys f1) /\ f_page f1 = f_page f
  /\ f_result f1 = f_result f.
Proof.
  intros Hm. specialize (Hm (f_sys f)). unfold sysM, zoom.
  destruct (m (f_sys f)) as [s1 r1]. intros [= <- <-]. done.
Qed.

Lemma quiet_call {A} (g : World -> World * res A) : preserves (quiet (World := World)) (call g).
Proof. apply (cl_call _ _ _ quiet_closed). Qed.

Lemma quiet_say (n : note) : preserves (quiet (World := World)) (say n).
Proof. by apply (cl_say _ _ _ quiet_closed). Qed.

Lemma quiet_emit (a : io) : not_goto a -> preserves (quiet (World := World)) (emit a).
Proof. apply (cl_emit _ _ _ quiet_closed). Qed.

Lemma emit_goto_navs (url : string) (f f1 : frame World) (r : res unit) :
  sysM (emit (IoGoto url)) f = (f1, r) ->
  navs [url] (f_sys f) (f_sys f1) /\ r = Ok tt.
Proof. intros [= <- <-]. split; [|done]. by exists [IoGoto url]. Qed.

Lemma open_home_navs (company website : string) (f f' : frame World)
      (r : res string) :
  open_home st company website f = (f', r) ->
  navs [website] (f_sys f) (f_sys f')
  \/ navs [] (f_sys f) (f_sys f') /\ exists e, r = Raise e.
Proof.
  unfold open_home. intros Hrun.
  apply bind_inv in Hrun as [(f1 & [] & E1 & Hrun)|(e & E1 & ->)].
  2:{ right. split; [|by eexists].
      eapply quiet_navs, (sysM_inv quiet), E1. apply quiet_emit.
      by intros [u ?]. }
  apply (sysM_inv quiet) in E1 as (Q1 & _); [|by apply quiet_emit; intros [u ?]].
  apply bind_inv in Hrun as [(f2 & [] & E2 & Hrun)|(e & E2 & ->)];
    apply (sysM_inv quiet) in E2 as (Q2 & _); try apply quiet_call.
  2:{ right. split; [|by eexists]. apply quiet_navs. by etrans. }
  apply bind_inv in Hrun as [(f3 & [] & E3 & Hrun)|(e & E3 & ->)];
    [|done]. injection E3 as <-.
  apply bind_inv in Hrun as [(f4 & [] & E4 & Hrun)|(e & E4 & ->)];
    apply (sysM_inv quiet) in E4 as (Q4 & _); try apply quiet_say.
  2:{ right. split; [|by eexists]. apply quiet_navs.
      etrans; [exact Q1|]. etrans; [exact Q2|exact Q4]. }
  simpl in Q4.
  assert (quiet (f_sys f) (f_sys f4)) as Q.
  { etrans; [exact Q1|]. etrans; [exact Q2|exact Q4]. }
  clear Q1 Q2 Q4.
  apply bind_inv in Hrun as [(f5 & [] & E5 & Hrun)|(e & E5 & ->)];
    apply emit_goto_navs in E5 as [N5 ?]; [|done].
  assert (navs [website] (f_sys f) (f_sys f5)) as N
    by (by eapply navs_quiet_l).
  clear Q N5. left.
  apply bind_inv in Hrun as [(f6 & [] & E6 & Hrun)|(e & E6 & ->)];
    apply (sysM_inv quiet) in E6 as (Q6 & _); try apply quiet_call.
  2:{ by eapply navs_quiet_r. }
  apply bind_inv in Hrun as [(f7 & [] & E7 & Hrun)|(e & E7 & ->)];
    apply (sysM_inv quiet) in E7 as (Q7 & _);
    try (eapply cookie_loop_pres; quiet_side).
  2:{ eapply navs_quiet_r; [|exact Q7]. by eapply navs_quiet_r. }
  apply (sysM_inv quiet) in Hrun as (Q8 & _); [|apply quiet_call].
  eapply navs_quiet_r; [|exact Q8].
  eapply navs_quiet_r; [|exact Q7]. by eapply navs_quiet_r.
Qed.

Lemma sysM_run {A} (m : M (sys World) A) (f f1 : frame World) (r : res A) :
  sysM m f = (f1, r) ->
  m (f_sys f) = (f_sys f1, r) /\ f_page f1 = f_page f
  /\ f_result f1 = f_result f.
Proof.
  unfold sysM, zoom. destruct (m (f_sys f)) as [s1 r1]. by intros [= <- <-].
Qed.

Lemma crawl_top3_navs (company : string) (cands : list (string * nat))
      (text : string) (s s' : sys World) (r : res (gset string * string)) :
  crawl_top3 st company cands text s = (s', r) ->
  navs (fresh (take 3 cands).*1 ∅) s s' /\ exists out, r = Ok out.
Proof.
  unfold crawl_top3. intros E.
  destruct (traverse_run st company (take 3 cands) ∅ text s)
    as (s1 & v1 & new & Ht & Htr & Hg & _).
  rewrite Ht in E. injection E as <- <-.
  split; [by exists new|by eexists].
Qed.

Lemma fresh_top3 (cands : list (string * nat)) :
  length (fresh (take 3 cands).*1 ∅) <= 3 /\ NoDup (fresh (take 3 cands).*1 ∅).
Proof.
  split; [|apply fresh_nodup].
  etrans; [apply fresh_length|].
  rewrite length_fmap, length_take. lia.
Qed.

Lemma shape_quiet_r (website : string) (s1 s2 s3 : sys World) :
  shape website s1 s2 -> quiet s2 s3 -> shape website s1 s3.
Proof.
  intros [N|(cands & N)] Q; [left|right; exists cands];
    by eapply navs_quiet_r.
Qed.

Lemma shape_quiet_l (website : string) (s1 s2 s3 : sys World) :
  quiet s1 s2 -> shape website s2 s3 -> shape website s1 s3.
Proof.
  intros Q [N|(cands & N)]; [left|right; exists cands];
    by eapply navs_quiet_l.
Qed.

Lemma body_navs (company website : string) (f f' : frame World)
      (r : res unit) :
  body st company website f = (f', r) ->
  shape website (f_sys f) (f_sys f').
Proof.
  unfold body. intros Hrun.
  apply bind_inv in Hrun as [(f1 & text & E1 & Hrun)|(e & E1 & ->)];
    apply open_home_navs in E1 as [N1|[N1 [e' ?]]]; try done.
  2:{ right. exists []. exact N1. }
  2:{ by left. }
  apply bind_inv in Hrun as [(f2 & cands & E2 & Hrun)|(e & E2 & ->)];
    apply (preserves_inv (on_sys quiet)) in E2;
    try (eapply rank_links_pres; quiet_side).
  2:{ right. exists []. by eapply navs_quiet_r. }
  assert (navs [website] (f_sys f) (f_sys f2)) as N2
    by (by eapply navs_quiet_r).
  clear N1 E2.
  apply bind_inv in Hrun as [(f3 & [v text'] & E3 & Hrun)|(e & E3 & ->)];
    apply sysM_run in E3 as (E3 & _);
    apply crawl_top3_navs in E3 as [N3 [out ?]]; try done.
  pose proof (navs_trans _ _ _ _ _ N2 N3) as N. simpl in N.
  eapply shape_quiet_r; [right; exists cands; exact N|].
  eapply (preserves_inv (on_sys quiet)), Hrun.
  eapply finish_pres; quiet_side.
Qed.

Lemma guarded_run (company website : string) (f : frame World) :
  exists f', guarded st company website f = (f', Ok tt)
             /\ shape website (f_sys f) (f_sys f').
Proof.
  unfold guarded, finally.
  unfold bind at 1. unfold attempt at 1.
  destruct (body st company website f) as [f1 r1] eqn:Eb.
  apply body_navs in Eb.
  assert (exists f2, match r1 with
                     | Ok _ => ret ()
                     | Raise e => sysM (say (s_error st company e))
                     end f1 = (f2, Ok tt)
                     /\ quiet (f_sys f1) (f_sys f2)) as (f2 & -> & Q2).
  { destruct r1 as [[]|e].
    - exists f1. split; [done|reflexivity].
    - unfold sysM, zoom.
      pose proof (quiet_say (s_error st company e) (f_sys f1)) as Q.
      rewrite (say_eq (s_error st company e) (f_sys f1)).
      eexists. split; [reflexivity|exact Q]. }
  destruct (close_page f2) as [f3 r3] eqn:Ec.
  exists f3. split; [done|].
  eapply shape_quiet_r; [eapply shape_quiet_r; [exact Eb|exact Q2]|].
  eapply (preserves_inv (on_sys quiet)), Ec.
  eapply close_page_pres; quiet_side.
Qed.

Lemma scrape_run (company website : string) (s : sys World) :
  exists s' row,
    scrape st company website s = (s', Ok row)
    /\ shape website s s'.
Proof.
  unfold scrape.
  rewrite (bind_ok _ _ _ _ _ (say_eq _ s)).
  pose proof (quiet_say (s_start st company) s) as Q.
  set (s1 := (say (s_start st company) s).1) in *.
  destruct (guarded_run company website
              (Frame s1 false (s_initial st company website)))
    as (f' & Eg & Sh).
  rewrite (bind_ok _ _ _ _ _ Eg). simpl.
  eexists _, _. split; [reflexivity|].
  by eapply shape_quiet_l.
Qed.

Lemma shape_nav_shape (website : string) (s s' : sys World) :
  shape website s s' ->
  exists new, trace s' = trace s ++ new /\ nav_shape website (gotos new).
Proof.
  intros [(new & E & G)|(cands & new & E & G)]; exists new; split; try done.
  - by left.
  - right. eexists. split; [exact G|]. apply fresh_top3.
Qed.

End Nav.

End NavFacts.

(** ** The link scorer: what is admitted, how it is scored and ordered *)

Module DiscoverFacts.

Import Rt Env Crawl Spec RtFacts ScorerFacts.

Section Discover.
Context {World : Type} `{Sig World}.
Variable st : style.

Lemma candidate_inv (website domain : string) (href : option string)
      (inner_text url : string) (sc : nat) :
  candidate st website domain href inner_text = Ok (Some (url, sc)) ->
  exists h, href = Some h /\ Py.truthy h = true
            /\ urljoin website h = Ok url
            /\ Py.contains domain url = true
            /\ sc = s_score st IMPORTANT_KEYWORDS
                            (Py.strip (Py.lower inner_text)) url
            /\ 0 < sc.
Proof.
  unfold candidate. destruct href as [h|]; [|done].
  destruct (Py.truthy h) eqn:Eh; simpl; [|done].
  destruct (urljoin website h) as [full_url|e] eqn:Eu; simpl; [|done].
  destruct (Py.contains domain full_url) eqn:Ec; simpl; [|done].
  destruct (Nat.ltb_spec 0 (s_score st IMPORTANT_KEYWORDS
                                    (Py.strip (Py.lower inner_text)) full_url))
    as [Hpos|Hz]; [|done].
  intros [= <- <-]. by exists h.
Qed.


(** Whatever holds of every admitted anchor holds of every element of
    the list the loop builds. *)
Lemma discover_forall (P : string * nat -> Prop) (website domain : string)
      (idx : list nat) (acc : list (string * nat)) (s : sys World) :
  (forall href inner_text c,
      candidate st website domain href inner_text = Ok (Some c) -> P c) ->
  Forall P acc ->
  exists s' l, discover st website domain idx acc s = (s', Ok l)
               /\ Forall P l.
Proof.
  intros HP. revert acc s. induction idx as [|i idx IH]; intros acc s Hacc.
  - by exists s, acc.
  - simpl. unfold bind at 1. unfold attempt at 1.
    destruct (read_anchor st website domain i s) as [s1 r] eqn:Er.
    destruct r as [[c|]|e]; try by apply IH.
    apply IH. apply Forall_app. split; [done|]. constructor; [|done].
    unfold read_anchor, bind, call, of_res in Er.
    destruct (link_get_attribute i (world s)) as [w1 [href|e1]]; [|done].
    simpl in Er.
    destruct (link_inner_text i w1) as [w2 [inner_text|e2]]; [|done].
    injection Er as _ Er. by eapply HP.
Qed.

Lemma rank_links_forall (P : string * nat -> Prop) (company website : string)
      (f f' : frame World) (l : list (string * nat)) :
  (forall domain href inner_text c,
      candidate st website domain href inner_text = Ok (Some c) -> P c) ->
  rank_links st company website f = (f', Ok l) ->
  StronglySorted by_score_desc l /\ Forall P l.
Proof.
  intros HP. unfold rank_links. intros Hrun.
  apply bind_inv in Hrun as [(f1 & [] & _ & Hrun)|(e & _ & ?)]; [|done].
  apply bind_inv in Hrun as [(f2 & domain & _ & Hrun)|(e & _ & ?)]; [|done].
  apply bind_inv in Hrun as [(f3 & n & _ & Hrun)|(e & _ & ?)]; [|done].
  apply bind_inv in Hrun as [(f4 & cands & Ed & Hrun)|(e & _ & ?)]; [|done].
  injection Hrun as _ <-.
  split; [apply sorted_desc_sorted|].
  rewrite sorted_desc_perm.
  unfold sysM, zoom in Ed.
  destruct (discover_forall P website domain (seq 0 n) [] (f_sys f3)
              (HP domain) (Forall_nil_2 _)) as (s' & l & El & Hl).
  rewrite El in Ed. by injection Ed as _ <-.
Qed.




End Discover.

End DiscoverFacts.

Import Rt Env Crawl Spec.


(** C8: for both crawls and every keyword list, the score computed from
    a visible text and a URL does not decrease when either is extended
    by more text, before or after. *)
Theorem score_monotone :
  forall (st : style) (keywords : list string)
         (text text' url url' : string),
    known st -> extends text' text -> extends url' url ->
    computed_score st keywords text url
    <= computed_score st keywords text' url'.
Proof.
  intros st keywords text text' url url' Hst Ht Hu. unfold computed_score.
  rewrite !(ScorerFacts.known_score st) by done.
  by apply ScorerFacts.score_server_mono.
Qed.


Lemma score_monotone_witness :
  known Server.style
  /\ extends "About our company" "About"
  /\ extends "https://acme.test/about/company" "https://acme.test/about"
  /\ computed_score Server.style IMPORTANT_KEYWORDS
       "About" "https://acme.test/about"
     <= computed_score Server.style IMPORTANT_KEYWORDS
          "About our company" "https://acme.test/about/company".
Proof.
  assert (known Server.style) as Hk by (by right).
  assert (extends "About our company" "About") as Ht
      by (exists "", " our company"; reflexivity).
  assert (extends "https://acme.test/about/company" "https://acme.test/about")
    as Hu by (exists "", "/company"; reflexivity).
  split; [exact Hk|]. split; [exact Ht|]. split; [exact Hu|].
  exact (score_monotone Server.style IMPORTANT_KEYWORDS _ _ _ _ Hk Ht Hu).
Defined.

(** C1, at the input where the code departs from it: an anchor that
    points to another host and mentions the target's host in its query
    string.  The host of the resolved URL is [evil.example], which does
    not contain [acme.test]; the filter looks for [acme.test] in the
    whole URL, finds it, and both crawls admit the anchor as a candidate.
    The crawl then navigates there. *)
Theorem scorer_admits_foreign_host :
  UrlLib.urlparse_netloc Demo.acme = Ok "acme.test"
  /\ UrlLib.urljoin Demo.acme Demo.foreign = Ok Demo.foreign
  /\ UrlLib.urlparse_netloc Demo.foreign = Ok "evil.example"
  /\ Py.contains "acme.test" "evil.example" = false
  /\ candidate (H := Script.sig Demo.lure) App.style
       Demo.acme "acme.test" (Some Demo.foreign) "About"
     = Ok (Some (Demo.foreign, 5))
  /\ candidate (H := Script.sig Demo.lure) Server.style
       Demo.acme "acme.test" (Some Demo.foreign) "About"
     = Ok (Some (Demo.foreign, 5))
  /\ gotos (trace (App.scrape_company (H := Script.sig Demo.lure)
                     "Acme" Demo.acme Demo.idle).1)
     = [Demo.acme; Demo.foreign]
  /\ gotos (trace (Server.scrape_company_async (H := Script.sig Demo.lure)
                     "Acme" Demo.acme Demo.idle).1)
     = [Demo.acme; Demo.foreign].
Proof. vm_compute. repeat split; reflexivity. Qed.

(** ** The traversal: the cap, the visited set, failing pages *)

(** C2: the traversal navigates to at most three URLs beyond the home
    page, no two of them the same and none that was in the visited set,
    also when a URL occurs more than once among the candidates; and the
    navigations of a whole company are none, or the home page followed
    by at most three distinct sub-pages. *)
Theorem traversal_cap_no_revisit :
  forall (World : Type) (E : Sig World) (st : style)
         (company website : string) (cands : list (string * nat))
         (visited : gset string) (text : string) (s : sys World),
    (exists s' out new,
        traverse st company (take 3 cands) visited text s = (s', Ok out)
        /\ trace s' = trace s ++ new
        /\ length (gotos new) <= 3
        /\ NoDup (gotos new)
        /\ forall u, u ∈ gotos new ->
                     (u ∉ visited) /\ (u ∈ (take 3 cands).*1))
    /\ (exists s' row new,
           scrape st company website s = (s', Ok row)
           /\ trace s' = trace s ++ new
           /\ nav_shape website (gotos new)).
Proof.
  intros World E st company website cands visited text s. split.
  - destruct (TraverseFacts.traverse_run st company (take 3 cands)
                visited text s) as (s' & v' & new & Ht & Htr & Hg & _).
    eexists s', _, new. split; [exact Ht|]. split; [exact Htr|].
    rewrite Hg. split; [|split; [apply TraverseFacts.fresh_nodup|]].
    + etrans; [apply TraverseFacts.fresh_length|].
      rewrite length_fmap, length_take. lia.
    + intros u Hu. apply TraverseFacts.fresh_elem in Hu as [? ?]. done.
  - destruct (NavFacts.scrape_run st company website s) as (s' & row & Hr & Sh).
    apply NavFacts.shape_nav_shape in Sh as (new & Htr & Hn).
    by exists s', row, new.
Qed.

(** C3: the traversal returns whatever the pages do.  Every distinct
    URL of the list that is not yet visited is attempted once, in order,
    also after a failure; the aggregate is the text so far followed by a
    space and the text of each page that was read, failures leaving no
    mark in it; and after whitespace is collapsed the words of the
    aggregate are the words of the start text followed by the words of
    every page that was read. *)
Theorem traversal_survives_failures :
  forall (World : Type) (E : Sig World) (st : style) (company : string)
         (links : list (string * nat)) (visited : gset string)
         (text : string) (s : sys World),
    let outs := outcomes st company links visited s in
    exists s' visited',
      traverse st company links visited text s
      = (s', Ok (visited', text +:+ joined (successes outs)))
      /\ outs.*1 = fresh links.*1 visited
      /\ words (Py.collapse_ws (text +:+ joined (successes outs)))
         = words text ++ concat (words <$> successes outs).
Proof.
  intros World E st company links visited text s outs.
  destruct (TraverseFacts.traverse_run st company links visited text s)
    as (s' & v' & new & Ht & _ & _ & Ho).
  exists s', v'. split; [exact Ht|]. split; [exact Ho|].
  destruct (TraverseFacts.words_collapse
              (text +:+ joined (successes outs))) as [-> _].
  apply TraverseFacts.words_joined.
Qed.

(** Three ranked candidates, the second of which cannot be reached: the
    text of the first and of the third is in the aggregate. *)
Example second_page_fails :
  (crawl_top3 (H := Script.sig Demo.gap) App.style "Acme" Demo.ranked
              "Acme home" Demo.idle).2
  = Ok ({["https://acme.test/about"; "https://acme.test/company";
          "https://acme.test/team"]},
        "Acme home We build rockets. Our leadership").
Proof. vm_compute. reflexivity. Qed.

(** C10: the slice of three is taken before the visited set is
    consulted.  When the first three candidates repeat a URL, fewer than
    three sub-pages are navigated to, and none of them comes from beyond
    the third position, however many candidates follow. *)
Theorem top3_before_dedup :
  forall (World : Type) (E : Sig World) (st : style) (company : string)
         (cands : list (string * nat)) (text : string) (s : sys World),
    ~ NoDup (take 3 cands).*1 ->
    exists s' out new,
      crawl_top3 st company cands text s = (s', Ok out)
      /\ trace s' = trace s ++ new
      /\ length (gotos new) < 3
      /\ forall u, u ∈ gotos new -> u ∈ (take 3 cands).*1.
Proof.
  intros World E st company cands text s Hdup. unfold crawl_top3.
  destruct (TraverseFacts.traverse_run st company (take 3 cands) ∅ text s)
    as (s' & v' & new & Ht & Htr & Hg & _).
  eexists s', _, new. split; [exact Ht|]. split; [exact Htr|].
  rewrite Hg. split.
  - pose proof (TraverseFacts.fresh_short _ ∅ Hdup) as Hlt.
    rewrite length_fmap, length_take in Hlt. lia.
  - intros u Hu. by apply TraverseFacts.fresh_elem in Hu as [? _].
Qed.

Lemma top3_before_dedup_witness :
  ~ NoDup (take 3 Demo.repeated).*1
  /\ exists s' out new,
       crawl_top3 (H := Script.sig Demo.nowhere) App.style "Acme"
                  Demo.repeated "" Demo.idle = (s', Ok out)
       /\ trace s' = trace Demo.idle ++ new
       /\ length (gotos new) < 3
       /\ forall u, u ∈ gotos new -> u ∈ (take 3 Demo.repeated).*1.
Proof.
  assert (~ NoDup (take 3 Demo.repeated).*1) as Hdup.
  { simpl. intros Hnd. apply NoDup_cons in Hnd as [Hn _]. apply Hn. by left. }
  split; [exact Hdup|].
  exact (top3_before_dedup Script.world (Script.sig Demo.nowhere)
           App.style "Acme" Demo.repeated "" Demo.idle Hdup).
Defined.

(** ** The matcher against the language of a pattern *)

Module ReFacts.

Import Re PyFacts.

Lemma one_inv (ok : ascii -> bool) (s : string) (k : cont) (m : string) :
  one ok s k = Some m ->
  exists c rest m2, s = String c rest /\ ok c = true
                    /\ k rest = Some m2 /\ m = String c m2.
Proof.
  destruct s as [|c rest]; [done|]. simpl.
  destruct (ok c) eqn:Ec; [|done].
  destruct (k rest) as [m2|] eqn:Ek; [|done].
  intros [= <-]. by exists c, rest, m2.
Qed.

Lemma one_ok (ok : ascii -> bool) (c : ascii) (rest : string) (k : cont)
      (m2 : string) :
  ok c = true -> k rest = Some m2 ->
  one ok (String c rest) k = Some (String c m2).
Proof. intros Hc Hk. simpl. by rewrite Hc, Hk. Qed.

Lemma star_sound (ic : bool) (p : ascii -> bool) (s : string) (k : cont)
      (m : string) :
  star p s k = Some m ->
  exists m1 m2 rest, s = m1 +:+ rest /\ matches ic (StarCls p) m1
                     /\ k rest = Some m2 /\ m = m1 +:+ m2.
Proof.
  revert m. induction s as [|c s IH]; intros m; simpl.
  - intros Hk. exists "", m, "". repeat split; [constructor|done].
  - destruct (p c) eqn:Ec.
    + destruct (star p s k) as [m'|] eqn:Es.
      * intros [= <-]. destruct (IH _ eq_refl) as (m1 & m2 & rest & -> & Hm & Hk & ->).
        exists (String c m1), m2, rest. repeat split; [|done].
        by constructor.
      * intros Hk. exists "", m, (String c s). repeat split; [constructor|done].
    + intros Hk. exists "", m, (String c s). repeat split; [constructor|done].
Qed.

Lemma star_total (p : ascii -> bool) (s : string) (k : cont) (m2 : string) :
  k s = Some m2 -> exists m, star p s k = Some m.
Proof.
  intros Hk. destruct s as [|c s]; simpl; [by eexists|].
  destruct (p c); [|by eexists].
  destruct (star p s k); by eexists.
Qed.

Lemma star_complete (ic : bool) (p : ascii -> bool) (m1 rest : string)
      (k : cont) (m2 : string) :
  matches ic (StarCls p) m1 -> k rest = Some m2 ->
  exists m, star p (m1 +:+ rest) k = Some m.
Proof.
  intros Hm Hk. remember (StarCls p) as r eqn:Er.
  induction Hm as [| | | | |p'|p' c s Hc Hs IH|]; try done.
  - rewrite sapp_nil_l. by eapply star_total.
  - injection Er as ->. rewrite sapp_cons. simpl. rewrite Hc.
    destruct (IH eq_refl) as [m ->]. by eexists.
Qed.

Lemma run_sound (ic : bool) (r : regex) (s : string) (k : cont) (m : string) :
  run ic r s k = Some m ->
  exists m1 m2 rest, s = m1 +:+ rest /\ matches ic r m1
                     /\ k rest = Some m2 /\ m = m1 +:+ m2.
Proof.
  revert s k m. induction r as [a|p|r1 IH1 r2 IH2|r1 IH1|p|p];
    intros s k m; simpl.
  - intros (c & rest & m2 & -> & Hc & Hk & ->)%one_inv.
    exists (String c ""), m2, rest. repeat split; [|done]. by constructor.
  - intros (c & rest & m2 & -> & Hc & Hk & ->)%one_inv.
    exists (String c ""), m2, rest. repeat split; [|done]. by constructor.
  - intros (m1 & m' & rest1 & -> & Hm1 & Hk1 & ->)%IH1.
    apply IH2 in Hk1 as (m2 & m3 & rest & -> & Hm2 & Hk & ->).
    exists (m1 +:+ m2), m3, rest. rewrite !sapp_assoc.
    repeat split; [|done]. by constructor.
  - destruct (run ic r1 s k) as [m'|] eqn:E1.
    + intros [= <-]. apply IH1 in E1 as (m1 & m2 & rest & -> & Hm & Hk & ->).
      exists m1, m2, rest. repeat split; [|done]. by apply m_opt_some.
    + intros Hk. exists "", m, s. repeat split; [|done]. apply m_opt_none.
  - apply star_sound.
  - intros (c & rest & m2 & -> & Hc & Hk & ->)%one_inv.
    apply (star_sound ic) in Hk as (m1 & m3 & rest' & -> & Hm & Hk & ->).
    exists (String c m1), m3, rest'. repeat split; [|done]. by constructor.
Qed.

Lemma run_complete (ic : bool) (r : regex) (m1 : string) :
  matches ic r m1 ->
  forall (rest : string) (k : cont) (m2 : string),
    k rest = Some m2 -> exists m, run ic r (m1 +:+ rest) k = Some m.
Proof.
  induction 1 as [a c Hc|p c Hc|r1 r2 s1 s2 H1 IH1 H2 IH2|r|r s Hs IH
                 |p|p c s Hc Hs IH|p c s Hc Hs _]; intros rest k m2 Hk.
  - simpl. rewrite Hc. rewrite sapp_nil_l, Hk. by eexists.
  - simpl. rewrite Hc. rewrite sapp_nil_l, Hk. by eexists.
  - simpl. rewrite sapp_assoc.
    destruct (IH2 rest k m2 Hk) as [m' Hm'].
    by apply (IH1 (s2 +:+ rest) (fun s' => run ic r2 s' k) m').
  - simpl. rewrite sapp_nil_l. destruct (run ic r rest k); by eexists.
  - simpl. destruct (IH rest k m2 Hk) as [m ->]. by eexists.
  - simpl. rewrite sapp_nil_l. by eapply star_total.
  - by apply (star_complete ic p (String c s) rest k m2); [constructor|].
  - simpl. rewrite Hc.
    destruct (star_complete ic p s rest k m2 Hs Hk) as [m ->]. by eexists.
Qed.

Lemma match_here_sound (ic : bool) (r : regex) (s m : string) :
  match_here ic r s = Some m -> exists b, s = m +:+ b /\ matches ic r m.
Proof.
  intros (m1 & m2 & rest & -> & Hm & [= <-] & ->)%run_sound.
  exists rest. by rewrite sapp_nil_r.
Qed.

Lemma match_here_complete (ic : bool) (r : regex) (m b : string) :
  matches ic r m -> exists m', match_here ic r (m +:+ b) = Some m'.
Proof. intros Hm. by apply (run_complete ic r m Hm b accept ""). Qed.

(** [search] returns the leftmost occurrence. *)
Lemma search_sound (ic : bool) (r : regex) (s m : string) :
  search ic r s = Some m ->
  exists a, occurs_at ic r s a m
            /\ forall a' m', occurs_at ic r s a' m' ->
                             String.length a <= String.length a'.
Proof.
  revert m. induction s as [|c s IH]; intros m; simpl.
  - destruct (match_here ic r "") as [m'|] eqn:E; [|done].
    intros [= <-]. apply match_here_sound in E as (b & E & Hm).
    exists "". split; [by exists b|]. simpl. lia.
  - destruct (match_here ic r (String c s)) as [m'|] eqn:E.
    + intros [= <-]. apply match_here_sound in E as (b & E & Hm).
      exists "". split; [by exists b|]. simpl. lia.
    + intros (a & (b & -> & Hm) & Hleft)%IH.
      exists (String c a). split; [by exists b|].
      intros a' m' (b' & E' & Hm').
      destruct a' as [|c' a'].
      * rewrite sapp_nil_l in E'.
        destruct (match_here_complete ic r m' b' Hm') as [? Hc].
        rewrite <- E' in Hc. congruence.
      * rewrite sapp_cons in E'. injection E' as <- E'.
        simpl. apply le_n_S, (Hleft a' m'). by exists b'.
Qed.

Lemma search_complete (ic : bool) (r : regex) (s : string) :
  occurs ic r s -> exists m, search ic r s = Some m.
Proof.
  intros (a & m & b & -> & Hm). induction a as [|c a IH].
  - rewrite sapp_nil_l.
    destruct (match_here_complete ic r m b Hm) as [m' Hm'].
    destruct (m +:+ b); simpl; rewrite Hm'; by eexists.
  - rewrite sapp_cons. simpl.
    destruct (match_here ic r _); [by eexists|exact IH].
Qed.

Lemma search_none (ic : bool) (r : regex) (s : string) :
  search ic r s = None <-> ~ occurs ic r s.
Proof.
  split.
  - intros Hn [m Hm]%search_complete. congruence.
  - intros Hn. destruct (search ic r s) as [m|] eqn:E; [|done].
    destruct Hn. apply search_sound in E as (a & Ho & _). by exists a, m.
Qed.

End ReFacts.

(** ** The founding date *)

Module FoundedFacts.

Import Re Extract PyFacts ReFacts.

Lemma first_search_none (ps : list regex) (text : string) :
  first_search ps text = None <-> forall p, p ∈ ps -> ~ occurs true p text.
Proof.
  induction ps as [|p ps IH]; simpl.
  - split; [by intros _ p ?%elem_of_nil|done].
  - destruct (search true p text) as [m|] eqn:E.
    + split; [done|]. intros Hn. exfalso.
      apply (Hn p); [by left|].
      apply search_sound in E as (a & Ho & _). by exists a, m.
    + rewrite IH. apply search_none in E. split.
      * intros Hn q [->|Hq]%elem_of_cons; auto.
      * intros Hn q Hq. apply Hn. by right.
Qed.

Lemma first_search_some (ps : list regex) (text m : string) :
  first_search ps text = Some m ->
  exists before p after,
    ps = before ++ p :: after
    /\ (forall q, q ∈ before -> ~ occurs true q text)
    /\ search true p text = Some m.
Proof.
  induction ps as [|p ps IH]; simpl; [done|].
  destruct (search true p text) as [m'|] eqn:E.
  - intros [= <-]. exists [], p, ps. split; [done|].
    split; [by intros q ?%elem_of_nil|done].
  - intros (before & q & after & -> & Hb & Hs)%IH.
    exists (p :: before), q, after. split; [done|]. split; [|done].
    intros q' [->|Hq]%elem_of_cons; [by apply search_none|by apply Hb].
Qed.

Lemma match_here_lit_fails (ic : bool) (a c : ascii) (r : regex) (s : string) :
  lit_eq ic a c = false -> match_here ic (Seq (Lit a) r) (String c s) = None.
Proof. intros Hc. unfold match_here. simpl. by rewrite Hc. Qed.

(** A text without the letter F in front of the phrase. *)
Lemma founded_in_context (a b : string) :
  Py.all_chars (fun c => negb (lit_eq true "F" c)) a = true ->
  extract_founded (a +:+ "Founded in 1998" +:+ b) = Some "Founded in 1998".
Proof.
  intros Ha. unfold extract_founded, patterns. simpl first_search.
  assert (search true pat_founded (a +:+ "Founded in 1998" +:+ b)
          = Some "Founded in 1998") as ->; [|done].
  induction a as [|c a IH].
  - rewrite sapp_nil_l, !sapp_cons, sapp_nil_l. vm_compute. reflexivity.
  - change (negb (lit_eq true "F" c)
            && Py.all_chars (fun c => negb (lit_eq true "F" c)) a = true)
      in Ha.
    apply andb_prop in Ha as [Hc Ha].
    apply negb_true_iff in Hc.
    rewrite sapp_cons. simpl search.
    change pat_founded with
      (Seq (Lit "F")
           (lits "ounded"
              (ws_plus (Seq (Opt (lits "in" (PlusCls Py.isspace))) year)))).
    rewrite (match_here_lit_fails _ _ _ _ _ Hc). by apply IH.
Qed.

End FoundedFacts.

Import Re Extract.

(** C9: [extract_founded] tries the three patterns in order, all of them
    case-insensitive.  It returns null exactly when none of them occurs
    anywhere in the text.  When it returns a text, that text is the
    leftmost occurrence of the first pattern that occurs at all: every
    pattern before it has no occurrence in the text.  The text
    "Founded in 1998" gives "Founded in 1998", also inside a longer text
    without an F before it. *)
Theorem extract_founded_first_match :
  forall text : string,
    (extract_founded text = None
     <-> forall p, p ∈ patterns -> ~ occurs true p text)
    /\ (forall m, extract_founded text = Some m ->
          exists before p after a,
            patterns = before ++ p :: after
            /\ (forall q, q ∈ before -> ~ occurs true q text)
            /\ occurs_at true p text a m
            /\ forall a' m', occurs_at true p text a' m' ->
                             String.length a <= String.length a')
    /\ extract_founded "Founded in 1998" = Some "Founded in 1998"
    /\ (forall a b,
          Py.all_chars (fun c => negb (lit_eq true "F" c)) a = true ->
          extract_founded (a +:+ "Founded in 1998" +:+ b)
          = Some "Founded in 1998").
Proof.
  intros text. split; [apply FoundedFacts.first_search_none|].
  split; [|split; [by vm_compute|apply FoundedFacts.founded_in_context]].
  intros m (before & p & after & Hp & Hb & Hs)%FoundedFacts.first_search_some.
  apply ReFacts.search_sound in Hs as (a & Ho & Hleft).
  by exists before, p, after, a.
Qed.

Lemma extract_founded_first_match_witness :
  extract_founded "Since 2001 we grow. Established in 1999"
  = Some "Established in 1999"
  /\ exists before p after a,
       patterns = before ++ p :: after
       /\ (forall q, q ∈ before ->
             ~ occurs true q "Since 2001 we grow. Established in 1999")
       /\ occurs_at true p "Since 2001 we grow. Established in 1999"
            a "Established in 1999"
       /\ forall a' m',
            occurs_at true p "Since 2001 we grow. Established in 1999" a' m' ->
            String.length a <= String.length a'.
Proof.
  assert (extract_founded "Since 2001 we grow. Established in 1999"
          = Some "Established in 1999") as He by (vm_compute; reflexivity).
  split; [exact He|].
  destruct (extract_founded_first_match
              "Since 2001 we grow. Established in 1999") as (_ & Hsome & _).
  exact (Hsome _ He).
Defined.

(** ** The upload route *)

Import Server.

(** C5: while the job is running an upload is answered with the conflict
    reply and nothing changes: results, events, status and everything
    else stay as they are.  When the job is not running and the upload
    passes the checks (a file with an allowed name that can be saved and
    read and has the two required columns), every field of the job is
    reset, results and events to empty, the job takes the identifier just
    generated, its status is running, and the run is started on the saved
    file. *)
Theorem upload_conflict_and_reset :
  forall (World : Type) (E : Sig World) (s : sys World) (file : option string),
    (j_status (job_state s) = Running -> upload file s = (s, Ok Conflict))
    /\ (forall filename w1 job_id w2 w3 df,
           j_status (job_state s) <> Running ->
           file = Some filename ->
           allowed_name filename = true ->
           uuid4_8 (world s) = (w1, job_id) ->
           let input_path :=
             UPLOAD_FOLDER +:+ "/" +:+ job_id +:+ "_" +:+ filename in
           file_save input_path w1 = (w2, Ok tt) ->
           (if Py.endswith ".csv" input_path
            then read_csv input_path w2
            else read_excel input_path w2) = (w3, Ok df) ->
           has_required (df_columns df) = true ->
           upload file s
           = (Sys w3 (trace s ++ [IoThread input_path])
                  (Job (Some job_id) Running 0 0 "" "" [] [] None),
              Ok (Started job_id))).
Proof.
  intros World E s file. split.
  - intros Hrun. unfold upload, bind, get. simpl. rewrite Hrun.
    by destruct s.
  - intros filename w1 job_id w2 w3 df Hst -> Hname Hid input_path Hsave
           Hread Hcols.
    unfold upload, bind, get. simpl.
    destruct (j_status (job_state s)) eqn:Est; try done;
      rewrite Hname; simpl; unfold call; simpl; rewrite Hid; simpl;
      fold input_path; rewrite Hsave; simpl; unfold attempt;
      destruct (Py.endswith ".csv" input_path); simpl; rewrite Hread; simpl;
      rewrite Hcols; reflexivity.
Qed.

Lemma upload_conflict_and_reset_witness :
  upload (H := Script.sig (Demo.table [])) (Some "leads.xlsx") Demo.busy
  = (Demo.busy, Ok Conflict)
  /\ upload (H := Script.sig (Demo.table [])) (Some "leads.xlsx") Demo.idle
     = (Sys Script.start [IoThread "uploads/1b9d6bcd_leads.xlsx"]
            (Job (Some "1b9d6bcd") Running 0 0 "" "" [] [] None),
        Ok (Started "1b9d6bcd")).
Proof.
  split.
  - destruct (upload_conflict_and_reset Script.world
                (Script.sig (Demo.table [])) Demo.busy (Some "leads.xlsx"))
      as [Hc _].
    apply Hc. reflexivity.
  - destruct (upload_conflict_and_reset Script.world
                (Script.sig (Demo.table [])) Demo.idle (Some "leads.xlsx"))
      as [_ Hr].
    apply (Hr "leads.xlsx" Script.start "1b9d6bcd" Script.start Script.start
              (DataFrame ["company_name"; "website"] []));
      try reflexivity.
    simpl. discriminate.
Defined.

(** ** The enrichment block *)

Module EnrichFacts.

Import Rt Env Crawl Spec RtFacts CrawlFacts LlmUtils.

Lemma posts_app (a b : list io) : posts (a ++ b) = posts a ++ posts b.
Proof. unfold posts. apply omap_app. Qed.

Section Enrich.
Context {World : Type} `{Sig World}.

Lemma preprocess_unconfigured (name website about : string) (s : sys World) :
  unconfigured = true ->
  preprocess_about_with_llm name website about s
  = (Sys (world s) (trace s ++ [IoPrint LLlmSkipped]) (job_state s), Ok None).
Proof. intros Hu. unfold preprocess_about_with_llm. by rewrite Hu. Qed.

(** The call returns a text only if the service answered at this very
    world and the content of the answer is that text; it never raises. *)
Lemma preprocess_run (name website about : string) (s : sys World) :
  exists s' o,
    preprocess_about_with_llm name website about s = (s', Ok o)
    /\ forall raw, o = Some raw ->
         unconfigured = false
         /\ exists w' resp data,
              client_post (request name website about) (world s)
              = (w', Ok resp)
              /\ raise_for_status resp = Ok tt
              /\ resp_json resp = Ok data
              /\ content_of data = Ok raw.
Proof.
  unfold preprocess_about_with_llm.
  destruct unconfigured eqn:Eu.
  { eexists _, _. split; [reflexivity|done]. }
  unfold bind at 1. unfold attempt at 1.
  unfold ask, bind, emit, call, of_res, ret, print. simpl.
  destruct (client_post (request name website about) (world s))
    as [w' [resp|e]] eqn:Ep; simpl.
  2:{ eexists _, _. split; [reflexivity|done]. }
  destruct (raise_for_status resp) as [[]|e] eqn:Er; simpl.
  2:{ eexists _, _. split; [reflexivity|done]. }
  destruct (resp_json resp) as [data|e] eqn:Ej; simpl.
  2:{ eexists _, _. split; [reflexivity|done]. }
  destruct (content_of data) as [content|e] eqn:Ec; simpl.
  2:{ eexists _, _. split; [reflexivity|done]. }
  eexists _, _. split; [reflexivity|].
  intros raw Hraw. split; [done|].
  exists w', resp, data. repeat split; try done.
  destruct (Py.truthy content); by simplify_eq.
Qed.

Lemma store_report_run (d : list (string * pyval)) (keys : list string)
      (f : frame World) :
  store_report d keys f
  = (Frame (f_sys f) (f_page f)
           (foldl (fun r key => <[key := report_value (dict_get key d)]> r)
                  (f_result f) keys),
     Ok tt).
Proof.
  revert f. induction keys as [|k keys IH]; intros f; simpl.
  - by destruct f.
  - unfold bind, set_result, modify. simpl. by rewrite IH.
Qed.

Lemma foldl_insert_lookup (g : string -> pyval) (keys : list string)
      (r : gmap string pyval) (key : string) :
  foldl (fun r k => <[k := g k]> r) r keys !! key
  = if decide (key ∈ keys) then Some (g key) else r !! key.
Proof.
  revert r. induction keys as [|k keys IH]; intros r; cbn [foldl].
  - rewrite decide_False; [done|]. apply not_elem_of_nil.
  - rewrite IH. destruct (decide (key ∈ keys)) as [Hin|Hnin].
    + rewrite decide_True; [done|]. by right.
    + destruct (decide (k = key)) as [->|Hne].
      * rewrite lookup_insert_eq, decide_True; [done|]. by left.
      * rewrite lookup_insert_ne by done.
        rewrite decide_False; [done|].
        intros [->|?]%elem_of_cons; done.
Qed.

Lemma stored_lookup (d : list (string * pyval)) (r : gmap string pyval)
      (key : string) :
  stored d r !! key
  = if decide (key ∈ ENRICH_KEYS)
    then Some (report_value (dict_get key d)) else r !! key.
Proof.
  unfold stored.
  apply (foldl_insert_lookup (fun k => report_value (dict_get k d))).
Qed.

(** What the block does to a frame. *)
Lemma enrich_run (name : string) (f : frame World) :
  exists f',
    enrich name f = (f', Ok tt)
    /\ f_page f' = f_page f
    /\ (f_result f' = f_result f
        \/ exists website about w' resp data raw d,
             unconfigured = false
             /\ prompt_arg (f_result f !! "Website") = Ok website
             /\ prompt_arg (f_result f !! "About Us") = Ok about
             /\ client_post (request name website about) (world (f_sys f))
                = (w', Ok resp)
             /\ raise_for_status resp = Ok tt
             /\ resp_json resp = Ok data
             /\ content_of data = Ok raw
             /\ json_loads raw = Ok (VDict d)
             /\ f_result f' = stored d (f_result f))
    /\ (unconfigured = true ->
        f_result f' = f_result f
        /\ world (f_sys f') = world (f_sys f)
        /\ exists new, trace (f_sys f') = trace (f_sys f) ++ new
                       /\ posts new = []).
Proof.
  unfold enrich. unfold bind at 1. unfold attempt at 1.
  unfold enrich_body. unfold bind at 1. unfold get at 1.
  unfold bind at 1. unfold of_res at 1.
  destruct (prompt_arg (f_result f !! "Website")) as [website|e] eqn:Ew.
  2:{ eexists. split; [reflexivity|]. simpl. split; [done|].
      split; [by left|]. intros _. split; [done|]. split; [done|].
      by exists [IoPrint (LLlmError name e)]. }
  unfold bind at 1. unfold of_res at 1.
  destruct (prompt_arg (f_result f !! "About Us")) as [about|e] eqn:Ea.
  2:{ eexists. split; [reflexivity|]. simpl. split; [done|].
      split; [by left|]. intros _. split; [done|]. split; [done|].
      by exists [IoPrint (LLlmError name e)]. }
  unfold bind at 1. unfold sysM at 1, zoom.
  destruct (preprocess_run name website about (f_sys f))
    as (s1 & o & Ep & Ho).
  pose proof (preprocess_unconfigured name website about (f_sys f)) as Hu.
  rewrite Ep in *.
  assert (unconfigured = true ->
          f_result f = f_result f
          /\ world s1 = world (f_sys f)
          /\ exists new, trace s1 = trace (f_sys f) ++ new /\ posts new = [])
    as Hquiet.
  { intros Eu. specialize (Hu Eu). injection Hu as -> _.
    split; [done|]. split; [done|]. by eexists. }
  destruct o as [raw|].
  2:{ eexists. split; [reflexivity|]. simpl. split; [done|].
      split; [by left|exact Hquiet]. }
  destruct (Ho raw eq_refl) as (Eu & w' & resp & data & Epost & Es & Ej & Ec).
  assert (unconfigured = true -> False) as Hno by (rewrite Eu; done).
  destruct (Py.truthy raw).
  2:{ eexists. split; [reflexivity|]. simpl. split; [done|].
      split; [by left|]. intros ?. by destruct Hno. }
  unfold bind at 1. unfold parse_report. unfold bind at 1.
  unfold attempt at 1, of_res at 1.
  destruct (json_loads raw) as [parsed|e] eqn:El.
  - unfold ret at 1.
    destruct parsed as [| | | | | |d];
      try (eexists; split; [reflexivity|]; simpl; split; [done|];
           split; [by left|]; intros ?; by destruct Hno).
    rewrite store_report_run. simpl.
    eexists. split; [reflexivity|]. simpl. split; [done|].
    split; [|intros ?; by destruct Hno].
    right. exists website, about, w', resp, data, raw, d. done.
  - destruct (exn_cls e); simpl;
      (eexists; split; [reflexivity|]; simpl; split; [done|];
       split; [by left|]; intros ?; by destruct Hno).
Qed.

(** With credentials the call posts once and returns the content of
    the reply, or nothing when the content is empty or could not be
    read. *)
Lemma preprocess_exact (name website about : string) (s : sys World) :
  unconfigured = false ->
  preprocess_about_with_llm name website about s
  = match Found.reply_text name website about (world s) with
    | Ok raw =>
        (Sys (client_post (request name website about) (world s)).1
             (trace s ++ [IoPost endpoint]) (job_state s),
         Ok (if Py.truthy raw then Some raw else None))
    | Raise e =>
        (Sys (client_post (request name website about) (world s)).1
             (trace s ++ [IoPost endpoint; IoPrint (LLlmFailed e)])
             (job_state s),
         Ok None)
    end.
Proof.
  intros Eu. unfold preprocess_about_with_llm, Found.reply_text.
  rewrite Eu.
  unfold bind at 1. unfold attempt at 1.
  unfold ask, bind, emit, call, of_res, ret, print, res_bind. simpl.
  destruct (client_post (request name website about) (world s))
    as [w' [resp|e]]; simpl.
  2:{ by rewrite <- app_assoc. }
  destruct (raise_for_status resp) as [[]|e]; simpl.
  2:{ by rewrite <- app_assoc. }
  destruct (resp_json resp) as [data|e]; simpl.
  2:{ by rewrite <- app_assoc. }
  destruct (content_of data) as [content|e]; simpl.
  2:{ by rewrite <- app_assoc. }
  done.
Qed.

(** The row after the block: the report written over it when there is
    one, the row as it was otherwise. *)
Lemma enrich_exact (name : string) (f : frame World) :
  exists f',
    enrich name f = (f', Ok tt)
    /\ f_page f' = f_page f
    /\ f_result f'
       = match Found.report_of name f with
         | Some d => stored d (f_result f)
         | None => f_result f
         end.
Proof.
  unfold enrich, Found.report_of. unfold bind at 1. unfold attempt at 1.
  unfold enrich_body. unfold bind at 1. unfold get at 1.
  unfold bind at 1. unfold of_res at 1.
  destruct (prompt_arg (f_result f !! "Website")) as [website|e] eqn:Ew.
  2:{ eexists. split; [reflexivity|]. simpl. split; [done|].
      by destruct unconfigured. }
  unfold bind at 1. unfold of_res at 1.
  destruct (prompt_arg (f_result f !! "About Us")) as [about|e] eqn:Ea.
  2:{ eexists. split; [reflexivity|]. simpl. split; [done|].
      by destruct unconfigured. }
  unfold bind at 1. unfold sysM at 1, zoom.
  destruct unconfigured eqn:Eu.
  { rewrite (preprocess_unconfigured name website about (f_sys f) Eu).
    eexists. split; [reflexivity|]. done. }
  rewrite (preprocess_exact name website about (f_sys f) Eu).
  destruct (Found.reply_text name website about (world (f_sys f)))
    as [raw|e].
  2:{ eexists. split; [reflexivity|]. done. }
  destruct (Py.truthy raw) eqn:Et.
  2:{ eexists. split; [reflexivity|]. done. }
  rewrite Et.
  unfold bind at 1. unfold parse_report. unfold bind at 1.
  unfold attempt at 1, of_res at 1.
  destruct (json_loads raw) as [parsed|e] eqn:El.
  - unfold ret at 1.
    destruct parsed as [| | | | | |d]; try rewrite store_report_run;
      (eexists; split; [reflexivity|]; done).
  - destruct (exn_cls e); simpl; (eexists; split; [reflexivity|]; done).
Qed.

End Enrich.

End EnrichFacts.

(** C6: the enrichment block never raises.  The row it leaves is
    determined by the reply: when the service is configured, the prompt
    arguments are strings, the post is answered with a good status and a
    body whose content is not empty, and [json.loads] turns that content
    into a dict, the nine fields, and only they, are written from that
    dict: null for an absent or null key, the dumped string for a dict
    or list, the value itself for a scalar; in every other case the row
    is as it was.  Without credentials or model name the row and the
    world stay as they were and no request is posted.  Whatever the
    service does, the crawl of the company returns its row. *)
Theorem enrichment_degrades_to_null :
  forall (World : Type) (E : Sig World) (name : string) (f : frame World),
    (exists f',
        enrich name f = (f', Ok tt)
        /\ f_page f' = f_page f
        /\ f_result f'
           = match Found.report_of name f with
             | Some d => stored d (f_result f)
             | None => f_result f
             end
        /\ (f_result f' = f_result f
            \/ exists website about w' resp data raw d,
                 LlmUtils.unconfigured = false
                 /\ prompt_arg (f_result f !! "Website") = Ok website
                 /\ prompt_arg (f_result f !! "About Us") = Ok about
                 /\ client_post (LlmUtils.request name website about)
                                (world (f_sys f)) = (w', Ok resp)
                 /\ raise_for_status resp = Ok tt
                 /\ resp_json resp = Ok data
                 /\ LlmUtils.content_of data = Ok raw
                 /\ json_loads raw = Ok (VDict d)
                 /\ f_result f' = stored d (f_result f))
        /\ (LlmUtils.unconfigured = true ->
            f_result f' = f_result f
            /\ world (f_sys f') = world (f_sys f)
            /\ exists new, trace (f_sys f') = trace (f_sys f) ++ new
                           /\ posts new = []))
    /\ (forall website about resp data raw d,
           LlmUtils.unconfigured = false ->
           prompt_arg (f_result f !! "Website") = Ok website ->
           prompt_arg (f_result f !! "About Us") = Ok about ->
           (client_post (LlmUtils.request name website about)
                        (world (f_sys f))).2 = Ok resp ->
           raise_for_status resp = Ok tt ->
           resp_json resp = Ok data ->
           LlmUtils.content_of data = Ok raw ->
           raw <> "" ->
           json_loads raw = Ok (VDict d) ->
           (enrich name f).2 = Ok tt
           /\ f_result (enrich name f).1 = stored d (f_result f)
           /\ forall key,
                f_result (enrich name f).1 !! key
                = if decide (key ∈ ENRICH_KEYS)
                  then Some (report_value (dict_get key d))
                  else f_result f !! key)
    /\ (forall d r key,
           stored d r !! key
           = if decide (key ∈ ENRICH_KEYS)
             then Some (report_value (dict_get key d)) else r !! key)
    /\ (report_value None = VNone
        /\ report_value (Some VNone) = VNone
        /\ forall v, v <> VNone ->
             report_value (Some v)
             = if is_nested v then VStr (json_dumps v) else v)
    /\ (forall website (s : sys World),
           exists s' row, App.scrape_company name website s = (s', Ok row)).
Proof.
  intros World E name f.
  assert (exists f',
             enrich name f = (f', Ok tt)
             /\ f_page f' = f_page f
             /\ f_result f'
                = match Found.report_of name f with
                  | Some d => stored d (f_result f)
                  | None => f_result f
                  end) as Hexact by apply EnrichFacts.enrich_exact.
  split; [|split].
  - destruct (EnrichFacts.enrich_run name f) as (f' & He & Hp & Hor & Hq).
    destruct Hexact as (f'' & He' & _ & Hx).
    rewrite He in He'. injection He' as <-.
    exists f'. done.
  - intros website about resp data raw d Eu Ew Ea Ep Es Ej Ec Hraw El.
    destruct Hexact as (f' & He & _ & Hx).
    assert (Found.report_of name f = Some d) as Hd.
    { unfold Found.report_of, Found.reply_text. rewrite Eu, Ew, Ea.
      destruct (client_post (LlmUtils.request name website about)
                            (world (f_sys f))) as [w' r].
      simpl in Ep. subst r. unfold LlmUtils.res_bind.
      rewrite Es, Ej, Ec.
      assert (Py.truthy raw = true) as -> by (by destruct raw).
      by rewrite El. }
    rewrite Hd in Hx. rewrite He. simpl.
    split; [done|]. split; [exact Hx|].
    intros key. rewrite Hx. apply EnrichFacts.stored_lookup.
  - split; [apply EnrichFacts.stored_lookup|]. split.
    + split; [done|]. split; [done|]. intros v Hv. by destruct v.
    + intros website s.
      destruct (NavFacts.scrape_run App.style name website s)
        as (s' & row & Hr & _).
      by exists s', row.
Qed.

Lemma enrichment_degrades_to_null_witness :
  (LlmUtils.unconfigured (H := Script.sig Demo.nowhere) = true
   /\ exists f',
        enrich (H := Script.sig Demo.nowhere) "Acme" Demo.midway = (f', Ok tt)
        /\ f_result f' = f_result Demo.midway
        /\ world (f_sys f') = world (f_sys Demo.midway)
        /\ exists new, trace (f_sys f') = trace (f_sys Demo.midway) ++ new
                       /\ posts new = [])
  /\ (LlmUtils.unconfigured (H := Script.sig Demo.enriched) = false
      /\ (enrich (H := Script.sig Demo.enriched) "Acme" Demo.midway).2
         = Ok tt
      /\ f_result (enrich (H := Script.sig Demo.enriched) "Acme"
                          Demo.midway).1 !! "company_overview"
         = Some (VStr (Script.dumps (VDict [("summary", VStr "Rockets")])))
      /\ f_result (enrich (H := Script.sig Demo.enriched) "Acme"
                          Demo.midway).1 !! "executive_brief"
         = Some (VStr "Acme builds rockets.")
      /\ f_result (enrich (H := Script.sig Demo.enriched) "Acme"
                          Demo.midway).1 !! "leadership"
         = Some VNone
      /\ f_result (enrich (H := Script.sig Demo.enriched) "Acme"
                          Demo.midway).1 !! "business_model"
         = Some VNone
      /\ f_result (enrich (H := Script.sig Demo.enriched) "Acme"
                          Demo.midway).1 !! "Website"
         = Some (VStr Demo.acme)).
Proof.
  assert (LlmUtils.unconfigured (H := Script.sig Demo.nowhere) = true) as Hu
      by reflexivity.
  split.
  - split; [exact Hu|].
    destruct (enrichment_degrades_to_null Script.world
                (Script.sig Demo.nowhere) "Acme" Demo.midway)
      as ((f' & He & _ & _ & _ & Hq) & _).
    destruct (Hq Hu) as (Hr & Hw & Ht).
    exists f'. split; [exact He|]. split; [exact Hr|].
    split; [exact Hw|exact Ht].
  - assert (LlmUtils.unconfigured (H := Script.sig Demo.enriched) = false)
      as Hc by reflexivity.
    split; [exact Hc|].
    destruct (enrichment_degrades_to_null Script.world
                (Script.sig Demo.enriched) "Acme" Demo.midway)
      as (_ & Hw & _).
    destruct (Hw Demo.acme "" (Response (Ok tt) (Ok Demo.answer))
                 Demo.answer "{report}"
                 [("company_overview", VDict [("summary", VStr "Rockets")]);
                  ("executive_brief", VStr "Acme builds rockets.");
                  ("leadership", VNone)]
                 Hc eq_refl eq_refl eq_refl eq_refl eq_refl eq_refl
                 ltac:(discriminate) eq_refl)
      as (He & _ & Hk).
    split; [exact He|].
    rewrite !Hk. repeat split; reflexivity.
Defined.

(** A configured service that answers with a report: a nested section is
    stored as its dump, a scalar as it is, an explicit null and an absent
    key as null; one request is posted. *)
Example enrichment_scripted :
  posts (trace (App.scrape_company (H := Script.sig Demo.enriched) "Acme"
                  Demo.acme Demo.idle).1) = [LlmUtils.endpoint]
  /\ exists row,
       (App.scrape_company (H := Script.sig Demo.enriched) "Acme"
          Demo.acme Demo.idle).2 = Ok row
       /\ row !! "company_overview"
          = Some (VStr (Script.dumps (VDict [("summary", VStr "Rockets")])))
       /\ row !! "executive_brief" = Some (VStr "Acme builds rockets.")
       /\ row !! "leadership" = Some VNone
       /\ row !! "business_model" = Some VNone
       /\ row !! "About Us" = Some (VStr "About us: rockets").
Proof.
  vm_compute. split; [reflexivity|]. eexists. split; [reflexivity|].
  repeat split; reflexivity.
Qed.

(** ** A company whose home page cannot be loaded, and the run around it *)

Module FatalFacts.

Import Rt Env Crawl Spec RtFacts TraverseFacts CrawlFacts.

Lemma null_row_known (st : Crawl.style) (name website : string) :
  known st -> null_row (s_initial st name website) name website.
Proof.
  intros [-> | ->]; (split; [done|]; split; [done|]);
    intros key Hn Hw; simpl; unfold App.initial_result, Server.initial_result;
    simpl; repeat (rewrite lookup_insert; case_decide; [auto; done|]);
    right; apply lookup_empty.
Qed.

Section Fatal.
Context {World : Type} `{Sig World}.
Variable st : style.

Lemma open_home_same_row (name website : string) (f f1 : frame World)
      (r : res string) :
  open_home st name website f = (f1, r) -> f_result f1 = f_result f.
Proof.
  apply (preserves_inv same_row).
  exact (open_home_pres any_sys _ _
           (any_sys_closed (fun _ => True) (fun _ => True))
           same_row _ (same_row_lifted _) st (uses_any st)
           (fun _ => I) I name website).
Qed.

Lemma close_page_same_row (f f1 : frame World) (r : res unit) :
  close_page f = (f1, r) -> f_result f1 = f_result f.
Proof.
  apply (preserves_inv same_row).
  exact (close_page_pres any_sys _ _
           (any_sys_closed (fun _ => True) (fun _ => True))
           same_row _ (same_row_lifted _) I).
Qed.

Lemma close_page_grows (f f1 : frame World) (r : res unit) :
  close_page f = (f1, r) -> grows (f_sys f) (f_sys f1) /\ r = Ok tt.
Proof.
  intros E. split.
  - eapply (preserves_inv (on_sys grows)), E.
    exact (close_page_pres grows _ _ grows_closed
             (on_sys grows) _ (on_sys_lifted grows) I).
  - revert E. unfold close_page, bind, get. simpl.
    destruct (f_page f); [|by intros [= _ <-]].
    unfold attempt. destruct (sysM _ f). by intros [= _ <-].
Qed.

Lemma say_noted (n : note) (s : sys World) : noted n (say n s).1.
Proof.
  destruct n as [l|c p|]; simpl; [| |done].
  - apply elem_of_app. right. by left.
  - unfold push_event. destruct (time_time (world s)) as [w' ts]. simpl.
    exists ts. apply elem_of_app. right. by left.
Qed.

Lemma noted_grows (n : note) (s s' : sys World) :
  noted n s -> grows s s' -> noted n s'.
Proof.
  intros Hn [[t Et] [ev Eev]]. destruct n as [l|c p|]; simpl in *; [| |done].
  - rewrite Et. apply elem_of_app. by left.
  - destruct Hn as [ts Hts]. exists ts. rewrite Eev.
    apply elem_of_app. by left.
Qed.

Lemma guarded_fatal (name website : string) (f f1 : frame World) (e : exn) :
  open_home st name website f = (f1, Raise e) ->
  exists f',
    guarded st name website f = (f', Ok tt)
    /\ f_result f' = f_result f
    /\ noted (s_error st name e) (f_sys f').
Proof.
  intros Ho.
  assert (body st name website f = (f1, Raise e)) as Hb.
  { unfold body. by rewrite (bind_raise _ _ _ _ _ Ho). }
  unfold guarded, finally. unfold bind at 1. unfold attempt at 1.
  rewrite Hb. unfold sysM, zoom.
  pose proof (say_noted (s_error st name e) (f_sys f1)) as Hn.
  rewrite (say_eq (s_error st name e) (f_sys f1)).
  set (s2 := (say (s_error st name e) (f_sys f1)).1) in *.
  destruct (close_page (Frame s2 (f_page f1) (f_result f1)))
    as [f3 r3] eqn:Ec.
  pose proof (close_page_same_row _ _ _ Ec) as Er.
  apply close_page_grows in Ec as [Hg ->].
  exists f3. split; [done|]. split.
  - rewrite Er. simpl. by eapply open_home_same_row.
  - by eapply noted_grows.
Qed.

Lemma scrape_fatal (name website : string) (s : sys World)
      (f1 : frame World) (e : exn) :
  open_home st name website
            (Frame (say (s_start st name) s).1 false
                   (s_initial st name website)) = (f1, Raise e) ->
  exists s',
    scrape st name website s = (s', Ok (s_initial st name website))
    /\ noted (s_error st name e) s'.
Proof.
  intros Ho. unfold scrape.
  rewrite (bind_ok _ _ _ _ _ (say_eq _ s)).
  destruct (guarded_fatal _ _ _ _ _ Ho) as (f' & Eg & Er & Hn).
  rewrite (bind_ok _ _ _ _ _ Eg). simpl.
  exists (f_sys f'). by rewrite Er.
Qed.

End Fatal.

Section Run.
Context {World : Type} `{Sig World}.

Lemma scrape_company_same_job (name website : string) (s : sys World) :
  job_state (App.scrape_company name website s).1 = job_state s.
Proof.
  exact (scrape_pres same_job _ _ same_job_closed
           (on_sys same_job) _ (on_sys_lifted same_job) (fun _ _ => I)
           App.style app_silent (fun _ => I) (fun _ => I) I (fun _ => I) I
           name website (fun _ _ Hf => Hf) s).
Qed.

Lemma scrape_company_identity (name website : string) (s s' : sys World)
      (row : gmap string pyval) :
  App.scrape_company name website s = (s', Ok row) ->
  row !! "Company Name" = Some (VStr name)
  /\ row !! "Website" = Some (VStr website).
Proof.
  unfold App.scrape_company, scrape.
  rewrite (bind_ok _ _ _ _ _ (say_eq _ s)).
  set (f0 := Frame _ false _).
  destruct (NavFacts.guarded_run App.style name website f0) as (f' & Eg & _).
  rewrite (bind_ok _ _ _ _ _ Eg). simpl. intros [= _ <-].
  assert (keeps_identity f0 f') as [E1 E2].
  { eapply (preserves_inv keeps_identity), Eg.
    exact (guarded_pres any_sys _ _
             (any_sys_closed (fun _ => True) (fun _ => True))
             keeps_identity _ keeps_identity_lifted written_not_identity
             App.style (uses_any _) (fun _ => I) (fun _ => I) I
             (fun _ => I) I name website). }
  by rewrite E1, E2.
Qed.

Lemma run_row_run (total idx : nat) (row : gmap string string)
      (s : sys World) :
  is_Some (row !! "company_name") -> is_Some (row !! "website") ->
  exists s' r,
    Server.run_row total idx row s = (s', Ok tt)
    /\ j_results (job_state s') = j_results (job_state s) ++ [r]
    /\ row_done row r.
Proof.
  intros [name Hn] [website Hw]. unfold Server.run_row, Server.cell.
  rewrite Hn, Hw. unfold bind at 1. unfold of_res at 1.
  unfold bind at 1. unfold of_res at 1.
  unfold bind at 1. unfold set_job at 1.
  unfold bind at 1. unfold push_event at 1. simpl.
  destruct (time_time (world s)) as [w1 t1].
  unfold bind at 1.
  set (s1 := Sys w1 _ _).
  destruct (NavFacts.scrape_run App.style name website s1)
    as (s2 & r & Er & _).
  pose proof (scrape_company_same_job name website s1) as Hj.
  pose proof (scrape_company_identity name website s1 s2 r Er) as [I1 I2].
  unfold App.scrape_company in *. rewrite Er in *. simpl in Hj.
  unfold bind at 1. unfold set_job at 1.
  unfold bind at 1. unfold get at 1.
  unfold bind at 1. unfold attempt at 1, call at 1. simpl.
  destruct (to_excel _ (world s2)) as [w3 r3].
  unfold push_event. simpl.
  destruct (time_time w3) as [w4 t4]. simpl.
  eexists _, r. split; [reflexivity|]. simpl. rewrite Hj. simpl.
  split; [done|]. by exists name, website.
Qed.

Lemma run_rows_run (total idx : nat) (rows : list (gmap string string))
      (s : sys World) :
  Forall (fun row => is_Some (row !! "company_name")
                     /\ is_Some (row !! "website")) rows ->
  exists s' rs,
    Server.run_rows total idx rows s = (s', Ok tt)
    /\ j_results (job_state s') = j_results (job_state s) ++ rs
    /\ Forall2 row_done rows rs.
Proof.
  intros Hrows. revert idx s.
  induction Hrows as [|row rows [Hn Hw] _ IH]; intros idx s.
  - exists s, []. by rewrite app_nil_r.
  - simpl.
    destruct (run_row_run total idx row s Hn Hw) as (s1 & r & E1 & R1 & D1).
    rewrite (bind_ok _ _ _ _ _ E1).
    destruct (IH (S idx) s1) as (s' & rs & E & R & D).
    exists s', (r :: rs). split; [done|]. split.
    + by rewrite R, R1, <- app_assoc.
    + by constructor.
Qed.

End Run.

End FatalFacts.

(** C4, as the code has it: when opening the page or loading or reading
    the home page fails, the crawl of the company catches the failure
    and returns the row it started with, null in every field but the
    two identity fields.  [scrape_company], which the run calls, reports
    the failure with a line on the console and leaves the job and its
    event queue alone; [scrape_company_async] reports it as a step event
    carrying the error text.  The run goes on: every row of the table
    yields one result, in order, with the identity of its company. *)
Theorem fatal_failure_null_row :
  forall (World : Type) (E : Sig World) (st : Crawl.style), known st ->
  forall (name website : string) (s : sys World) (f1 : frame World) (e : exn),
    open_home st name website
              (Frame (say (s_start st name) s).1 false
                     (s_initial st name website)) = (f1, Raise e) ->
    (exists s',
        scrape st name website s = (s', Ok (s_initial st name website))
        /\ null_row (s_initial st name website) name website
        /\ (st = App.style ->
            IoPrint (LError name e) ∈ trace s'
            /\ job_state s' = job_state s)
        /\ (st = Server.style ->
            exists ts, Event (EvStep name (StError (exn_msg e))) ts
                       ∈ j_events (job_state s')))
    /\ (forall total idx rows (s0 : sys World),
           Forall (fun row => is_Some (row !! "company_name")
                              /\ is_Some (row !! "website")) rows ->
           exists s' rs,
             Server.run_rows total idx rows s0 = (s', Ok tt)
             /\ j_results (job_state s') = j_results (job_state s0) ++ rs
             /\ Forall2 row_done rows rs).
Proof.
  intros World E st Hst name website s f1 e Ho. split.
  - destruct (FatalFacts.scrape_fatal st name website s f1 e Ho)
      as (s' & Es & Hn).
    exists s'. split; [exact Es|].
    split; [by apply FatalFacts.null_row_known|]. split.
    + intros ->. split; [exact Hn|].
      pose proof (FatalFacts.scrape_company_same_job name website s) as Hj.
      unfold App.scrape_company in Hj. by rewrite Es in Hj.
    + intros ->. exact Hn.
  - intros total idx rows s0. apply FatalFacts.run_rows_run.
Qed.

Lemma fatal_failure_null_row_witness :
  known Server.style
  /\ (open_home (H := Script.sig Demo.nowhere) Server.style "Acme" Demo.acme
        (Frame (say (H := Script.sig Demo.nowhere)
                    (s_start Server.style "Acme") Demo.idle).1 false
               (s_initial Server.style "Acme" Demo.acme))).2
     = Raise Script.timeout
  /\ exists s',
       scrape (H := Script.sig Demo.nowhere) Server.style "Acme" Demo.acme
              Demo.idle
       = (s', Ok (s_initial Server.style "Acme" Demo.acme))
       /\ exists ts,
            Event (EvStep "Acme" (StError "Timeout 90000ms exceeded")) ts
            ∈ j_events (job_state s').
Proof.
  assert (known Server.style) as Hk by (by right).
  set (f0 := Frame (say (H := Script.sig Demo.nowhere)
                        (s_start Server.style "Acme") Demo.idle).1
                   false (s_initial Server.style "Acme" Demo.acme)).
  assert (open_home (H := Script.sig Demo.nowhere) Server.style "Acme"
            Demo.acme f0
          = ((open_home (H := Script.sig Demo.nowhere) Server.style "Acme"
                Demo.acme f0).1, Raise Script.timeout)) as Ho
      by (vm_compute; reflexivity).
  split; [exact Hk|]. split; [vm_compute; reflexivity|].
  destruct (fatal_failure_null_row Script.world (Script.sig Demo.nowhere)
              Server.style Hk "Acme" Demo.acme Demo.idle _ _ Ho)
    as ((s' & Es & _ & _ & Hev) & _).
  exists s'. split; [exact Es|]. exact (Hev eq_refl).
Defined.

(** C4 as it is worded does not hold of the run: the home page of the
    only company cannot be loaded, the run goes through, and the event
    queue holds no step event at all; the failure is a line on the
    console. *)
Lemma run_reports_no_error_step :
  (open_home (H := Script.sig (Demo.table [Demo.acme_row])) App.style
     "Acme" Demo.acme
     (Frame Demo.idle false (App.initial_result "Acme" Demo.acme))).2
  = Raise Script.timeout
  /\ (event_type ∘ ev_data) <$> j_events (job_state Demo.after_run)
     = ["start"; "company_start"; "company_done"; "done"]
  /\ ~ (exists ev company message,
          ev ∈ j_events (job_state Demo.after_run)
          /\ ev_data ev = EvStep company (StError message))
  /\ IoPrint (LError "Acme" Script.timeout) ∈ trace Demo.after_run
  /\ j_status (job_state Demo.after_run) = Done
  /\ j_results (job_state Demo.after_run)
     = [App.initial_result "Acme" Demo.acme].
Proof.
  split; [vm_compute; reflexivity|].
  assert ((event_type ∘ ev_data) <$> j_events (job_state Demo.after_run)
          = ["start"; "company_start"; "company_done"; "done"]) as Hty
      by (vm_compute; reflexivity).
  split; [exact Hty|]. split.
  - intros (ev & company & message & Hin & Hd).
    assert ("step" ∈ (event_type ∘ ev_data)
                       <$> j_events (job_state Demo.after_run)) as Hs.
    { apply list_elem_of_fmap. exists ev. split; [|exact Hin].
      simpl. by rewrite Hd. }
    rewrite Hty in Hs.
    repeat (apply elem_of_cons in Hs as [Hs|Hs]; [discriminate|]).
    by apply elem_of_nil in Hs.
  - split; [|split]; vm_compute; [|reflexivity|reflexivity].
    repeat first [apply list_elem_of_here | apply list_elem_of_further].
Qed.

(** ** The shape of what the extractors return *)

Module ExtractFacts.

Import Re Extract PyFacts ReFacts.

Lemma lit_eq_exact (a c : ascii) : lit_eq false a c = true <-> a = c.
Proof. unfold lit_eq. apply Ascii.eqb_eq. Qed.


Lemma matches_seq_inv (ic : bool) (r1 r2 : regex) (m : string) :
  matches ic (Seq r1 r2) m ->
  exists m1 m2, m = m1 +:+ m2 /\ matches ic r1 m1 /\ matches ic r2 m2.
Proof. inversion 1; subst. by eexists _, _. Qed.

Lemma matches_lit_inv (ic : bool) (a : ascii) (m : string) :
  matches ic (Lit a) m -> exists c, m = String c "" /\ lit_eq ic a c = true.
Proof. inversion 1; subst. by eexists. Qed.


Lemma matches_star (ic : bool) (p : ascii -> bool) (m : string) :
  matches ic (StarCls p) m <-> Py.all_chars p m = true.
Proof.
  split.
  - intros Hm. remember (StarCls p) as r eqn:Er.
    induction Hm as [| | | | |p'|p' c s Hc Hs IH|]; try done.
    injection Er as ->. simpl. by rewrite Hc, IH.
  - induction m as [|c m IH]; simpl; [constructor|].
    intros [Hc Hm]%andb_prop. constructor; auto.
Qed.

Lemma matches_plus (ic : bool) (p : ascii -> bool) (m : string) :
  matches ic (PlusCls p) m <-> m <> "" /\ Py.all_chars p m = true.
Proof.
  split.
  - inversion 1 as [| | | | | | |p' c s Hc Hs]; subst. split; [done|].
    simpl. rewrite Hc. by apply matches_star in Hs.
  - intros [Hne Hall]. destruct m as [|c m]; [done|]. simpl in Hall.
    apply andb_prop in Hall as [Hc Hm]. constructor; [done|].
    by apply (matches_star ic).
Qed.





Lemma contains_char (c : ascii) (s : string) :
  Py.contains (String c "") s = false
  <-> Py.all_chars (fun d => negb (Ascii.eqb c d)) s = true.
Proof.
  induction s as [|d s IH]; [done|].
  rewrite contains_cons. simpl.
  destruct (Ascii.eqb c d); simpl; [|exact IH].
  by destruct s.
Qed.






(** The language of the e-mail pattern. *)
Lemma email_shape (m : string) :
  matches false pat_email m -> Shape.email_text m.
Proof.
  unfold pat_email.
  intros (l & m1 & -> & [Hl Hla]%matches_plus & H1)%matches_seq_inv.
  apply matches_seq_inv in H1
    as (at_ & m2 & -> & (c & -> & Hc%lit_eq_exact)%matches_lit_inv & H2).
  subst c.
  apply matches_seq_inv in H2
    as (d & m3 & -> & [Hd Hda]%matches_plus & H3).
  apply matches_seq_inv in H3
    as (dot & t & -> & (c & -> & Hc%lit_eq_exact)%matches_lit_inv
        & [Ht Hta]%matches_plus).
  subst c.
  exists l, d, t. repeat split; assumption || reflexivity.
Qed.


















(** Lowercasing leaves whitespace where it is. *)
Lemma isspace_lower_char (c : ascii) :
  Py.isspace (Py.lower_char c) = Py.isspace c.
Proof. destruct c as [[] [] [] [] [] [] [] []]; by vm_compute. Qed.














Lemma lower_starts_blank (w x : string) :
  Py.lower w = x -> Shape.starts_blank x = false ->
  Shape.starts_blank w = false.
Proof.
  intros <-. destruct w as [|c w]; [done|]. simpl.
  by rewrite isspace_lower_char.
Qed.








(** Stripping twice is stripping once. *)
Lemma lstrip_starts (s : string) : Shape.starts_blank (Py.lstrip s) = false.
Proof.
  induction s as [|c s IH]; [done|]. simpl.
  destruct (Py.isspace c) eqn:Ec; [done|]. simpl. exact Ec.
Qed.

Lemma lstrip_id (s : string) :
  Shape.starts_blank s = false -> Py.lstrip s = s.
Proof. destruct s as [|c s]; [done|]. simpl. by intros ->. Qed.

Lemma rstrip_starts (s : string) :
  Shape.starts_blank s = false -> Shape.starts_blank (Py.rstrip s) = false.
Proof.
  destruct s as [|c s]; [done|]. simpl. intros Hc.
  destruct (Py.rstrip s); [by rewrite Hc|done].
Qed.

Lemma rstrip_idem (s : string) : Py.rstrip (Py.rstrip s) = Py.rstrip s.
Proof.
  induction s as [|c s IH]; [done|]. simpl.
  destruct (Py.rstrip s) as [|r0 r] eqn:E.
  - destruct (Py.isspace c) eqn:Ec; [done|]. simpl. by rewrite Ec.
  - rewrite rstrip_cons; by rewrite IH.
Qed.

Lemma strip_idem (s : string) : Py.strip (Py.strip s) = Py.strip s.
Proof.
  unfold Py.strip.
  rewrite (lstrip_id (Py.rstrip (Py.lstrip s))).
  - apply rstrip_idem.
  - apply rstrip_starts, lstrip_starts.
Qed.

Lemma email_found :
  forall text m : string,
    Extract.extract_email text = Some m ->
    Spec.extends text m /\ Shape.email_text m.
Proof.
  intros text m (a & (b & -> & Hm) & _)%ReFacts.search_sound. split.
  - by exists a, b.
  - by apply ExtractFacts.email_shape.
Qed.



End ExtractFacts.

(** ** The extractors: what they return and when they return nothing *)

(** X1 ([extract_email]): an address that is returned is a piece of the
    text of the form [local@domain.tld]: a non-empty local part of
    letters, digits and [._%+-], a non-empty domain of letters, digits,
    dots and hyphens, and a non-empty ending of letters only. *)
Theorem extract_email_shape :
  forall text m : string,
    Extract.extract_email text = Some m ->
    Spec.extends text m /\ Shape.email_text m.
Proof. exact ExtractFacts.email_found. Qed.

Lemma extract_email_shape_witness :
  Extract.extract_email DemoText.contact = Some "sales@acme.test"
  /\ Spec.extends DemoText.contact "sales@acme.test"
  /\ Shape.email_text "sales@acme.test".
Proof.
  split; [reflexivity|].
  apply (extract_email_shape DemoText.contact "sales@acme.test").
  reflexivity.
Defined.

(** X2 ([extract_email]): a text without the character [@] has no
    address: the result is [None]. *)
Theorem extract_email_needs_at :
  forall text : string,
    Py.contains "@" text = false -> Extract.extract_email text = None.
Proof.
  intros text Hat.
  destruct (Extract.extract_email text) as [m|] eqn:E; [|done].
  apply ExtractFacts.email_found in E as [(a & b & ->) (l & d & t & -> & _)].
  assert (Py.contains "@" (a +:+ (l +:+ "@" +:+ d +:+ "." +:+ t) +:+ b) = true)
    as Hc; [|congruence].
  apply PyFacts.contains_spec.
  exists (a +:+ l), (d +:+ "." +:+ t +:+ b).
  by rewrite !PyFacts.sapp_assoc.
Qed.

Lemma extract_email_needs_at_witness :
  Py.contains "@" DemoText.no_address = false
  /\ Extract.extract_email DemoText.no_address = None.
Proof.
  split; [reflexivity|].
  apply (extract_email_needs_at DemoText.no_address). reflexivity.
Defined.







(** ** What the crawl writes into the row *)


(** ** One crawl: its pages, its row, its reports *)

Module LifeFacts.

Import Rt Env Crawl Spec Life RtFacts CrawlFacts.

#[export] Instance steps_only_preorder {World : Type} :
  PreOrder (@steps_only World).
Proof.
  split.
  - intros s. split; [reflexivity|]. exists []. split; [|done].
    rewrite app_nil_r. by destruct (job_state s).
  - intros s1 s2 s3 [A1 (e1 & E1 & F1)] [A2 (e2 & E2 & F2)].
    split; [by etrans|]. exists (e1 ++ e2). split; [|by apply Forall_app].
    rewrite E2, E1. simpl. by rewrite app_assoc.
Qed.

#[export] Instance unseen_preorder {World : Type} : PreOrder (@unseen World).
Proof.
  split; [done|]. intros s1 s2 s3 [A1 B1] [A2 B2]. split; congruence.
Qed.

#[export] Instance keeps_columns_preorder {World : Type} (D : gset string) :
  PreOrder (@keeps_columns World D).
Proof.
  split; [intros f HD; exact HD|].
  intros f1 f2 f3 H1 H2 HD. apply H2, H1, HD.
Qed.

#[export] Instance same_page_preorder {World : Type} :
  PreOrder (@same_page World).
Proof.
  split; [done|]. unfold same_page. intros f1 f2 f3 E1 E2. by rewrite E2.
Qed.

Section Relations.
Context {World : Type} `{Sig World}.

Lemma calm_closed :
  closed (adds_only (World := World) no_page_event) (fun _ => True)
         no_page_event.
Proof. by apply adds_only_closed. Qed.

Lemma steps_only_closed :
  closed (steps_only (World := World)) unprinted page_action.
Proof.
  split.
  - apply _.
  - intros A f s. unfold call. destruct (f (world s)). split.
    + exists []. simpl. by rewrite app_nil_r.
    + exists []. simpl. rewrite app_nil_r. split; [|done].
      by destruct (job_state s).
  - intros [l|c p|] Hn s; [done| |reflexivity]. simpl. unfold push_event.
    destruct (time_time (world s)) as [w ts]. split.
    + exists []. simpl. by rewrite app_nil_r.
    + exists [Event (EvStep c p) ts]. simpl. split; [done|].
      constructor; [by exists c, p|done].
  - intros a Ha s. split.
    + exists [a]. simpl. auto.
    + exists []. simpl. rewrite app_nil_r. split; [|done].
      by destruct (job_state s).
Qed.

Lemma unseen_call {A} (f : World -> World * res A) :
  preserves (unseen (World := World)) (call f).
Proof. intros s. unfold call. by destruct (f (world s)). Qed.

Lemma keeps_columns_lifted (D : gset string) :
  lifted (any_sys (World := World)) (keeps_columns D) (fun key => key ∈ D).
Proof.
  split.
  - apply _.
  - intros A m _ f. unfold sysM, zoom, keeps_columns.
    by destruct (m (f_sys f)).
  - by intros b f HD.
  - intros key v Hk f. unfold keeps_columns. simpl. intros HD.
    rewrite dom_insert_L, HD.
    apply subseteq_union_1_L. by apply singleton_subseteq_l.
Qed.

Lemma sysM_same_page {A} (m : M (sys World) A) : preserves same_page (sysM m).
Proof. intros f. unfold sysM, zoom. by destruct (m (f_sys f)). Qed.

Lemma set_result_same_page (key : string) (v : pyval) :
  preserves (same_page (World := World)) (set_result key v).
Proof. done. Qed.

#[export] Instance framed_preorder (I : sys World -> sys World -> Prop)
    `{!PreOrder I} : PreOrder (framed I).
Proof.
  split; [by intros f|].
  intros f1 f2 f3 (A1 & B1 & C1) (A2 & B2 & C2).
  split; [by etrans|]. split; congruence.
Qed.

Lemma sysM_framed {A} (I : sys World -> sys World -> Prop)
      (m : M (sys World) A) :
  preserves I m -> preserves (framed I) (sysM m).
Proof.
  intros Hm f. specialize (Hm (f_sys f)). unfold sysM, zoom.
  by destruct (m (f_sys f)).
Qed.

End Relations.

Section Run.
Context {World : Type} `{Sig World}.
Variable st : style.

(** The function is the guarded body run on a fresh frame. *)
Lemma scrape_unfold (company website : string) (s : sys World) :
  exists f',
    guarded st company website
      (Frame (say (s_start st company) s).1 false
             (s_initial st company website)) = (f', Ok tt)
    /\ scrape st company website s = (f_sys f', Ok (f_result f')).
Proof.
  destruct (NavFacts.guarded_run st company website
              (Frame (say (s_start st company) s).1 false
                     (s_initial st company website))) as (f' & Eg & _).
  exists f'. split; [done|]. unfold scrape.
  rewrite (bind_ok _ _ _ _ _ (TraverseFacts.say_eq _ s)).
  by rewrite (bind_ok _ _ _ _ _ Eg).
Qed.

(** *** The discovery loop *)

Lemma read_anchor_run (website domain : string) (i : nat)
      (s s1 : sys World) (r : res (option (string * nat))) :
  read_anchor st website domain i s = (s1, r) ->
  unseen s s1 /\ forall c, r = Ok (Some c) -> accepted domain c.
Proof.
  unfold read_anchor. intros Hrun.
  apply bind_inv in Hrun as [(s2 & href & E1 & Hrun)|(e & E1 & ->)];
    apply (preserves_inv unseen) in E1; try apply unseen_call; [|done].
  apply bind_inv in Hrun as [(s3 & text & E2 & Hrun)|(e & E2 & ->)];
    apply (preserves_inv unseen) in E2; try apply unseen_call.
  2:{ split; [by etrans|done]. }
  injection Hrun as <- <-. split; [by etrans|].
  intros [url sc] Hc.
  apply DiscoverFacts.candidate_inv in Hc as (h & _ & _ & _ & Hd & _ & Hs).
  by split.
Qed.

Lemma discover_run (website domain : string) (idx : list nat)
      (acc : list (string * nat)) (s : sys World) :
  exists s' added,
    discover st website domain idx acc s = (s', Ok (acc ++ added))
    /\ length added <= length idx
    /\ Forall (accepted domain) added
    /\ unseen s s'.
Proof.
  revert acc s. induction idx as [|i idx IH]; intros acc s.
  - exists s, []. rewrite app_nil_r. by repeat split.
  - cbn [discover]. unfold bind at 1, attempt at 1.
    destruct (read_anchor st website domain i s) as [s1 r] eqn:E.
    apply read_anchor_run in E as [U Hc].
    destruct r as [[c|]|e].
    + destruct (IH (acc ++ [c]) s1) as (s' & added & Ed & Hl & Hf & U').
      exists s', (c :: added). rewrite Ed, <- app_assoc.
      split; [done|]. split; [simpl; lia|].
      split; [constructor; auto|by etrans].
    + destruct (IH acc s1) as (s' & added & Ed & Hl & Hf & U').
      exists s', added. rewrite Ed.
      split; [done|]. split; [simpl; lia|]. split; [done|by etrans].
    + destruct (IH acc s1) as (s' & added & Ed & Hl & Hf & U').
      exists s', added. rewrite Ed.
      split; [done|]. split; [simpl; lia|]. split; [done|by etrans].
Qed.

(** *** The cookie loop *)

Lemma cookie_loop_run (keywords : list string) (s : sys World) :
  exists s',
    cookie_loop st keywords s = (s', Ok tt)
    /\ (unseen s s'
        \/ exists s1, unseen s s1 /\ s' = (say (s_cookie st) s1).1).
Proof.
  revert s. induction keywords as [|kw kws IH]; intros s.
  - exists s. split; [done|by left].
  - cbn [cookie_loop]. unfold bind at 1, attempt at 1.
    destruct (bind (call (locator_count ("text=" +:+ kw))) _ s)
      as [s1 r] eqn:E.
    assert ((r = Ok true
             /\ exists s2, unseen s s2 /\ s1 = (say (s_cookie st) s2).1)
            \/ (r <> Ok true /\ unseen s s1)) as Hr.
    { apply bind_inv in E as [(s2 & n & E1 & E)|(e & E1 & ->)];
        apply (preserves_inv unseen) in E1; try apply unseen_call;
        [|by right].
      destruct (0 <? n).
      - apply bind_inv in E as [(s3 & [] & E2 & E)|(e & E2 & ->)];
          apply (preserves_inv unseen) in E2; try apply unseen_call.
        2:{ right. split; [done|by etrans]. }
        rewrite (bind_ok _ _ _ _ _ (TraverseFacts.say_eq _ s3)) in E.
        injection E as <- <-. left. split; [done|].
        exists s3. split; [by etrans|done].
      - injection E as <- <-. right. by split. }
    destruct Hr as [[-> (s2 & U & ->)]|[Hr U]].
    + eexists. split; [reflexivity|]. right. by exists s2.
    + destruct (IH s1) as (s' & Ec & Hs').
      exists s'. split.
      * destruct r as [[]|e]; done.
      * destruct Hs' as [U'|(s2 & U' & ->)]; [left; by etrans|].
        right. exists s2. split; [by etrans|done].
Qed.

(** *** The page handle *)

Lemma open_home_life (company website : string) (f f' : frame World)
      (r : res string) :
  open_home st company website f = (f', r) ->
  exists after,
    trace (f_sys f') = trace (f_sys f) ++ IoNewPage :: after
    /\ Forall no_page_event after
    /\ f_result f' = f_result f
    /\ f_page f'
       = (if returned (new_page (world (f_sys f))).2 then true else f_page f)
    /\ (returned (new_page (world (f_sys f))).2 = false ->
        after = [] /\ exists e, r = Raise e).
Proof.
  unfold open_home. intros Hrun.
  apply bind_inv in Hrun as [(f1 & [] & E1 & Hrun)|(e & E1 & ->)]; [|done].
  injection E1 as <-.
  apply bind_inv in Hrun as [(f2 & [] & E2 & Hrun)|(e & E2 & ->)];
    unfold sysM, zoom, call in E2; cbn [f_sys world trace job_state] in E2;
    destruct (new_page (world (f_sys f))) as [w1 r1]; injection E2 as <- ->.
  2:{ exists []. simpl. repeat split; try done. by exists e. }
  apply bind_inv in Hrun as [(f3 & [] & E3 & Hrun)|(e & E3 & ->)]; [|done].
  injection E3 as <-.
  apply (preserves_inv (framed (adds_only no_page_event))) in Hrun.
  - destruct Hrun as ((after & Ht & Ha) & Hp & Hr). simpl in *.
    exists after. rewrite Ht, <- app_assoc. by repeat split.
  - repeat (apply preserves_bind; [apply _|apply sysM_framed|intros ?]);
      try apply sysM_framed.
    + by apply (cl_say _ _ _ calm_closed).
    + by apply (cl_emit _ _ _ calm_closed).
    + apply (cl_call _ _ _ calm_closed).
    + apply (cookie_loop_pres _ _ _ calm_closed). apply uses_any.
    + apply (cl_call _ _ _ calm_closed).
Qed.

Lemma close_page_life (f : frame World) :
  exists f',
    close_page f = (f', Ok tt)
    /\ trace (f_sys f') = trace (f_sys f) ++ closing (f_page f)
    /\ job_state (f_sys f') = job_state (f_sys f)
    /\ f_result f' = f_result f.
Proof.
  unfold close_page, bind, get. destruct (f_page f); simpl.
  - unfold attempt, sysM, zoom, bind, emit, call. simpl.
    destruct (page_close (world (f_sys f))) as [w r].
    destruct r; eexists; by repeat split.
  - exists f. rewrite app_nil_r. by repeat split.
Qed.

Lemma store_report_same_page (d : list (string * pyval))
      (keys : list string) :
  preserves same_page (@store_report World _ d keys).
Proof.
  induction keys as [|k keys IH]; simpl; [apply preserves_ret; apply _|].
  apply preserves_bind; [..|by intros _]; try apply _.
  apply set_result_same_page.
Qed.

(** After the home page nothing touches the page handle. *)
Lemma body_tail_same_page (company website text : string) :
  preserves same_page
    (bind (rank_links st company website) (fun candidate_links =>
     bind (sysM (crawl_top3 st company candidate_links text))
          (fun x => match x with
                    | (_, all_text) =>
                        bind (extract_facts all_text) (fun _ =>
                        if s_enrich st then enrich company else ret tt)
                    end))).
Proof.
  unfold rank_links, extract_facts, enrich, enrich_body, parse_report.
  repeat first
    [ match goal with |- PreOrder _ => apply _ end
    | apply preserves_ret | apply preserves_raise | apply preserves_of_res
    | apply preserves_get | apply preserves_attempt
    | apply sysM_same_page | apply set_result_same_page
    | apply store_report_same_page
    | apply preserves_bind; [..|intros ?]
    | match goal with
      | |- preserves _ (match ?x with _ => _ end) => destruct x
      | |- preserves _ (if ?x then _ else _) => destruct x
      end ].
Qed.

Lemma body_tail_calm (company website text : string) :
  preserves (on_sys (adds_only no_page_event))
    (bind (rank_links st company website) (fun candidate_links =>
     bind (sysM (crawl_top3 st company candidate_links text))
          (fun x => match x with
                    | (_, all_text) =>
                        bind (extract_facts all_text) (fun _ =>
                        if s_enrich st then enrich company else ret tt)
                    end))).
Proof.
  pose proof (on_sys_lifted (adds_only (World := World) no_page_event)) as HJ.
  apply preserves_bind; [apply _| |intros cands].
  { apply (rank_links_pres _ _ _ calm_closed _ _ HJ), uses_any. }
  apply preserves_bind; [apply _| |intros [v t]].
  { apply (lf_sys _ _ _ HJ).
    by apply (crawl_top3_pres _ _ _ calm_closed), uses_any. }
  by apply (finish_pres _ _ _ calm_closed _ _ HJ).
Qed.

Lemma body_life (company website : string) (f f' : frame World)
      (r : res unit) :
  body st company website f = (f', r) ->
  exists after,
    trace (f_sys f') = trace (f_sys f) ++ IoNewPage :: after
    /\ Forall no_page_event after
    /\ f_page f'
       = (if returned (new_page (world (f_sys f))).2 then true else f_page f)
    /\ (returned (new_page (world (f_sys f))).2 = false -> after = []).
Proof.
  unfold body. intros Hrun.
  apply bind_inv in Hrun as [(f1 & text & E1 & Hrun)|(e & E1 & ->)];
    apply open_home_life in E1 as (after & Ht & Ha & _ & Hp & Hr).
  2:{ exists after. repeat split; try done. by intros [? _]%Hr. }
  pose proof (preserves_inv _ _ _ _ _ (body_tail_same_page _ _ _) Hrun) as P.
  apply (preserves_inv _ _ _ _ _ (body_tail_calm _ _ _)) in Hrun
    as (more & Hm & Hmore).
  exists (after ++ more). rewrite Hm, Ht, <- app_assoc.
  split; [done|]. split; [by apply Forall_app|]. split; [by rewrite P|].
  by intros [_ [e ?]]%Hr.
Qed.

Lemma guarded_life (company website : string) (f : frame World) :
  f_page f = false ->
  exists f' after,
    guarded st company website f = (f', Ok tt)
    /\ trace (f_sys f')
       = trace (f_sys f) ++ IoNewPage :: after
           ++ closing (returned (new_page (world (f_sys f))).2)
    /\ Forall no_page_event after
    /\ (returned (new_page (world (f_sys f))).2 = false ->
        gotos after = []).
Proof.
  intros Hpage. unfold guarded, finally.
  unfold bind at 1. unfold attempt at 1.
  destruct (body st company website f) as [f1 r1] eqn:Eb.
  apply body_life in Eb as (after & Ht & Ha & Hp & Hn0).
  rewrite Hpage in Hp.
  assert (exists f2 note,
             match r1 with
             | Ok _ => ret ()
             | Raise e => sysM (say (s_error st company e))
             end f1 = (f2, Ok tt)
             /\ trace (f_sys f2) = trace (f_sys f1) ++ note
             /\ Forall no_page_event note
             /\ gotos note = []
             /\ f_page f2 = f_page f1)
    as (f2 & note & -> & Hn & Hno & Hg & Hp2).
  { destruct r1 as [[]|e].
    - exists f1, []. rewrite app_nil_r. by repeat split.
    - unfold sysM, zoom.
      destruct (TraverseFacts.say_run (s_error st company e) (f_sys f1))
        as [_ Hs].
      rewrite (TraverseFacts.say_eq (s_error st company e) (f_sys f1)).
      eexists _, _. split; [reflexivity|]. split; [exact Hs|].
      split; [by destruct (s_error st company e); repeat constructor|].
      split; [apply TraverseFacts.gotos_note|done]. }
  destruct (close_page_life f2) as (f3 & -> & Hc & _).
  exists f3, (after ++ note). split; [done|].
  split; [|split; [by apply Forall_app|]].
  - rewrite Hc, Hn, Ht, Hp2, Hp.
    destruct (returned (new_page (world (f_sys f))).2);
      by rewrite <- !app_assoc.
  - intros ->%Hn0. exact Hg.
Qed.

Lemma scrape_life (company website : string) (s : sys World) :
  exists s' row before after,
    scrape st company website s = (s', Ok row)
    /\ trace s'
       = trace s ++ before ++ IoNewPage :: after
           ++ closing (returned
                         (new_page (world (say (s_start st company) s).1)).2)
    /\ Forall no_page_event before
    /\ Forall no_page_event after
    /\ gotos before = []
    /\ (returned (new_page (world (say (s_start st company) s).1)).2 = false ->
        gotos after = []).
Proof.
  destruct (scrape_unfold company website s) as (f' & Eg & ->).
  destruct (guarded_life company website
              (Frame (say (s_start st company) s).1 false
                     (s_initial st company website)) eq_refl)
    as (f2 & after & Eg' & Ht & Ha & Hg).
  rewrite Eg in Eg'. injection Eg' as <-. simpl in Ht.
  destruct (TraverseFacts.say_run (s_start st company) s) as [_ Hs].
  exists (f_sys f'), (f_result f'), (note_trace (s_start st company)), after.
  split; [done|]. rewrite Ht, Hs, <- app_assoc.
  split; [done|].
  split; [by destruct (s_start st company); repeat constructor|].
  split; [done|]. split; [apply TraverseFacts.gotos_note|exact Hg].
Qed.

End Run.

(** The best candidates come first. *)
Lemma sorted_take_drop {A} (R : A -> A -> Prop) (l : list A) (n : nat)
      (x y : A) :
  StronglySorted R l -> x ∈ take n l -> y ∈ drop n l -> R x y.
Proof.
  intros Hs. revert n.
  induction Hs as [|a l Hs IH Ha]; intros n Hx Hy.
  - destruct n; by apply elem_of_nil in Hx.
  - destruct n as [|n]; [by apply elem_of_nil in Hx|]. simpl in Hx, Hy.
    apply elem_of_cons in Hx as [->|Hx].
    + eapply Forall_forall; [exact Ha|]. by eapply subseteq_drop.
    + by apply (IH n).
Qed.

(** *** A crawl without the enrichment block *)

Section Plain.
Context {World : Type} `{Sig World}.
Variable I : sys World -> sys World -> Prop.
Variables (okN : note -> Prop) (okA : io -> Prop).
Hypothesis HI : closed I okN okA.
Variable J : frame World -> frame World -> Prop.
Variable okK : string -> Prop.
Hypothesis HJ : lifted I J okK.
Hypothesis HK : forall key, key ∈ ["Founded Info"; "About Us"; "Email"] ->
                            okK key.
Variable st : style.
Hypothesis Hst : uses_only st okN.
Hypothesis Hplain : s_enrich st = false.
Hypothesis Hclose : okA IoClose.
Hypothesis Hgoto : forall u, okA (IoGoto u).
Hypothesis Hnew : okA IoNewPage.

#[local] Instance plain_pre_I : PreOrder I := cl_pre _ _ _ HI.
#[local] Instance plain_pre_J : PreOrder J := lf_pre _ _ _ HJ.

Lemma extract_facts_plain (text : string) :
  preserves J (@extract_facts World text).
Proof.
  unfold extract_facts.
  repeat (apply preserves_bind; [..|intros _]; try apply _);
    apply (lf_result _ _ _ HJ), HK;
    repeat first [apply list_elem_of_here | apply list_elem_of_further].
Qed.

Lemma body_plain (company website : string) :
  preserves J (body st company website).
Proof.
  unfold body. rewrite Hplain.
  apply preserves_bind; [..|intros text]; try apply _.
  { by apply (open_home_pres _ _ _ HI _ _ HJ). }
  apply preserves_bind; [..|intros cands]; try apply _.
  { by apply (rank_links_pres _ _ _ HI _ _ HJ). }
  apply preserves_bind; [..|intros [v t]]; try apply _.
  { apply (lf_sys _ _ _ HJ). by apply (crawl_top3_pres _ _ _ HI). }
  apply preserves_bind; [..|intros _]; try apply _.
  - apply extract_facts_plain.
  - apply preserves_ret. apply _.
Qed.

Lemma guarded_plain (company website : string) :
  preserves J (guarded st company website).
Proof.
  unfold guarded. apply preserves_finally; try apply _.
  - apply preserves_bind; [..|intros [[]|e]]; try apply _.
    + apply preserves_attempt; try apply _. apply body_plain.
    + apply preserves_ret. apply _.
    + apply (lf_sys _ _ _ HJ), (cl_say _ _ _ HI), Hst.
  - by apply (close_page_pres _ _ _ HI _ _ HJ).
Qed.

End Plain.

Section Rows.
Context {World : Type} `{Sig World}.

(** The relation between the fresh frame and the frame at the end,
    brought to the result of the function. *)
Lemma scrape_frames (st : style) (J : frame World -> frame World -> Prop)
      (company website : string) (s : sys World) :
  preserves J (guarded st company website) ->
  exists f',
    scrape st company website s = (f_sys f', Ok (f_result f'))
    /\ J (Frame (say (s_start st company) s).1 false
                (s_initial st company website)) f'.
Proof.
  intros HJ. destruct (scrape_unfold st company website s) as (f' & Eg & Es).
  exists f'. split; [done|]. exact (preserves_inv _ _ _ _ _ HJ Eg).
Qed.

Lemma app_columns (company website : string) :
  dom (App.initial_result company website)
  = (list_to_set App.OUTPUT_COLUMNS : gset string).
Proof. unfold App.initial_result. by rewrite dom_list_to_map_L. Qed.

Lemma server_columns (company website : string) :
  dom (Server.initial_result company website)
  = (list_to_set ["Company Name"; "Website"; "Founded Info"; "About Us";
                  "Email"] : gset string).
Proof. unfold Server.initial_result. by rewrite dom_list_to_map_L. Qed.

Lemma app_row_columns (company website : string) (s : sys World) :
  exists s' row,
    App.scrape_company company website s = (s', Ok row)
    /\ dom row = (list_to_set App.OUTPUT_COLUMNS : gset string).
Proof.
  unfold App.scrape_company.
  destruct (scrape_frames App.style
              (keeps_columns (list_to_set App.OUTPUT_COLUMNS))
              company website s) as (f' & Es & HD).
  { apply (guarded_pres _ _ _ (any_sys_closed (fun _ => True) (fun _ => True))
             _ _ (keeps_columns_lifted _)); try done.
    intros key Hk. apply elem_of_list_to_set.
    assert (Forall (fun k => k ∈ App.OUTPUT_COLUMNS) written_keys) as Hall.
    { repeat constructor;
        repeat first [apply list_elem_of_here | apply list_elem_of_further]. }
    by eapply Forall_forall in Hall. }
  eexists _, _. split; [exact Es|]. apply HD, app_columns.
Qed.

Lemma server_row_columns (company website : string) (s : sys World) :
  exists s' row,
    Server.scrape_company_async company website s = (s', Ok row)
    /\ dom row
       = (list_to_set ["Company Name"; "Website"; "Founded Info";
                       "About Us"; "Email"] : gset string).
Proof.
  unfold Server.scrape_company_async.
  destruct (scrape_frames Server.style
              (keeps_columns
                 (list_to_set ["Company Name"; "Website"; "Founded Info";
                               "About Us"; "Email"]))
              company website s) as (f' & Es & HD).
  { apply (guarded_plain _ _ _ (any_sys_closed (fun _ => True) (fun _ => True))
             _ _ (keeps_columns_lifted _)); try done.
    intros key Hk. apply elem_of_list_to_set.
    rewrite !elem_of_cons, elem_of_nil in Hk.
    destruct Hk as [->|[->|[->|[]]]];
      repeat first [apply list_elem_of_here | apply list_elem_of_further]. }
  eexists _, _. split; [exact Es|]. apply HD, server_columns.
Qed.

(** The crawl of the server reports by step events. *)
Lemma async_steps_only (company website : string) (s : sys World) :
  exists s' row,
    Server.scrape_company_async company website s = (s', Ok row)
    /\ steps_only s s'.
Proof.
  unfold Server.scrape_company_async.
  destruct (scrape_frames Server.style (on_sys steps_only)
              company website s) as (f' & Es & HS).
  { apply (guarded_plain _ _ _ steps_only_closed
             _ _ (on_sys_lifted steps_only)); try done. }
  eexists _, _. split; [exact Es|].
  etrans; [|exact HS]. simpl. reflexivity.
Qed.

End Rows.

End LifeFacts.

(** ** The crawl of one company: discovery, pages, row, reports *)

(** X7 (the discovery loop of [scrape_company]): whatever the anchors do,
    a failing read included, the loop returns; it keeps the candidates it
    was given, adds at most one per anchor, each with the domain string
    in its URL and a positive score, and leaves trace and job alone. *)
Theorem discover_never_fails :
  forall (World : Type) (E : Env.Sig World) (st : Crawl.style)
         (website domain : string) (indices : list nat)
         (candidate_links : list (string * nat)) (s : Env.sys World),
    exists s' added,
      Crawl.discover st website domain indices candidate_links s
      = (s', Rt.Ok (candidate_links ++ added))
      /\ length added <= length indices
      /\ Forall (Life.accepted domain) added
      /\ Life.unseen s s'.
Proof. intros World E. exact LifeFacts.discover_run. Qed.

(** X8 (the sort and the slice [candidate_links[:3]]): no candidate
    outside the first three of the ranked list has a higher score than
    one of the three. *)
Theorem top3_are_best_scored :
  forall (World : Type) (E : Env.Sig World) (st : Crawl.style)
         (company website : string) (f f' : Crawl.frame World)
         (l : list (string * nat)),
    Crawl.rank_links st company website f = (f', Rt.Ok l) ->
    forall x y, x ∈ take 3 l -> y ∈ drop 3 l -> y.2 <= x.2.
Proof.
  intros World E st company website f f' l Hl x y Hx Hy.
  apply (DiscoverFacts.rank_links_forall st (fun _ => True)) in Hl as [Hs _];
    [|done].
  exact (LifeFacts.sorted_take_drop _ l 3 x y Hs Hx Hy).
Qed.

Lemma top3_are_best_scored_witness :
  Crawl.rank_links (H := Script.sig Demo.nowhere) App.style "Acme" Demo.acme
                   DemoSite.at_portal
  = (DemoSite.at_portal, Rt.Ok DemoSite.ranking)
  /\ forall x y, x ∈ take 3 DemoSite.ranking -> y ∈ drop 3 DemoSite.ranking ->
                 y.2 <= x.2.
Proof.
  assert (Crawl.rank_links (H := Script.sig Demo.nowhere) App.style "Acme"
                           Demo.acme DemoSite.at_portal
          = (DemoSite.at_portal, Rt.Ok DemoSite.ranking)) as Hl
    by (vm_compute; reflexivity).
  split; [exact Hl|].
  exact (top3_are_best_scored _ _ _ _ _ _ _ _ Hl).
Defined.

(** X9 (the page handle of [scrape_company]): the function returns a
    row; it asks for one page, once, before any navigation; if the page
    was opened it is closed once, as the last action, however the body
    ended; if it was not opened nothing is closed and no navigation is
    made. *)
Theorem scrape_page_lifecycle :
  forall (World : Type) (E : Env.Sig World) (st : Crawl.style)
         (company website : string) (s : Env.sys World),
    exists s' row before after,
      Crawl.scrape st company website s = (s', Rt.Ok row)
      /\ Env.trace s'
         = Env.trace s ++ before ++ Rt.IoNewPage :: after
             ++ Life.closing
                  (Life.returned
                     (Env.new_page
                        (Env.world
                           (Crawl.say (Crawl.s_start st company) s).1)).2)
      /\ Forall Life.no_page_event before
      /\ Forall Life.no_page_event after
      /\ Spec.gotos before = []
      /\ (Life.returned
            (Env.new_page
               (Env.world (Crawl.say (Crawl.s_start st company) s).1)).2
          = false ->
          Spec.gotos after = []).
Proof. intros World E. exact LifeFacts.scrape_life. Qed.

(** X10 (the [result] dict of both crawls): the row that is returned has
    the keys it was created with, no more and no less: the fourteen
    output columns for [scrape_company], the five keys for
    [scrape_company_async]. *)
Theorem rows_keep_their_columns :
  forall (World : Type) (E : Env.Sig World) (company website : string)
         (s : Env.sys World),
    (exists s' row,
        App.scrape_company company website s = (s', Rt.Ok row)
        /\ dom row = (list_to_set App.OUTPUT_COLUMNS : gset string))
    /\ (exists s' row,
           Server.scrape_company_async company website s = (s', Rt.Ok row)
           /\ dom row
              = (list_to_set ["Company Name"; "Website"; "Founded Info";
                              "About Us"; "Email"] : gset string)).
Proof.
  intros World E company website s. split.
  - apply LifeFacts.app_row_columns.
  - apply LifeFacts.server_row_columns.
Qed.

(** X11 (the cookie loop): for both crawls the loop returns whatever the
    locators do, leaves the job alone and adds nothing to the trace but,
    at most once, the line that a pop-up was handled. *)
Theorem cookie_loop_harmless :
  forall (World : Type) (E : Env.Sig World) (st : Crawl.style)
         (keywords : list string) (s : Env.sys World),
    Spec.known st ->
    exists s' new,
      Crawl.cookie_loop st keywords s = (s', Rt.Ok tt)
      /\ Env.trace s' = Env.trace s ++ new
      /\ (new = [] \/ new = [Rt.IoPrint Rt.LCookie])
      /\ Env.job_state s' = Env.job_state s.
Proof.
  intros World E st keywords s Hst.
  destruct (LifeFacts.cookie_loop_run st keywords s)
    as (s' & Ec & [[Ht Hj]|(s1 & [Ht Hj] & ->)]).
  - exists s', []. rewrite app_nil_r. by auto.
  - destruct Hst as [->| ->]; simpl.
    + eexists _, [Rt.IoPrint Rt.LCookie]. split; [exact Ec|].
      simpl. rewrite Ht. by auto.
    + exists s1, []. rewrite app_nil_r. split; [exact Ec|]. by auto.
Qed.

Lemma cookie_loop_harmless_witness :
  Spec.known App.style
  /\ exists s' new,
       Crawl.cookie_loop (H := Script.sig Demo.nowhere) App.style
                         Crawl.COOKIE_KEYWORDS Demo.idle = (s', Rt.Ok tt)
       /\ Env.trace s' = Env.trace Demo.idle ++ new
       /\ (new = [] \/ new = [Rt.IoPrint Rt.LCookie])
       /\ Env.job_state s' = Env.job_state Demo.idle.
Proof.
  assert (Spec.known App.style) as Hk by (by left).
  split; [exact Hk|].
  exact (cookie_loop_harmless _ (Script.sig Demo.nowhere) App.style
           Crawl.COOKIE_KEYWORDS Demo.idle Hk).
Defined.

(** X12 ([scrape_company_async]): the function returns a row; it adds
    page actions to the trace and nothing else, so it prints nothing and
    sends no request; and it changes the job by step events appended to
    the queue, if at all. *)
Theorem async_crawl_reports_by_steps :
  forall (World : Type) (E : Env.Sig World) (company website : string)
         (s : Env.sys World),
    exists s' row,
      Server.scrape_company_async company website s = (s', Rt.Ok row)
      /\ Life.steps_only s s'.
Proof. intros World E. exact LifeFacts.async_steps_only. Qed.

(** ** The enrichment call *)

Module LlmFacts.

Import Rt Env LlmUtils RtFacts.

Lemma content_of_stripped (data : pyval) (raw : string) :
  content_of data = Ok raw -> Py.strip raw = raw.
Proof.
  unfold content_of, res_bind.
  repeat case_match; try done.
  intros [= <-]. apply ExtractFacts.strip_idem.
Qed.

Section Llm.
Context {World : Type} `{Sig World}.

(** The request: one post, and a text only if it is non-empty. *)
Lemma ask_run (name website about : string) (s s1 : sys World)
      (r : res (option string)) :
  ask name website about s = (s1, r) ->
  trace s1 = trace s ++ [IoPost endpoint]
  /\ job_state s1 = job_state s
  /\ forall o, r = Ok o ->
       o = None \/ exists raw, o = Some raw /\ raw <> ""
                               /\ Py.strip raw = raw.
Proof.
  unfold ask. intros Hrun.
  apply bind_inv in Hrun as [(s2 & [] & E1 & Hrun)|(e & E1 & ->)]; [|done].
  injection E1 as <-.
  apply bind_inv in Hrun as [(s3 & resp & E2 & Hrun)|(e & E2 & ->)];
    unfold call in E2; cbn [world trace job_state] in E2;
    destruct (client_post _ (world s)) as [w1 r1]; injection E2 as <- ->;
    [|done].
  apply bind_inv in Hrun as [(s4 & [] & E3 & Hrun)|(e & E3 & ->)];
    injection E3 as <- E3; [|done].
  apply bind_inv in Hrun as [(s5 & data & E4 & Hrun)|(e & E4 & ->)];
    injection E4 as <- E4; [|done].
  apply bind_inv in Hrun as [(s6 & content & E5 & Hrun)|(e & E5 & ->)];
    injection E5 as <- E5; [|done].
  injection Hrun as <- <-. split; [done|]. split; [done|].
  intros o [= <-]. destruct content as [|c content]; [by left|right].
  exists (String c content). split; [done|]. split; [done|].
  by apply (content_of_stripped data).
Qed.

Lemma preprocess_outcomes (name website about : string) (s : sys World) :
  exists s' o new,
    preprocess_about_with_llm name website about s = (s', Ok o)
    /\ trace s' = trace s ++ new
    /\ job_state s' = job_state s
    /\ ((unconfigured = true /\ new = [IoPrint LLlmSkipped] /\ o = None
         /\ world s' = world s)
        \/ (unconfigured = false /\ new = [IoPost endpoint]
            /\ (o = None \/ exists raw, o = Some raw /\ raw <> ""
                                        /\ Py.strip raw = raw))
        \/ (unconfigured = false /\ o = None
            /\ exists e, new = [IoPost endpoint; IoPrint (LLlmFailed e)])).
Proof.
  unfold preprocess_about_with_llm. destruct unconfigured.
  - eexists _, _, _. split; [reflexivity|]. simpl.
    split; [done|]. split; [done|]. left. by repeat split.
  - unfold bind at 1, attempt at 1.
    destruct (ask name website about s) as [s1 r] eqn:E.
    apply ask_run in E as (Ht & Hj & Ho).
    destruct r as [o|e].
    + exists s1, o, [IoPost endpoint]. split; [done|].
      split; [done|]. split; [done|]. right. left. by auto.
    + eexists _, _, [IoPost endpoint; IoPrint (LLlmFailed e)].
      split; [reflexivity|]. simpl. rewrite Ht, <- app_assoc.
      split; [done|]. split; [done|]. right. right.
      split; [done|]. split; [done|]. by exists e.
Qed.

(** The outcome of the call, tied to the reply of the service: what is
    returned is the content of the reply, or nothing when that content
    is empty or the reply cannot be read. *)
Lemma preprocess_settled (name website about : string) (s : sys World) :
  exists s' o new,
    preprocess_about_with_llm name website about s = (s', Ok o)
    /\ trace s' = trace s ++ new
    /\ job_state s' = job_state s
    /\ ((unconfigured = true /\ new = [IoPrint LLlmSkipped] /\ o = None
         /\ world s' = world s)
        \/ (unconfigured = false /\ new = [IoPost endpoint]
            /\ (o = None \/ exists raw, o = Some raw /\ raw <> ""
                                        /\ Py.strip raw = raw))
        \/ (unconfigured = false /\ o = None
            /\ exists e, new = [IoPost endpoint; IoPrint (LLlmFailed e)]))
    /\ (unconfigured = false ->
        world s' = (client_post (request name website about) (world s)).1
        /\ match Found.reply_text name website about (world s) with
           | Ok raw =>
               new = [IoPost endpoint]
               /\ o = (if Py.truthy raw then Some raw else None)
           | Raise e =>
               new = [IoPost endpoint; IoPrint (LLlmFailed e)] /\ o = None
           end)
    /\ (forall resp data raw,
           unconfigured = false ->
           (client_post (request name website about) (world s)).2 = Ok resp ->
           raise_for_status resp = Ok tt ->
           resp_json resp = Ok data ->
           content_of data = Ok raw ->
           new = [IoPost endpoint]
           /\ (raw = "" -> o = None)
           /\ (raw <> "" -> o = Some raw))
    /\ (forall raw,
           o = Some raw ->
           unconfigured = false
           /\ exists resp data,
                (client_post (request name website about) (world s)).2
                = Ok resp
                /\ raise_for_status resp = Ok tt
                /\ resp_json resp = Ok data
                /\ content_of data = Ok raw).
Proof.
  destruct (preprocess_outcomes name website about s)
    as (s' & o & new & Hrun & Ht & Hj & Hd).
  assert (unconfigured = false ->
          world s' = (client_post (request name website about) (world s)).1
          /\ match Found.reply_text name website about (world s) with
             | Ok raw =>
                 new = [IoPost endpoint]
                 /\ o = (if Py.truthy raw then Some raw else None)
             | Raise e =>
                 new = [IoPost endpoint; IoPrint (LLlmFailed e)] /\ o = None
             end) as Hexact.
  { intros Eu.
    rewrite (EnrichFacts.preprocess_exact name website about s Eu) in Hrun.
    destruct (Found.reply_text name website about (world s)) as [raw|e];
      injection Hrun as <- <-; cbn [world trace] in *;
      apply app_inv_head in Ht as <-; done. }
  exists s', o, new. split; [exact Hrun|]. split; [exact Ht|].
  split; [exact Hj|]. split; [exact Hd|]. split; [exact Hexact|]. split.
  - intros resp data raw Eu Ep Es Ej Ec.
    destruct (Hexact Eu) as [_ Hm].
    unfold Found.reply_text in Hm.
    destruct (client_post (request name website about) (world s))
      as [w' r]. simpl in Ep. subst r.
    unfold res_bind in Hm. rewrite Es, Ej, Ec in Hm.
    destruct Hm as [-> ->]. split; [done|].
    by destruct raw.
  - intros raw ->.
    destruct (EnrichFacts.preprocess_run name website about s)
      as (s'' & o' & Hrun' & Ho).
    rewrite Hrun in Hrun'. injection Hrun' as _ <-.
    destruct (Ho raw eq_refl) as (Eu & w' & resp & data & Ep & Es & Ej & Ec).
    split; [exact Eu|]. exists resp, data. by rewrite Ep.
Qed.

End Llm.

End LlmFacts.

(** ** Requests to the enrichment service, and the two scorers *)

Module RequestFacts.

Import Rt Env Crawl Spec Life RtFacts CrawlFacts LifeFacts.

Lemma posts_none (new : list io) : Forall not_post new -> posts new = [].
Proof.
  induction 1 as [|a new Ha _ IH]; [done|].
  by destruct a.
Qed.

Lemma one_request_quiet (a b : list io) :
  one_request a -> Forall not_post b -> one_request (a ++ b).
Proof.
  intros Ha Hb. unfold one_request.
  by rewrite EnrichFacts.posts_app, (posts_none b Hb), app_nil_r.
Qed.

Lemma quiet_one_request (a b : list io) :
  Forall not_post a -> one_request b -> one_request (a ++ b).
Proof.
  intros Ha Hb. unfold one_request.
  by rewrite EnrichFacts.posts_app, (posts_none a Ha).
Qed.

Section Requests.
Context {World : Type} `{Sig World}.

Lemma silent_closed :
  closed (adds_only (World := World) not_post) (fun _ => True) not_post.
Proof. by apply adds_only_closed. Qed.

(** Storing and parsing a reply send nothing. *)
Lemma after_reply_silent (name : string) (raw_json : option string) :
  preserves (on_sys (adds_only (World := World) not_post))
    (match raw_json with
     | None => ret tt
     | Some raw_json =>
         if Py.truthy raw_json then
           bind (parse_report name raw_json) (fun parsed =>
           match parsed with
           | VDict d => store_report d ENRICH_KEYS
           | _ => ret tt
           end)
         else ret tt
     end).
Proof.
  pose proof (on_sys_lifted (adds_only (World := World) not_post)) as HJ.
  unfold parse_report.
  repeat first
    [ match goal with |- PreOrder _ => apply _ end
    | apply preserves_ret | apply preserves_raise | apply preserves_of_res
    | apply preserves_attempt
    | apply (store_enrich_pres _ _ _ HJ); done
    | apply (lf_sys _ _ _ HJ), (cl_emit _ _ _ silent_closed); done
    | apply preserves_bind; [..|intros ?]
    | match goal with
      | |- preserves _ (match ?x with _ => _ end) => destruct x
      | |- preserves _ (if ?x then _ else _) => destruct x
      end ].
Qed.

Lemma enrich_body_requests (name : string) (f f' : frame World)
      (r : res unit) :
  enrich_body name f = (f', r) ->
  exists new,
    trace (f_sys f') = trace (f_sys f) ++ new /\ one_request new
    /\ (LlmUtils.unconfigured = true -> posts new = []).
Proof.
  unfold enrich_body. intros Hrun.
  apply bind_inv in Hrun as [(f1 & f0 & E1 & Hrun)|(e & E1 & ->)]; [|done].
  injection E1 as <- <-.
  apply bind_inv in Hrun as [(f2 & website & E2 & Hrun)|(e & E2 & ->)];
    injection E2 as <- E2.
  2:{ exists []. rewrite app_nil_r. split; [done|]. split; [by left|done]. }
  apply bind_inv in Hrun as [(f3 & about & E3 & Hrun)|(e & E3 & ->)];
    injection E3 as <- E3.
  2:{ exists []. rewrite app_nil_r. split; [done|]. split; [by left|done]. }
  destruct (LlmFacts.preprocess_outcomes name website about (f_sys f))
    as (s1 & o & new & Ep & Ht & _ & Hcases).
  assert (one_request new /\ (LlmUtils.unconfigured = true -> posts new = []))
    as [Hone Hoff].
  { destruct Hcases as [(Hu & -> & _)|[(Hu & -> & _)|(Hu & _ & e & ->)]].
    - split; [by left|done].
    - split; [by right|]. congruence.
    - split; [by right|]. congruence. }
  apply bind_inv in Hrun as [(f4 & raw & E4 & Hrun)|(e & E4 & ->)];
    apply NavFacts.sysM_run in E4 as (E4 & _); rewrite Ep in E4;
    [|discriminate].
  injection E4 as E4 <-.
  apply (preserves_inv _ _ _ _ _ (after_reply_silent name o)) in Hrun
    as (more & Hm & Hmore).
  exists (new ++ more). rewrite Hm, <- E4, Ht, <- app_assoc.
  split; [done|]. split; [by apply one_request_quiet|].
  intros Hu. by rewrite EnrichFacts.posts_app, (Hoff Hu), (posts_none more).
Qed.

Lemma enrich_requests (name : string) (f f' : frame World) (r : res unit) :
  enrich name f = (f', r) ->
  exists new,
    trace (f_sys f') = trace (f_sys f) ++ new /\ one_request new
    /\ (LlmUtils.unconfigured = true -> posts new = []).
Proof.
  unfold enrich. unfold bind at 1, attempt at 1.
  destruct (enrich_body name f) as [f1 r1] eqn:E.
  apply enrich_body_requests in E as (new & Ht & Hone & Hoff).
  destruct r1 as [[]|e].
  - intros [= <- _]. by exists new.
  - unfold sysM, zoom, print, emit. intros [= <- _]. simpl.
    exists (new ++ [IoPrint (LLlmError name e)]).
    rewrite Ht, <- app_assoc. split; [done|].
    split; [apply one_request_quiet; [done|by repeat constructor]|].
    intros Hu. by rewrite EnrichFacts.posts_app, (Hoff Hu).
Qed.

Variable st : style.

Lemma body_requests (company website : string) (f f' : frame World)
      (r : res unit) :
  body st company website f = (f', r) ->
  exists new,
    trace (f_sys f') = trace (f_sys f) ++ new /\ one_request new
    /\ (LlmUtils.unconfigured = true \/ s_enrich st = false -> posts new = []).
Proof.
  pose proof (on_sys_lifted (adds_only (World := World) not_post)) as HJ.
  assert (forall (f1 f2 : frame World),
             on_sys (adds_only not_post) f1 f2 ->
             exists new,
               trace (f_sys f2) = trace (f_sys f1) ++ new /\ one_request new
               /\ (LlmUtils.unconfigured = true \/ s_enrich st = false ->
                   posts new = [])) as Hquiet.
  { intros f1 f2 (new & Ht & Hn). exists new. split; [done|].
    split; [left|intros _]; by apply posts_none. }
  unfold body. intros Hrun.
  apply bind_inv in Hrun as [(f1 & text & E1 & Hrun)|(e & E1 & ->)];
    apply (preserves_inv (on_sys (adds_only not_post))) in E1;
    try (by apply (open_home_pres _ _ _ silent_closed _ _ HJ), uses_any).
  2:{ by apply Hquiet. }
  apply bind_inv in Hrun as [(f2 & cands & E2 & Hrun)|(e & E2 & ->)];
    apply (preserves_inv (on_sys (adds_only not_post))) in E2;
    try (by apply (rank_links_pres _ _ _ silent_closed _ _ HJ), uses_any).
  2:{ apply Hquiet. by etrans. }
  apply bind_inv in Hrun as [(f3 & [v t] & E3 & Hrun)|(e & E3 & ->)];
    apply (preserves_inv (on_sys (adds_only not_post))) in E3;
    try (apply (lf_sys _ _ _ HJ);
         by apply (crawl_top3_pres _ _ _ silent_closed), uses_any).
  2:{ apply Hquiet. etrans; [exact E1|]. by etrans. }
  apply bind_inv in Hrun as [(f4 & [] & E4 & Hrun)|(e & E4 & ->)];
    apply (preserves_inv (on_sys (adds_only not_post))) in E4;
    try (by apply (extract_facts_pres _ _ _ HJ)).
  2:{ apply Hquiet. etrans; [exact E1|]. etrans; [exact E2|]. by etrans. }
  assert (on_sys (adds_only not_post) f f4) as (pre & Hpre & Hq).
  { etrans; [exact E1|]. etrans; [exact E2|]. by etrans. }
  destruct (s_enrich st) eqn:Een.
  - apply enrich_requests in Hrun as (new & Ht & Hone & Hoff).
    exists (pre ++ new). rewrite Ht, Hpre, <- app_assoc. split; [done|].
    split; [by apply quiet_one_request|].
    intros [Hu|?]; [|done].
    by rewrite EnrichFacts.posts_app, (posts_none pre Hq), (Hoff Hu).
  - injection Hrun as <- _. apply Hquiet. by exists pre.
Qed.

Lemma scrape_requests (company website : string) (s : sys World) :
  exists s' row new,
    scrape st company website s = (s', Ok row)
    /\ trace s' = trace s ++ new
    /\ one_request new
    /\ (LlmUtils.unconfigured = true \/ s_enrich st = false -> posts new = []).
Proof.
  destruct (scrape_unfold st company website s) as (f' & Eg & ->).
  exists (f_sys f'), (f_result f').
  destruct (TraverseFacts.say_run (s_start st company) s) as [_ Hs].
  revert Eg. unfold guarded, finally. unfold bind at 1. unfold attempt at 1.
  destruct (body st company website _) as [f1 r1] eqn:Eb.
  apply body_requests in Eb as (new & Ht & Hone & Hoff). simpl in Ht.
  destruct (match r1 with
            | Ok _ => ret ()
            | Raise e => sysM (say (s_error st company e))
            end f1) as [f2 r2] eqn:Eh.
  assert (exists note, trace (f_sys f2) = trace (f_sys f1) ++ note
                       /\ Forall not_post note) as (note & Hn & Hno).
  { destruct r1 as [[]|e].
    - injection Eh as <- _. exists []. by rewrite app_nil_r.
    - unfold sysM, zoom in Eh.
      destruct (TraverseFacts.say_run (s_error st company e) (f_sys f1))
        as [_ Hsay].
      destruct (say (s_error st company e) (f_sys f1)) as [s2 r].
      injection Eh as <- _. simpl in *. eexists. split; [exact Hsay|].
      by destruct (s_error st company e); repeat constructor. }
  destruct (close_page_life f2) as (f3 & -> & Hc & _).
  intros [= <-].
  exists (note_trace (s_start st company) ++ new ++ note
          ++ closing (f_page f2)).
  split; [done|].
  split; [rewrite Hc, Hn, Ht, Hs; by rewrite <- !app_assoc|].
  assert (Forall not_post (note_trace (s_start st company))) as Hstart
    by (by destruct (s_start st company); repeat constructor).
  assert (Forall not_post (note ++ closing (f_page f2))) as Hend.
  { apply Forall_app. split; [done|].
    by destruct (f_page f2); repeat constructor. }
  split.
  - apply quiet_one_request; [done|]. by apply one_request_quiet.
  - intros Hcase.
    rewrite !EnrichFacts.posts_app, (posts_none _ Hstart), (Hoff Hcase).
    rewrite <- EnrichFacts.posts_app. by rewrite (posts_none _ Hend).
Qed.

End Requests.

(** The two scorers. *)
Lemma score_bound (kws : list string) (t u : string) :
  score_server kws t u <= 5 * length kws.
Proof.
  rewrite ScorerFacts.score_server_hits. unfold keyword_hits.
  pose proof (length_filter (fun kw => Py.contains kw t = true) kws).
  pose proof (length_filter (fun kw => Py.contains kw (Py.lower u) = true) kws).
  lia.
Qed.

End RequestFacts.

(** ** [llm_utils.py] *)

(** X13 ([preprocess_about_with_llm]): the call never raises and leaves
    the job alone.  Without a key or a model it prints that it skips,
    posts nothing and gives [None]; otherwise it posts one request to
    the endpoint, and either gives the content, stripped and non-empty,
    or [None] for an empty content, or prints the failure and gives
    [None].  What it gives is fixed by the reply: when the post is
    answered with a good status and a body whose content can be read,
    the call returns that very content, or [None] if it is empty; when
    the post, the status, the decoding or the reading of the content
    raises, the call prints that exception and returns [None]; and a
    text is returned only if it is the content of the reply. *)
Theorem llm_call_outcomes :
  forall (World : Type) (E : Env.Sig World) (name website about : string)
         (s : Env.sys World),
    exists s' o new,
      LlmUtils.preprocess_about_with_llm name website about s = (s', Rt.Ok o)
      /\ Env.trace s' = Env.trace s ++ new
      /\ Env.job_state s' = Env.job_state s
      /\ ((LlmUtils.unconfigured = true
           /\ new = [Rt.IoPrint Rt.LLlmSkipped] /\ o = None
           /\ Env.world s' = Env.world s)
          \/ (LlmUtils.unconfigured = false
              /\ new = [Rt.IoPost LlmUtils.endpoint]
              /\ (o = None \/ exists raw, o = Some raw /\ raw <> ""
                                          /\ Py.strip raw = raw))
          \/ (LlmUtils.unconfigured = false /\ o = None
              /\ exists e,
                   new = [Rt.IoPost LlmUtils.endpoint;
                          Rt.IoPrint (Rt.LLlmFailed e)]))
      /\ (LlmUtils.unconfigured = false ->
          Env.world s'
          = (Env.client_post (LlmUtils.request name website about)
                             (Env.world s)).1
          /\ match Found.reply_text name website about (Env.world s) with
             | Rt.Ok raw =>
                 new = [Rt.IoPost LlmUtils.endpoint]
                 /\ o = (if Py.truthy raw then Some raw else None)
             | Rt.Raise e =>
                 new = [Rt.IoPost LlmUtils.endpoint;
                        Rt.IoPrint (Rt.LLlmFailed e)]
                 /\ o = None
             end)
      /\ (forall resp data raw,
             LlmUtils.unconfigured = false ->
             (Env.client_post (LlmUtils.request name website about)
                              (Env.world s)).2 = Rt.Ok resp ->
             Env.raise_for_status resp = Rt.Ok tt ->
             Env.resp_json resp = Rt.Ok data ->
             LlmUtils.content_of data = Rt.Ok raw ->
             new = [Rt.IoPost LlmUtils.endpoint]
             /\ (raw = "" -> o = None)
             /\ (raw <> "" -> o = Some raw))
      /\ (forall raw,
             o = Some raw ->
             LlmUtils.unconfigured = false
             /\ exists resp data,
                  (Env.client_post (LlmUtils.request name website about)
                                   (Env.world s)).2 = Rt.Ok resp
                  /\ Env.raise_for_status resp = Rt.Ok tt
                  /\ Env.resp_json resp = Rt.Ok data
                  /\ LlmUtils.content_of data = Rt.Ok raw).
Proof. intros World E. exact LlmFacts.preprocess_settled. Qed.

Lemma llm_call_outcomes_witness :
  LlmUtils.unconfigured (H := Script.sig Demo.enriched) = false
  /\ exists s',
       LlmUtils.preprocess_about_with_llm (H := Script.sig Demo.enriched)
         "Acme" Demo.acme "About us: rockets" Demo.idle
       = (s', Rt.Ok (Some "{report}"))
       /\ Env.trace s' = [Rt.IoPost LlmUtils.endpoint].
Proof.
  assert (LlmUtils.unconfigured (H := Script.sig Demo.enriched) = false)
    as Hc by reflexivity.
  split; [exact Hc|].
  destruct (llm_call_outcomes Script.world (Script.sig Demo.enriched)
              "Acme" Demo.acme "About us: rockets" Demo.idle)
    as (s' & o & new & Hrun & Ht & _ & _ & _ & Hgood & _).
  destruct (Hgood (Env.Response (Rt.Ok tt) (Rt.Ok Demo.answer)) Demo.answer
                  "{report}" Hc eq_refl eq_refl eq_refl eq_refl)
    as (Hn & _ & Ho).
  exists s'. rewrite Hrun, Ht, Hn, (Ho ltac:(discriminate)). done.
Defined.

(** X21 ([scrape_company] and [preprocess_about_with_llm]): one crawl
    sends at most one request, and that to the endpoint of the service;
    it sends none when the service is not configured, and none in the
    crawl without the enrichment block. *)
Theorem one_request_per_company :
  forall (World : Type) (E : Env.Sig World) (st : Crawl.style)
         (company website : string) (s : Env.sys World),
    exists s' row new,
      Crawl.scrape st company website s = (s', Rt.Ok row)
      /\ Env.trace s' = Env.trace s ++ new
      /\ Life.one_request new
      /\ (LlmUtils.unconfigured = true \/ Crawl.s_enrich st = false ->
          Spec.posts new = []).
Proof. intros World E. exact RequestFacts.scrape_requests. Qed.

(** X22 (the two scoring loops): the loop of [app.py] and the sum of
    [server.py] give the same score for every keyword list, text and
    URL, and the score is at most five per keyword. *)
Theorem scorers_agree :
  forall (keywords : list string) (link_text full_url : string),
    Crawl.score_app keywords link_text full_url
    = Crawl.score_server keywords link_text full_url
    /\ Crawl.score_server keywords link_text full_url <= 5 * length keywords.
Proof.
  intros keywords link_text full_url. split.
  - apply ScorerFacts.score_app_server.
  - apply RequestFacts.score_bound.
Qed.

(** ** The job server: upload, worker, progress stream *)

Module ServerFacts.

Import Rt Env Crawl Spec Life Flow RtFacts CrawlFacts LifeFacts.

#[export] Instance advances_preorder {World : Type} :
  PreOrder (@advances World).
Proof.
  split.
  - intros s. by split.
  - intros s1 s2 s3 [G1 (A1 & B1 & C1)] [G2 (A2 & B2 & C2)].
    split; [by etrans|]. repeat split; congruence.
Qed.

Lemma bind_inv_ok {S A B} (m : M S A) (k : A -> M S B) s s' b :
  bind m k s = (s', Ok b) ->
  exists s1 a, m s = (s1, Ok a) /\ k a s1 = (s', Ok b).
Proof.
  intros [(s1 & a & E & Hk)|(e & _ & [=])]%bind_inv. by exists s1, a.
Qed.

Section Server.
Context {World : Type} `{Sig World}.

(** *** Upload *)

(** Every way the route can end. *)
Lemma upload_outcome (file : option string) (s s' : sys World)
      (r : res Server.reply) :
  Server.upload file s = (s', r) ->
  (j_status (job_state s) = Running /\ r = Ok Server.Conflict /\ s' = s)
  \/ (j_status (job_state s) <> Running
      /\ ((s' = s /\ (r = Ok Server.NoFile \/ r = Ok Server.BadExtension))
          \/ (unseen s s'
              /\ ((exists e, r = Raise e)
                  \/ (exists e, r = Ok (Server.Unreadable e))
                  \/ (exists found, r = Ok (Server.MissingColumns found))))
          \/ (exists job_id filename,
                 r = Ok (Server.Started job_id)
                 /\ file = Some filename
                 /\ Server.allowed_name filename = true
                 /\ trace s'
                    = trace s ++ [IoThread (Server.UPLOAD_FOLDER +:+ "/"
                                            +:+ job_id +:+ "_" +:+ filename)]
                 /\ job_state s'
                    = Job (Some job_id) Running 0 0 "" "" [] [] None))).
Proof.
  unfold Server.upload. unfold bind at 1, get at 1. intros Hrun.
  assert (j_status (job_state s) = Running
          \/ j_status (job_state s) <> Running) as [E|NE]
    by (destruct (j_status (job_state s)); auto).
  { left. rewrite E in Hrun. by injection Hrun as <- <-. }
  right. split; [done|].
  assert (match file with
          | None => ret Server.NoFile
          | Some filename =>
              if negb (Server.allowed_name filename)
              then ret Server.BadExtension
              else
                bind (call (fun w => let (w', u) := uuid4_8 w in (w', Ok u)))
                  (fun job_id =>
                   bind (call (file_save
                                 (Server.UPLOAD_FOLDER +:+ "/" +:+ job_id
                                  +:+ "_" +:+ filename)))
                     (fun _ =>
                      bind (attempt
                              (if Py.endswith ".csv"
                                    (Server.UPLOAD_FOLDER +:+ "/" +:+ job_id
                                     +:+ "_" +:+ filename)
                               then call (read_csv
                                            (Server.UPLOAD_FOLDER +:+ "/"
                                             +:+ job_id +:+ "_" +:+ filename))
                               else call (read_excel
                                            (Server.UPLOAD_FOLDER +:+ "/"
                                             +:+ job_id +:+ "_" +:+ filename))))
                        (fun r0 =>
                         match r0 with
                         | Raise e => ret (Server.Unreadable e)
                         | Ok df =>
                             if negb (Server.has_required (df_columns df))
                             then ret (Server.MissingColumns (df_columns df))
                             else
                               bind (set_job (fun _ =>
                                       Job (Some job_id) Running 0 0 "" ""
                                           [] [] None))
                                 (fun _ =>
                                  bind (emit (IoThread
                                          (Server.UPLOAD_FOLDER +:+ "/"
                                           +:+ job_id +:+ "_" +:+ filename)))
                                    (fun _ => ret (Server.Started job_id)))
                         end)))
          end s = (s', r)) as Hrest.
  { destruct (j_status (job_state s)); done. }
  clear Hrun. destruct file as [filename|].
  2:{ injection Hrest as <- <-. left. by auto. }
  destruct (Server.allowed_name filename) eqn:Eallowed; simpl in Hrest.
  2:{ injection Hrest as <- <-. left. by auto. }
  apply bind_inv in Hrest as [(s1 & job_id & E1 & Hrest)|(e & E1 & ->)];
    apply (preserves_inv unseen) in E1; try apply unseen_call.
  2:{ right. left. split; [done|]. left. by exists e. }
  apply bind_inv in Hrest as [(s2 & [] & E2 & Hrest)|(e & E2 & ->)];
    apply (preserves_inv unseen) in E2; try apply unseen_call.
  2:{ right. left. split; [by etrans|]. left. by exists e. }
  apply bind_inv in Hrest as [(s3 & r0 & E3 & Hrest)|(e & E3 & ->)].
  2:{ unfold attempt in E3. by destruct (_ s2). }
  apply (preserves_inv unseen) in E3.
  2:{ apply preserves_attempt. destruct (Py.endswith _ _); apply unseen_call. }
  assert (unseen s s3) as U by (etrans; [exact E1|by etrans]).
  destruct r0 as [df|e].
  - destruct (negb (Server.has_required (df_columns df))).
    + injection Hrest as <- <-. right. left. split; [done|].
      right. right. by eexists.
    + unfold bind, set_job, emit, ret in Hrest. injection Hrest as <- <-.
      right. right. exists job_id, filename. destruct U as [Ut _].
      simpl. by rewrite Ut.
  - injection Hrest as <- <-. right. left. split; [done|].
    right. left. by exists e.
Qed.

Lemma upload_rejected (file : option string) (s s' : sys World)
      (r : res Server.reply) :
  Server.upload file s = (s', r) ->
  (forall job_id, r <> Ok (Server.Started job_id)) ->
  unseen s s'
  /\ (r = Ok Server.Conflict \/ r = Ok Server.NoFile
      \/ r = Ok Server.BadExtension -> s' = s).
Proof.
  intros Hu Hr.
  apply upload_outcome in Hu
    as [(_ & -> & ->)|(_ & [(-> & _)|[(U & Hc)|(job_id & fn & -> & _)]])];
    try done.
  - split; [done|].
    destruct Hc as [(e & ->)|[(e & ->)|(found & ->)]]; by intros [|[|]].
  - by destruct (Hr job_id).
Qed.

(** Only a running job makes the route answer with a conflict. *)
Lemma upload_conflict (file : option string) (s s' : sys World) :
  Server.upload file s = (s', Ok Server.Conflict) ->
  j_status (job_state s) = Running.
Proof.
  intros Hu.
  apply upload_outcome in Hu
    as [(E & _)|(_ & [(_ & [|])|[(_ & [(e & ?)|[(e & ?)|(c & ?)]])
                               |(job_id & fn & ? & _)]])];
    done.
Qed.

(** A job starts for a named file with an allowed extension only, when
    no job is running, and starting it resets the job. *)
Lemma upload_started (file : option string) (s s' : sys World)
      (job_id : string) :
  Server.upload file s = (s', Ok (Server.Started job_id)) ->
  j_status (job_state s) <> Running
  /\ exists filename,
       file = Some filename
       /\ Server.allowed_name filename = true
       /\ trace s'
          = trace s ++ [IoThread (Server.UPLOAD_FOLDER +:+ "/"
                                  +:+ job_id +:+ "_" +:+ filename)]
       /\ job_state s' = Job (Some job_id) Running 0 0 "" "" [] [] None.
Proof.
  intros Hu.
  apply upload_outcome in Hu
    as [(_ & ? & _)|(NE & [(_ & [|])|[(_ & [(e & ?)|[(e & ?)|(c & ?)]])
                                     |(id & fn & Hr & Hrest)]])];
    try done.
  injection Hr as <-. split; [done|]. by exists fn.
Qed.

(** *** The rows of a run *)

Lemma scrape_company_grows (name website : string) (s : sys World) :
  grows s (App.scrape_company name website s).1.
Proof.
  exact (scrape_pres grows _ _ grows_closed
           (on_sys grows) _ (on_sys_lifted grows) (fun _ _ => I)
           App.style (uses_any _) (fun _ => I) (fun _ => I) I (fun _ => I) I
           name website (fun _ _ Hf => Hf) s).
Qed.

Lemma run_row_full (total idx : nat) (row : gmap string string)
      (s : sys World) :
  is_Some (row !! "company_name") -> is_Some (row !! "website") ->
  exists s' r evs,
    Server.run_row total idx row s = (s', Ok tt)
    /\ row_done row r
    /\ j_results (job_state s') = j_results (job_state s) ++ [r]
    /\ j_events (job_state s') = j_events (job_state s) ++ evs
    /\ ev_data <$> evs = row_events total idx [row] [r]
    /\ same_header (job_state s) (job_state s')
    /\ trace s `prefix_of` trace s'.
Proof.
  intros [name Hn] [website Hw]. unfold Server.run_row, Server.cell.
  rewrite Hn, Hw. unfold bind at 1. unfold of_res at 1.
  unfold bind at 1. unfold of_res at 1.
  unfold bind at 1. unfold set_job at 1.
  unfold bind at 1. unfold push_event at 1. simpl.
  destruct (time_time (world s)) as [w1 t1].
  unfold bind at 1.
  set (s1 := Sys w1 _ _).
  destruct (NavFacts.scrape_run App.style name website s1)
    as (s2 & r & Er & _).
  pose proof (FatalFacts.scrape_company_same_job name website s1) as Hj.
  pose proof (scrape_company_grows name website s1) as [Hg _].
  pose proof (FatalFacts.scrape_company_identity name website s1 s2 r Er)
    as [I1 I2].
  unfold App.scrape_company in *. rewrite Er in *. simpl in Hj, Hg.
  unfold bind at 1. unfold set_job at 1.
  unfold bind at 1. unfold get at 1.
  unfold bind at 1. unfold attempt at 1, call at 1. simpl.
  destruct (to_excel _ (world s2)) as [w3 r3].
  unfold push_event. simpl.
  destruct (time_time w3) as [w4 t4]. simpl.
  eexists _, r, [_; _]. split; [reflexivity|]. simpl. rewrite Hj. simpl.
  split; [by exists name, website|]. split; [done|].
  split; [by rewrite <- app_assoc|]. split; [by rewrite Hn, Hw|].
  split; [by repeat split|done].
Qed.

Lemma row_events_cons (total idx : nat) (row : gmap string string)
      (rows : list (gmap string string)) (r : gmap string pyval)
      (rs : list (gmap string pyval)) :
  row_events total idx (row :: rows) (r :: rs)
  = row_events total idx [row] [r] ++ row_events total (S idx) rows rs.
Proof. reflexivity. Qed.

Lemma run_rows_full (total idx : nat) (rows : list (gmap string string))
      (s : sys World) :
  readable rows ->
  exists s' rs evs,
    Server.run_rows total idx rows s = (s', Ok tt)
    /\ Forall2 row_done rows rs
    /\ j_results (job_state s') = j_results (job_state s) ++ rs
    /\ j_events (job_state s') = j_events (job_state s) ++ evs
    /\ ev_data <$> evs = row_events total idx rows rs
    /\ same_header (job_state s) (job_state s')
    /\ trace s `prefix_of` trace s'.
Proof.
  intros Hrows. revert idx s.
  induction Hrows as [|row rows [Hn Hw] _ IH]; intros idx s.
  - exists s, [], []. rewrite !app_nil_r. by repeat split.
  - simpl Server.run_rows.
    destruct (run_row_full total idx row s Hn Hw)
      as (s1 & r & e1 & E1 & D1 & R1 & V1 & P1 & H1 & T1).
    rewrite (bind_ok _ _ _ _ _ E1).
    destruct (IH (S idx) s1) as (s' & rs & e2 & E & D & R & V & P & H2 & T2).
    exists s', (r :: rs), (e1 ++ e2). split; [done|].
    split; [by constructor|].
    split; [by rewrite R, R1, <- app_assoc|].
    split; [by rewrite V, V1, <- app_assoc|].
    split; [by rewrite fmap_app, P1, P, row_events_cons|].
    split; [|by etrans].
    destruct H1 as (A1 & B1 & C1 & D1' & F1), H2 as (A2 & B2 & C2 & D2 & F2).
    repeat split; congruence.
Qed.

(** *** A run that meets no failure *)

Lemma async_run (input_file : string) (s : sys World) (w1 : World)
      (df : dataframe) :
  read_excel input_file (world s) = (w1, Ok df) ->
  readable (df_rows df) ->
  (forall w, (launch w).2 = Ok tt) ->
  (forall w, (browser_close w).2 = Ok tt) ->
  exists s' rs evs,
    Server.run_scraper_async input_file s = (s', Ok tt)
    /\ j_status (job_state s') = Done
    /\ j_total (job_state s') = length (df_rows df)
    /\ j_results (job_state s') = rs
    /\ Forall2 row_done (df_rows df) rs
    /\ j_events (job_state s') = j_events (job_state s) ++ evs
    /\ ev_data <$> evs = run_events (df_rows df) rs
    /\ same_owner (job_state s) (job_state s').
Proof.
  intros Hread Hrows Hlaunch Hclose. unfold Server.run_scraper_async.
  unfold bind at 1. unfold call at 1. rewrite Hread.
  unfold bind at 1. unfold set_job at 1.
  unfold bind at 1. unfold set_job at 1.
  unfold bind at 1. unfold push_event at 1. simpl.
  destruct (time_time w1) as [w2 t2].
  unfold bind at 1. unfold call at 1. simpl.
  pose proof (Hlaunch w2) as Hl. destruct (launch w2) as [w3 r3].
  simpl in Hl. subst r3.
  set (s3 := Sys w3 _ _).
  destruct (run_rows_full (length (df_rows df)) 0 (df_rows df) s3 Hrows)
    as (s4 & rs & evs & E & D & R & V & P & (A & B & C1 & C2 & C3) & T).
  rewrite (bind_ok _ _ _ _ _ E).
  unfold bind at 1. unfold call at 1.
  pose proof (Hclose (world s4)) as Hc.
  destruct (browser_close (world s4)) as [w5 r5]. simpl in Hc. subst r5.
  unfold bind at 1. unfold push_event at 1. simpl.
  destruct (time_time w5) as [w6 t6]. unfold set_job. simpl.
  eexists _, rs, (Event (EvStart (length (df_rows df))) t2
                    :: evs ++ [Event (EvDone (length (df_rows df))
                                             Server.OUTPUT_FILE) t6]).
  split; [reflexivity|]. simpl in *.
  split; [done|]. split; [done|]. split; [by rewrite R|]. split; [done|].
  split; [by rewrite V; rewrite <- !app_assoc|].
  split; [|by repeat split].
  unfold run_events. by rewrite fmap_app, P.
Qed.

End Server.

(** *** What the rows of a run preserve

    A relation on machines that survives a change of the world, an
    extension of the trace and of the queue, and the two assignments of
    the loop, survives the loop. *)

Section Invariant.
Context {World : Type} `{Sig World}.
Variable K : sys World -> sys World -> Prop.
Hypothesis K_pre : PreOrder K.
Hypothesis K_ext : forall s w t e,
  K s (Sys w (trace s ++ t)
           (set_events (j_events (job_state s) ++ e) (job_state s))).
Hypothesis K_current : forall s n c,
  K s (Sys (world s) (trace s) (Server.set_current n c (job_state s))).
Hypothesis K_results : forall s rs,
  K s (Sys (world s) (trace s) (Server.set_results rs (job_state s))).

Lemma set_events_same (j : job) : set_events (j_events j ++ []) j = j.
Proof. destruct j. simpl. by rewrite app_nil_r. Qed.

Lemma call_kept {A} (f : World -> World * res A) : preserves K (call f).
Proof.
  intros s. unfold call. destruct (f (world s)) as [w r]. simpl.
  pose proof (K_ext s w [] []) as HK.
  by rewrite app_nil_r, set_events_same in HK.
Qed.

Lemma push_event_kept (p : payload) : preserves K (push_event p).
Proof.
  intros s. unfold push_event. destruct (time_time (world s)) as [w ts].
  simpl. pose proof (K_ext s w [] [Event p ts]) as HK.
  by rewrite app_nil_r in HK.
Qed.

Lemma scrape_company_kept (name website : string) :
  preserves K (App.scrape_company name website).
Proof.
  intros s.
  pose proof (FatalFacts.scrape_company_same_job name website s) as Hj.
  pose proof (scrape_company_grows name website s) as [[t Ht] _].
  destruct (App.scrape_company name website s) as [[w' t' j'] r].
  simpl in *. subst t' j'.
  pose proof (K_ext s w' t []) as HK. by rewrite set_events_same in HK.
Qed.

Lemma run_row_kept (total idx : nat) (row : gmap string string) :
  preserves K (Server.run_row total idx row).
Proof.
  unfold Server.run_row.
  repeat first
    [ match goal with |- PreOrder _ => apply _ end
    | apply preserves_of_res | apply preserves_get
    | apply push_event_kept | apply scrape_company_kept
    | match goal with
      | |- preserves K (set_job (Server.set_current _ _)) =>
          intros s; apply K_current
      | |- preserves K (set_job _) => intros s; apply K_results
      end
    | apply preserves_attempt; apply call_kept
    | apply preserves_bind; [..|intros ?] ].
Qed.

Lemma run_rows_kept (total idx : nat) (rows : list (gmap string string)) :
  preserves K (Server.run_rows total idx rows).
Proof.
  revert idx. induction rows as [|row rows IH]; intros idx; simpl.
  - apply preserves_ret. apply _.
  - apply preserves_bind; [..|intros _]; try apply _.
    + apply run_row_kept.
    + apply IH.
Qed.

(** The run after its first assignments. *)
Lemma async_tail_kept (total : nat) (rows : list (gmap string string)) :
  (forall s, K s (Sys (world s) (trace s)
                      (Server.set_status Done (job_state s)))) ->
  preserves K
    (bind (set_job (Server.set_results [])) (fun _ =>
     bind (push_event (EvStart total)) (fun _ =>
     bind (call launch) (fun _ =>
     bind (Server.run_rows total 0 rows) (fun _ =>
     bind (call browser_close) (fun _ =>
     bind (push_event (EvDone total Server.OUTPUT_FILE)) (fun _ =>
     set_job (Server.set_status Done)))))))).
Proof.
  intros K_done.
  repeat first
    [ match goal with |- PreOrder _ => apply _ end
    | apply push_event_kept | apply run_rows_kept | apply call_kept
    | match goal with
      | |- preserves K (set_job (Server.set_status Done)) =>
          intros s; apply K_done
      | |- preserves K (set_job _) => intros s; apply K_results
      end
    | apply preserves_bind; [..|intros ?] ].
Qed.

End Invariant.

Section Worker.
Context {World : Type} `{Sig World}.

#[export] Instance same_total_preorder : PreOrder (@same_total World).
Proof.
  split; [done|]. unfold same_total. intros s1 s2 s3 E1 E2. by rewrite E2.
Qed.

Lemma advances_ext (s : sys World) (w : World) (t : list io)
      (e : list event) :
  advances s (Sys w (trace s ++ t)
                  (set_events (j_events (job_state s) ++ e) (job_state s))).
Proof.
  split; [|done]. split; simpl; by apply prefix_app_r.
Qed.

Lemma advances_assign (s : sys World) (f : job -> job) :
  j_events (f (job_state s)) = j_events (job_state s) ->
  same_owner (job_state s) (f (job_state s)) ->
  advances s (Sys (world s) (trace s) (f (job_state s))).
Proof. intros Hev Ho. split; [|done]. split; [done|]. simpl. by rewrite Hev. Qed.

Lemma async_advances (input_file : string) :
  preserves (advances (World := World))
            (Server.run_scraper_async input_file).
Proof.
  unfold Server.run_scraper_async.
  apply preserves_bind; [..|intros df]; try apply _.
  { intros s. unfold call. by destruct (read_excel _ _). }
  apply preserves_bind; [..|intros _]; try apply _.
  { intros s. by apply advances_assign. }
  apply async_tail_kept; try apply _.
  - apply advances_ext.
  - intros s n c. by apply advances_assign.
  - intros s rs. by apply advances_assign.
  - intros s. by apply advances_assign.
Qed.

(** A run that returns has set the status and queued [done] last. *)
Lemma async_done (input_file : string) (s s' : sys World) :
  Server.run_scraper_async input_file s = (s', Ok tt) ->
  j_status (job_state s') = Done
  /\ exists ts,
       last (j_events (job_state s'))
       = Some (Event (EvDone (j_total (job_state s')) Server.OUTPUT_FILE) ts).
Proof.
  unfold Server.run_scraper_async. intros Hrun.
  apply bind_inv_ok in Hrun as (s1 & df & E1 & Hrun).
  apply bind_inv_ok in Hrun as (s2 & [] & E2 & Hrun).
  injection E2 as <-.
  assert (j_total (job_state s') = length (df_rows df)) as Htotal.
  { apply (preserves_inv same_total) in Hrun; [exact Hrun|].
    apply async_tail_kept; try apply _; done. }
  apply bind_inv_ok in Hrun as (s3 & [] & E3 & Hrun).
  apply bind_inv_ok in Hrun as (s4 & [] & E4 & Hrun).
  apply bind_inv_ok in Hrun as (s5 & [] & E5 & Hrun).
  apply bind_inv_ok in Hrun as (s6 & [] & E6 & Hrun).
  apply bind_inv_ok in Hrun as (s7 & [] & E7 & Hrun).
  unfold bind, push_event, set_job in Hrun.
  destruct (time_time (world s7)) as [w8 ts]. injection Hrun as <-.
  simpl in *. split; [done|]. exists ts. by rewrite last_snoc, Htotal.
Qed.

(** The worker returns, and the job is then finished one way or the
    other. *)
Lemma thread_run (input_file : string) (s : sys World) :
  exists s',
    Server.run_scraper_thread input_file s = (s', Ok tt)
    /\ grows s s'
    /\ j_id (job_state s') = j_id (job_state s)
    /\ ((j_status (job_state s') = Done
         /\ j_error (job_state s') = j_error (job_state s)
         /\ exists ts,
              last (j_events (job_state s'))
              = Some (Event (EvDone (j_total (job_state s'))
                                    Server.OUTPUT_FILE) ts))
        \/ (exists message ts,
               j_status (job_state s') = Failed
               /\ j_error (job_state s') = Some message
               /\ last (j_events (job_state s'))
                  = Some (Event (EvError message) ts))).
Proof.
  unfold Server.run_scraper_thread. unfold bind at 1, attempt at 1.
  destruct (Server.run_scraper_async input_file s) as [s1 r] eqn:E.
  pose proof (preserves_inv _ _ _ _ _ (async_advances input_file) E)
    as [[Gt Ge] (Hid & _ & Herr)].
  destruct r as [[]|e].
  - exists s1. split; [done|]. split; [done|]. split; [done|]. left.
    apply async_done in E as [Hs Hl]. by repeat split.
  - unfold bind, set_job, push_event. simpl.
    destruct (time_time (world s1)) as [w2 ts].
    eexists. split; [reflexivity|]. simpl.
    split; [split; [done|]; simpl; by apply prefix_app_r|].
    split; [done|]. right. exists (exn_msg e), ts.
    by rewrite last_snoc.
Qed.

(** The worker reads its input with [read_excel]; when that raises, the
    job fails with nothing else done. *)
Lemma thread_unreadable (input_file : string) (s : sys World)
      (w1 w2 : World) (e : exn) (ts : Z) :
  read_excel input_file (world s) = (w1, Raise e) ->
  time_time w1 = (w2, ts) ->
  Server.run_scraper_thread input_file s
  = (Sys w2 (trace s) (failed_job (job_state s) (exn_msg e) ts), Ok tt).
Proof.
  intros Hread Htime.
  unfold Server.run_scraper_thread, Server.run_scraper_async.
  unfold bind at 1, attempt at 1, bind at 1, call at 1. rewrite Hread.
  unfold bind, set_job, push_event. simpl. by rewrite Htime.
Qed.

(** After the worker the route takes a new job. *)
Lemma upload_after_worker (input_file : string) (file : option string)
      (s s' : sys World) (r : res Server.reply) :
  Server.upload file (Server.run_scraper_thread input_file s).1 = (s', r) ->
  r <> Ok Server.Conflict.
Proof.
  intros Hu ->. apply upload_conflict in Hu.
  destruct (thread_run input_file s)
    as (s1 & E & _ & _ & [(Hs & _)|(m & ts & Hs & _)]);
    rewrite E in Hu; simpl in Hu; congruence.
Qed.

(** A run that meets no failure, as the worker runs it. *)
Lemma thread_success (input_file : string) (s : sys World) (w1 : World)
      (df : dataframe) :
  read_excel input_file (world s) = (w1, Ok df) ->
  readable (df_rows df) ->
  (forall w, (launch w).2 = Ok tt) ->
  (forall w, (browser_close w).2 = Ok tt) ->
  exists s' rs evs,
    Server.run_scraper_thread input_file s = (s', Ok tt)
    /\ j_status (job_state s') = Done
    /\ j_total (job_state s') = length (df_rows df)
    /\ j_results (job_state s') = rs
    /\ Forall2 row_done (df_rows df) rs
    /\ j_events (job_state s') = j_events (job_state s) ++ evs
    /\ ev_data <$> evs = run_events (df_rows df) rs
    /\ same_owner (job_state s) (job_state s').
Proof.
  intros Hread Hrows Hlaunch Hclose.
  destruct (async_run input_file s w1 df Hread Hrows Hlaunch Hclose)
    as (s' & rs & evs & E & Hrest).
  exists s', rs, evs. split; [|exact Hrest].
  unfold Server.run_scraper_thread, bind, attempt. by rewrite E.
Qed.

End Worker.

End ServerFacts.

(** ** The progress stream *)

Module StreamFacts.

Import Rt Env Flow Progress.

Lemma chain_weaken (a b : list event) (l : list (list event)) :
  a `prefix_of` b -> chain (b :: l) -> chain (a :: l).
Proof.
  destruct l as [|c l]; [done|]. simpl. intros Hab [Hbc Hl].
  split; [by etrans|done].
Qed.

Lemma last_slice_cons (before : list event) (p : pass) (rest : list pass) :
  last_slice before (p :: rest) = last_slice (j_events (at_slice p)) rest.
Proof.
  unfold last_slice. destruct rest as [|q rest]; [reflexivity|].
  rewrite last_cons_cons.
  destruct (last (q :: rest)) eqn:E; [done|]. by apply last_None in E.
Qed.

(** A pass that starts after the queue [before]. *)
Lemma step_after (before : list event) (p : pass) :
  before `prefix_of` j_events (at_slice p) ->
  exists new,
    j_events (at_slice p) = before ++ new
    /\ one_pass (length before) p
       = (ev_data <$> new, length (j_events (at_slice p)),
          finished (j_status (at_status p))
          && (length (j_events (at_length p))
              <=? length (j_events (at_slice p)))).
Proof.
  intros [new Hnew]. exists new. split; [done|]. unfold one_pass.
  rewrite Hnew, drop_app_length, length_app. done.
Qed.

Lemma prefix_same (a b : list event) :
  a `prefix_of` b -> length b <= length a -> b = a.
Proof.
  intros [k ->]. rewrite length_app. intros Hl.
  destruct k; [by rewrite app_nil_r|]. simpl in Hl. lia.
Qed.

(** What has been yielded, together with what was yielded before the
    passes, is the queue as it was last read. *)
Lemma generate_inv (passes : list pass) (before : list event) :
  chain (before :: reads passes) ->
  ((generate (length before) passes).2 = false ->
   (ev_data <$> before) ++ (generate (length before) passes).1
   = ev_data <$> last_slice before passes)
  /\ ((generate (length before) passes).2 = true ->
      exists p,
        p ∈ passes /\ finished (j_status (at_status p)) = true
        /\ (ev_data <$> before) ++ (generate (length before) passes).1
           = ev_data <$> j_events (at_length p)).
Proof.
  revert before. induction passes as [|p rest IH]; intros before.
  - intros _. split; [|done]. intros _. simpl. by rewrite app_nil_r.
  - unfold reads. cbn [fmap list_fmap concat views app chain].
    intros (Hs & Hl & Hrest).
    destruct (step_after before p Hs) as (new & Hnew & Hstep).
    cbn [generate]. rewrite Hstep.
    destruct (finished (j_status (at_status p))
              && (length (j_events (at_length p))
                  <=? length (j_events (at_slice p)))) eqn:Estop.
    + split; [done|]. intros _. exists p. split; [by left|].
      apply andb_prop in Estop as [Hf Hlen%Nat.leb_le]. split; [done|].
      simpl. rewrite (prefix_same _ _ Hl Hlen), Hnew. by rewrite fmap_app.
    + specialize (IH (j_events (at_slice p)) (chain_weaken _ _ _ Hl Hrest)).
      destruct (generate (length (j_events (at_slice p))) rest)
        as [more stopped].
      simpl in *. destruct IH as [IH1 IH2].
      rewrite app_assoc, <- fmap_app, <- Hnew. split.
      * intros Hst. rewrite last_slice_cons. by apply IH1.
      * intros Hst. destruct (IH2 Hst) as (q & Hq & Hf & Hd).
        exists q. split; [by right|done].
Qed.

(** A pass over a finished job that does not change ends the stream. *)
Lemma generate_finished (j : job) (last_idx : nat) :
  finished (j_status j) = true ->
  generate last_idx [still j] = (ev_data <$> drop last_idx (j_events j), true).
Proof.
  intros Hf. cbn [generate]. unfold one_pass, still. cbn [at_slice at_status at_length].
  rewrite Hf. simpl.
  assert ((length (j_events j)
           <=? last_idx + length (drop last_idx (j_events j))) = true)
    as ->; [|done].
  apply Nat.leb_le. rewrite length_drop. lia.
Qed.

(** A client that connects once the worker has returned. *)
Lemma late_stream {World : Type} `{Sig World} (input_file : string)
      (s : sys World) (last_idx : nat) :
  generate last_idx
    [still (job_state (Server.run_scraper_thread input_file s).1)]
  = (ev_data <$> drop last_idx
       (j_events (job_state (Server.run_scraper_thread input_file s).1)),
     true).
Proof.
  apply generate_finished.
  destruct (ServerFacts.thread_run input_file s)
    as (s' & E & _ & _ & [(Hs & _)|(m & ts & Hs & _)]);
    rewrite E; simpl; by rewrite Hs.
Qed.

End StreamFacts.

(** ** [server.py]: upload, worker, progress stream *)

(** X14 ([upload]): a request that does not start a job, whether it is
    answered with an error or raises, leaves the job and the trace as
    they were; answered with a conflict, a missing file or a bad
    extension it leaves the whole machine as it was, nothing having been
    saved. *)
Theorem rejected_upload_changes_nothing :
  forall (World : Type) (E : Env.Sig World) (file : option string)
         (s s' : Env.sys World) (r : Rt.res Server.reply),
    Server.upload file s = (s', r) ->
    (forall job_id, r <> Rt.Ok (Server.Started job_id)) ->
    Life.unseen s s'
    /\ (r = Rt.Ok Server.Conflict \/ r = Rt.Ok Server.NoFile
        \/ r = Rt.Ok Server.BadExtension -> s' = s).
Proof. intros World E. exact ServerFacts.upload_rejected. Qed.

Lemma rejected_upload_changes_nothing_witness :
  Server.upload (H := Script.sig (Demo.table [])) (Some "leads.txt") Demo.idle
  = (Demo.idle, Rt.Ok Server.BadExtension)
  /\ Life.unseen Demo.idle Demo.idle.
Proof.
  assert (Server.upload (H := Script.sig (Demo.table [])) (Some "leads.txt")
                        Demo.idle
          = (Demo.idle, Rt.Ok Server.BadExtension)) as Hu by reflexivity.
  split; [exact Hu|].
  apply (rejected_upload_changes_nothing _ _ _ _ _ _ Hu). by intros id.
Defined.

(** X15 ([run_scraper_thread]): the worker returns whatever happens in
    the run.  It only appends to the trace and to the event queue and
    keeps the id of the job; afterwards the job is done, with the error
    field untouched and a [done] event with the total as the last
    event, or it has failed, with a message in the error field and an
    [error] event with that message as the last event. *)
Theorem worker_always_finishes :
  forall (World : Type) (E : Env.Sig World) (input_file : string)
         (s : Env.sys World),
    exists s',
      Server.run_scraper_thread input_file s = (s', Rt.Ok tt)
      /\ Spec.grows s s'
      /\ Rt.j_id (Env.job_state s') = Rt.j_id (Env.job_state s)
      /\ ((Rt.j_status (Env.job_state s') = Rt.Done
           /\ Rt.j_error (Env.job_state s') = Rt.j_error (Env.job_state s)
           /\ exists ts,
                last (Rt.j_events (Env.job_state s'))
                = Some (Rt.Event
                          (Rt.EvDone (Rt.j_total (Env.job_state s'))
                                     Server.OUTPUT_FILE) ts))
          \/ (exists message ts,
                 Rt.j_status (Env.job_state s') = Rt.Failed
                 /\ Rt.j_error (Env.job_state s') = Some message
                 /\ last (Rt.j_events (Env.job_state s'))
                    = Some (Rt.Event (Rt.EvError message) ts))).
Proof. intros World E. exact ServerFacts.thread_run. Qed.

(** X16 ([run_scraper_async] under the worker): when the table is read,
    every row has the two cells, and the browser launches and closes,
    the job ends done with the number of rows as total and one result
    per row, in order, carrying the name and the website of its row; the
    queue gains a [start], then a [company_start] and a [company_done]
    for each row, numbered from 1, then a [done], and nothing else,
    whatever the crawls and the saving of the workbook did. *)
Theorem run_event_protocol :
  forall (World : Type) (E : Env.Sig World) (input_file : string)
         (s : Env.sys World) (w1 : World) (df : Env.dataframe),
    Env.read_excel input_file (Env.world s) = (w1, Rt.Ok df) ->
    Flow.readable (Env.df_rows df) ->
    (forall w, (Env.launch w).2 = Rt.Ok tt) ->
    (forall w, (Env.browser_close w).2 = Rt.Ok tt) ->
    exists s' results events,
      Server.run_scraper_thread input_file s = (s', Rt.Ok tt)
      /\ Rt.j_status (Env.job_state s') = Rt.Done
      /\ Rt.j_total (Env.job_state s') = length (Env.df_rows df)
      /\ Rt.j_results (Env.job_state s') = results
      /\ Forall2 Spec.row_done (Env.df_rows df) results
      /\ Rt.j_events (Env.job_state s')
         = Rt.j_events (Env.job_state s) ++ events
      /\ Rt.ev_data <$> events = Flow.run_events (Env.df_rows df) results
      /\ Flow.same_owner (Env.job_state s) (Env.job_state s').
Proof. intros World E. exact ServerFacts.thread_success. Qed.

Lemma run_event_protocol_witness :
  Flow.readable [Demo.acme_row]
  /\ exists s' results events,
       Server.run_scraper_thread (H := Script.sig (Demo.table [Demo.acme_row]))
         "uploads/1b9d6bcd_leads.xlsx" Demo.idle = (s', Rt.Ok tt)
       /\ Rt.j_status (Env.job_state s') = Rt.Done
       /\ Rt.j_total (Env.job_state s') = 1
       /\ Rt.j_results (Env.job_state s') = results
       /\ Forall2 Spec.row_done [Demo.acme_row] results
       /\ Rt.j_events (Env.job_state s')
          = Rt.j_events (Env.job_state Demo.idle) ++ events
       /\ Rt.ev_data <$> events = Flow.run_events [Demo.acme_row] results
       /\ Flow.same_owner (Env.job_state Demo.idle) (Env.job_state s').
Proof.
  assert (Flow.readable [Demo.acme_row]) as Hr.
  { constructor; [|constructor]. split; by eexists. }
  split; [exact Hr|].
  exact (run_event_protocol _ (Script.sig (Demo.table [Demo.acme_row]))
           "uploads/1b9d6bcd_leads.xlsx" Demo.idle Script.start
           (Env.DataFrame ["company_name"; "website"] [Demo.acme_row])
           eq_refl Hr (fun _ => eq_refl) (fun _ => eq_refl)).
Defined.

(** X17 ([run_scraper_async] under the worker): the worker reads its
    input with [read_excel], whatever the extension of the file; when
    that read raises, the job fails with the message of the exception,
    an [error] event is queued, and nothing else has happened: no
    browser, no change to total, results or trace. *)
Theorem unreadable_input_fails_job :
  forall (World : Type) (E : Env.Sig World) (input_file : string)
         (s : Env.sys World) (w1 w2 : World) (e : Rt.exn) (ts : Z),
    Env.read_excel input_file (Env.world s) = (w1, Rt.Raise e) ->
    Env.time_time w1 = (w2, ts) ->
    Server.run_scraper_thread input_file s
    = (Env.Sys w2 (Env.trace s)
               (Flow.failed_job (Env.job_state s) (Rt.exn_msg e) ts),
       Rt.Ok tt).
Proof. intros World E. exact ServerFacts.thread_unreadable. Qed.

Lemma unreadable_input_fails_job_witness :
  Server.run_scraper_thread (H := Script.sig DemoFlow.broken)
    "uploads/1b9d6bcd_leads.csv" Demo.idle
  = (Env.Sys (Script.World None 1 0) []
             (Flow.failed_job Rt.job_initial
                "Excel file format cannot be determined" 0),
     Rt.Ok tt).
Proof.
  exact (unreadable_input_fails_job _ (Script.sig DemoFlow.broken)
           "uploads/1b9d6bcd_leads.csv" Demo.idle Script.start
           (Script.World None 1 0) DemoFlow.not_a_workbook 0
           eq_refl eq_refl).
Defined.

(** X18 (the generator of [progress]): when every queue the generator
    reads extends the one it read before, the frames it has yielded are
    the events of the queue, each once and in order: up to the last
    slice while it runs, and, once it has returned, the whole queue of a
    job that it found finished. *)
Theorem stream_delivers_each_event_once :
  forall passes : list Progress.pass,
    Progress.chain (Progress.reads passes) ->
    ((Progress.generate 0 passes).2 = false ->
     (Progress.generate 0 passes).1
     = Rt.ev_data <$> Progress.last_slice [] passes)
    /\ ((Progress.generate 0 passes).2 = true ->
        exists p,
          p ∈ passes
          /\ Flow.finished (Rt.j_status (Progress.at_status p)) = true
          /\ (Progress.generate 0 passes).1
             = Rt.ev_data <$> Rt.j_events (Progress.at_length p)).
Proof.
  intros passes Hc.
  apply (StreamFacts.generate_inv passes []).
  destruct (Progress.reads passes) as [|q l] eqn:E; [done|].
  split; [apply prefix_nil|done].
Qed.

Lemma stream_delivers_each_event_once_witness :
  Progress.chain (Progress.reads DemoFlow.two_passes)
  /\ Progress.generate 0 DemoFlow.two_passes
     = ([Rt.EvStart 0; Rt.EvDone 0 Server.OUTPUT_FILE], true)
  /\ exists p,
       p ∈ DemoFlow.two_passes
       /\ Flow.finished (Rt.j_status (Progress.at_status p)) = true
       /\ (Progress.generate 0 DemoFlow.two_passes).1
          = Rt.ev_data <$> Rt.j_events (Progress.at_length p).
Proof.
  assert (Progress.chain (Progress.reads DemoFlow.two_passes)) as Hc.
  { repeat split; [done|by exists [DemoFlow.ended]|done]. }
  split; [exact Hc|]. split; [reflexivity|].
  by apply (stream_delivers_each_event_once DemoFlow.two_passes Hc).
Defined.

(** X19 (the generator of [progress] after [run_scraper_thread]): a
    client that connects when the worker has returned, or that has
    received the first [last_idx] events by then, gets the rest of the
    queue in one pass, and the stream ends. *)
Theorem late_stream_gets_the_rest :
  forall (World : Type) (E : Env.Sig World) (input_file : string)
         (s : Env.sys World) (last_idx : nat),
    Progress.generate last_idx
      [Progress.still
         (Env.job_state (Server.run_scraper_thread input_file s).1)]
    = (Rt.ev_data <$> drop last_idx
         (Rt.j_events
            (Env.job_state (Server.run_scraper_thread input_file s).1)),
       true).
Proof. intros World E. exact StreamFacts.late_stream. Qed.

(** X20 ([upload] after [run_scraper_thread]): once the worker has
    returned, whatever happened in the run, the route does not answer
    with a conflict: the server takes the next job. *)
Theorem upload_after_worker_never_conflicts :
  forall (World : Type) (E : Env.Sig World) (input_file : string)
         (file : option string) (s s' : Env.sys World)
         (r : Rt.res Server.reply),
    Server.upload file (Server.run_scraper_thread input_file s).1 = (s', r) ->
    r <> Rt.Ok Server.Conflict.
Proof. intros World E. exact ServerFacts.upload_after_worker. Qed.

Lemma upload_after_worker_never_conflicts_witness :
  Server.upload (H := Script.sig (Demo.table [Demo.acme_row]))
    (Some "next.xlsx") Demo.after_run
  = ((Server.upload (H := Script.sig (Demo.table [Demo.acme_row]))
        (Some "next.xlsx") Demo.after_run).1,
     Rt.Ok (Server.Started "1b9d6bcd"))
  /\ Rt.Ok (Server.Started "1b9d6bcd") <> Rt.Ok Server.Conflict.
Proof.
  assert (Server.upload (H := Script.sig (Demo.table [Demo.acme_row]))
            (Some "next.xlsx") Demo.after_run
          = ((Server.upload (H := Script.sig (Demo.table [Demo.acme_row]))
                (Some "next.xlsx") Demo.after_run).1,
             Rt.Ok (Server.Started "1b9d6bcd"))) as Hu
    by (vm_compute; reflexivity).
  split; [exact Hu|].
  exact (upload_after_worker_never_conflicts _
           (Script.sig (Demo.table [Demo.acme_row]))
           "uploads/1b9d6bcd_leads.xlsx" (Some "next.xlsx") Demo.idle _ _ Hu).
Defined.

(** X25 ([upload]): a job is started only for a named file with one of
    the three extensions and only while no job is running; starting it
    hands the saved path to a worker thread and resets the job: the new
    id, status running, counters at zero, no results, an empty queue, no
    error. *)
Theorem started_upload_resets_job :
  forall (World : Type) (E : Env.Sig World) (file : option string)
         (s s' : Env.sys World) (job_id : string),
    Server.upload file s = (s', Rt.Ok (Server.Started job_id)) ->
    Rt.j_status (Env.job_state s) <> Rt.Running
    /\ exists filename,
         file = Some filename
         /\ Server.allowed_name filename = true
         /\ Env.trace s'
            = Env.trace s
                ++ [Rt.IoThread (Server.UPLOAD_FOLDER +:+ "/" +:+ job_id
                                 +:+ "_" +:+ filename)]
         /\ Env.job_state s'
            = Rt.Job (Some job_id) Rt.Running 0 0 "" "" [] [] None.
Proof. intros World E. exact ServerFacts.upload_started. Qed.

Lemma started_upload_resets_job_witness :
  Server.upload (H := Script.sig (Demo.table [Demo.acme_row]))
    (Some "next.xlsx") Demo.after_run
  = ((Server.upload (H := Script.sig (Demo.table [Demo.acme_row]))
        (Some "next.xlsx") Demo.after_run).1,
     Rt.Ok (Server.Started "1b9d6bcd"))
  /\ Rt.j_status (Env.job_state Demo.after_run) <> Rt.Running
  /\ Server.allowed_name "next.xlsx" = true.
Proof.
  assert (Server.upload (H := Script.sig (Demo.table [Demo.acme_row]))
            (Some "next.xlsx") Demo.after_run
          = ((Server.upload (H := Script.sig (Demo.table [Demo.acme_row]))
                (Some "next.xlsx") Demo.after_run).1,
             Rt.Ok (Server.Started "1b9d6bcd"))) as Hu
    by (vm_compute; reflexivity).
  split; [exact Hu|].
  destruct (started_upload_resets_job _ _ _ _ _ _ Hu)
    as (Hs & fn & [= <-] & Ha & _).
  by split.
Defined.

(** ** The command-line run *)

Module MainFacts.

Import Rt Env Spec Flow Main RtFacts.

Section Main.
Context {World : Type} `{Sig World}.

Lemma show_all_run (bs : list banner) (r : run World) :
  show_all bs r = (Run (r_sys r) (r_out r ++ bs), Ok tt).
Proof.
  revert r. induction bs as [|b bs IH]; intros r; simpl.
  - rewrite app_nil_r. by destruct r.
  - unfold bind, show, modify. rewrite IH. simpl.
    by rewrite <- app_assoc.
Qed.

Lemma main_row_full (total idx : nat) (row : gmap string string)
      (results : list (gmap string pyval)) (r : run World) :
  is_Some (row !! "company_name") -> is_Some (row !! "website") ->
  exists r' result outcome,
    main_row total idx row results r = (r', Ok (results ++ [result]))
    /\ row_done row result
    /\ r_out r'
       = r_out r ++ [BRuleAfterBlank; BProcessing (idx + 1) total; BRule]
           ++ saved_banners (default "" (row !! "company_name"))
                            (length results + 1) outcome
    /\ job_state (r_sys r') = job_state (r_sys r)
    /\ trace (r_sys r) `prefix_of` trace (r_sys r').
Proof.
  intros [name Hn] [website Hw]. unfold main_row, cell.
  rewrite (bind_ok _ _ _ _ _ (show_all_run _ r)).
  rewrite Hn, Hw. unfold bind at 1. unfold of_res at 1.
  unfold bind at 1. unfold of_res at 1.
  unfold bind at 1. unfold sysR at 1, zoom at 1. cbn [r_sys r_out].
  destruct (NavFacts.scrape_run App.style name website (r_sys r))
    as (s2 & result & Er & _).
  pose proof (FatalFacts.scrape_company_same_job name website (r_sys r)) as Hj.
  pose proof (ServerFacts.scrape_company_grows name website (r_sys r))
    as [Hg _].
  pose proof (FatalFacts.scrape_company_identity name website (r_sys r) s2
                result Er) as [I1 I2].
  unfold App.scrape_company in *. rewrite Er in *. simpl in Hj, Hg.
  unfold bind at 1. unfold attempt at 1, sysR at 1, zoom at 1, call at 1.
  cbn [r_sys r_out].
  destruct (to_excel (results ++ [result]) (world s2)) as [w3 outcome].
  rewrite (bind_ok _ _ _ _ _ (show_all_run _ _)). cbn [r_sys r_out ret].
  eexists _, result, outcome. split; [reflexivity|]. simpl.
  split; [by exists name, website|].
  split; [by rewrite length_app, <- !app_assoc|]. by split.
Qed.

Lemma main_rows_full (total : nat) (rows : list (gmap string string))
      (results : list (gmap string pyval)) (r : run World) :
  readable rows ->
  exists r' rs outcomes,
    main_rows total (length results) rows results r = (r', Ok (results ++ rs))
    /\ Forall2 row_done rows rs
    /\ length outcomes = length rows
    /\ r_out r' = r_out r ++ rows_banners total (length results) rows outcomes
    /\ job_state (r_sys r') = job_state (r_sys r)
    /\ trace (r_sys r) `prefix_of` trace (r_sys r').
Proof.
  intros Hrows. revert results r.
  induction Hrows as [|row rows [Hn Hw] _ IH]; intros results r.
  - exists r, [], []. rewrite !app_nil_r. by repeat split.
  - cbn [main_rows].
    destruct (main_row_full total (length results) row results r Hn Hw)
      as (r1 & result & o & E1 & D1 & O1 & J1 & T1).
    rewrite (bind_ok _ _ _ _ _ E1).
    assert (S (length results) = length (results ++ [result])) as Hlen
      by (rewrite length_app; simpl; lia).
    rewrite Hlen.
    destruct (IH (results ++ [result]) r1)
      as (r' & rs & os & E & D & L & O & J & T).
    exists r', (result :: rs), (o :: os). rewrite E, <- app_assoc.
    split; [done|]. split; [by constructor|]. split; [simpl; lia|].
    split; [|split; [congruence|by etrans]].
    rewrite O, O1, <- Hlen. cbn [rows_banners].
    replace (length results + 1) with (S (length results)) by lia.
    by rewrite <- !app_assoc.
Qed.

(** A run that meets no failure but in saving. *)
Lemma main_full (r : run World) (w1 : World) (df : dataframe) :
  read_excel INPUT_FILE (world (r_sys r)) = (w1, Ok df) ->
  readable (df_rows df) ->
  (forall w, (launch w).2 = Ok tt) ->
  (forall w, (browser_close w).2 = Ok tt) ->
  exists r' outcomes,
    main r = (r', Ok tt)
    /\ length outcomes = length (df_rows df)
    /\ r_out r'
       = r_out r
           ++ BStarting
           :: rows_banners (length (df_rows df)) 0 (df_rows df) outcomes
           ++ [BCompleted; BFinal]
    /\ job_state (r_sys r') = job_state (r_sys r)
    /\ trace (r_sys r) `prefix_of` trace (r_sys r').
Proof.
  intros Hread Hrows Hlaunch Hclose. unfold main.
  unfold bind at 1, show at 1, modify at 1.
  unfold bind at 1, sysR at 1, zoom at 1, call at 1. cbn [r_sys r_out].
  rewrite Hread.
  unfold bind at 1, sysR at 1, zoom at 1, call at 1. cbn [r_sys r_out world].
  pose proof (Hlaunch w1) as Hl. destruct (launch w1) as [w2 r2].
  simpl in Hl. subst r2.
  set (r1 := Run _ _).
  destruct (main_rows_full (length (df_rows df)) (df_rows df) [] r1 Hrows)
    as (r3 & rs & os & E & D & L & O & J & T).
  simpl in E. rewrite (bind_ok _ _ _ _ _ E).
  unfold bind at 1, sysR at 1, zoom at 1, call at 1.
  pose proof (Hclose (world (r_sys r3))) as Hc.
  destruct (browser_close (world (r_sys r3))) as [w5 r5].
  simpl in Hc. subst r5.
  rewrite show_all_run. cbn [r_sys r_out].
  eexists _, os. split; [reflexivity|]. split; [done|].
  simpl in *. split; [by rewrite O, <- !app_assoc|]. by split.
Qed.

(** A workbook that cannot be read ends the run before the browser. *)
Lemma main_unreadable (r : run World) (w1 : World) (e : exn) :
  read_excel INPUT_FILE (world (r_sys r)) = (w1, Raise e) ->
  main r
  = (Run (Sys w1 (trace (r_sys r)) (job_state (r_sys r)))
         (r_out r ++ [BStarting]),
     Raise e).
Proof.
  intros Hread. unfold main.
  unfold bind at 1, show at 1, modify at 1.
  unfold bind at 1, sysR at 1, zoom at 1, call at 1. cbn [r_sys r_out].
  by rewrite Hread.
Qed.

End Main.

End MainFacts.

(** ** [main] of [app.py] *)

(** X23 ([main]): when the workbook is read, every row has the two
    cells, and the browser launches and closes, the run returns; it
    prints the opening line, then for each row in order the banner with
    its number out of the total and either the three lines of a saved
    workbook, with the number of rows so far and the output columns, or
    the two lines of a failed save, and at the end the two closing
    lines; a failed save stops nothing; the job of the server is not
    touched. *)
Theorem main_run_protocol :
  forall (World : Type) (E : Env.Sig World) (r : Main.run World)
         (w1 : World) (df : Env.dataframe),
    Env.read_excel Main.INPUT_FILE (Env.world (Main.r_sys r))
    = (w1, Rt.Ok df) ->
    Flow.readable (Env.df_rows df) ->
    (forall w, (Env.launch w).2 = Rt.Ok tt) ->
    (forall w, (Env.browser_close w).2 = Rt.Ok tt) ->
    exists r' outcomes,
      Main.main r = (r', Rt.Ok tt)
      /\ length outcomes = length (Env.df_rows df)
      /\ Main.r_out r'
         = Main.r_out r
             ++ Main.BStarting
             :: Main.rows_banners (length (Env.df_rows df)) 0
                  (Env.df_rows df) outcomes
             ++ [Main.BCompleted; Main.BFinal]
      /\ Env.job_state (Main.r_sys r') = Env.job_state (Main.r_sys r)
      /\ Env.trace (Main.r_sys r) `prefix_of` Env.trace (Main.r_sys r').
Proof. intros World E. exact MainFacts.main_full. Qed.

Lemma main_run_protocol_witness :
  Flow.readable [Demo.acme_row]
  /\ exists r' outcomes,
       Main.main (H := Script.sig (Demo.table [Demo.acme_row])) DemoMain.fresh
       = (r', Rt.Ok tt)
       /\ length outcomes = 1
       /\ Main.r_out r'
          = Main.r_out DemoMain.fresh
              ++ Main.BStarting
              :: Main.rows_banners 1 0 [Demo.acme_row] outcomes
              ++ [Main.BCompleted; Main.BFinal]
       /\ Env.job_state (Main.r_sys r')
          = Env.job_state (Main.r_sys DemoMain.fresh)
       /\ Env.trace (Main.r_sys DemoMain.fresh)
          `prefix_of` Env.trace (Main.r_sys r').
Proof.
  assert (Flow.readable [Demo.acme_row]) as Hr.
  { constructor; [|constructor]. split; by eexists. }
  split; [exact Hr|].
  exact (main_run_protocol _ (Script.sig (Demo.table [Demo.acme_row]))
           DemoMain.fresh Script.start
           (Env.DataFrame ["company_name"; "website"] [Demo.acme_row])
           eq_refl Hr (fun _ => eq_refl) (fun _ => eq_refl)).
Defined.

(** X24 ([main]): [main] has no handler around the reading of the
    workbook: when [read_excel] raises, the exception leaves [main]
    after the opening line, before any browser is launched, with trace
    and job as they were. *)
Theorem main_stops_on_unreadable_input :
  forall (World : Type) (E : Env.Sig World) (r : Main.run World)
         (w1 : World) (e : Rt.exn),
    Env.read_excel Main.INPUT_FILE (Env.world (Main.r_sys r))
    = (w1, Rt.Raise e) ->
    Main.main r
    = (Main.Run (Env.Sys w1 (Env.trace (Main.r_sys r))
                         (Env.job_state (Main.r_sys r)))
                (Main.r_out r ++ [Main.BStarting]),
       Rt.Raise e).
Proof. intros World E. exact MainFacts.main_unreadable. Qed.

Lemma main_stops_on_unreadable_input_witness :
  Main.main (H := Script.sig DemoFlow.broken) DemoMain.fresh
  = (Main.Run (Env.Sys Script.start [] Rt.job_initial) [Main.BStarting],
     Rt.Raise DemoFlow.not_a_workbook).
Proof.
  exact (main_stops_on_unreadable_input _ (Script.sig DemoFlow.broken)
           DemoMain.fresh Script.start DemoFlow.not_a_workbook eq_refl).
Defined.
